(** * The OCI driver of the Packer Oracle plugin

    A shallow embedding of [builder/oci/driver_oci.go]: the shared retry
    policy, the operations of [driverOCI] and the generic poll loop
    [waitForResourceToReachState], followed by the properties of the
    driver's specification that were checked against it.

    The driver talks to the OCI control plane through the SDK's compute
    and virtual-network clients.  The clients are not part of the
    repository: they are a parameter of the development (a record of
    handlers over an arbitrary service state), and every request the
    driver hands to them is recorded, with the context it was given, in
    a chronological log. *)

From Stdlib Require Import ZArith QArith Qround Lia.
From stdpp Require Import gmap strings list fin_maps.

Local Open Scope string_scope.
Local Open Scope list_scope.
Local Open Scope Z_scope.

(** ** Go values *)

Module Go.

(** Signed 64-bit wrap-around ([int], [int64], [time.Duration]). *)
Definition int64 (z : Z) : Z := (z + 2 ^ 63) mod 2 ^ 64 - 2 ^ 63.

(** Unsigned 64-bit wrap-around ([uint], [uint64]). *)
Definition uint64 (z : Z) : Z := z mod 2 ^ 64.

(** The [float64] values: the finite ones, as the rational they denote
(the two zeros are not told apart: the driver converts its floats
to integers and does nothing else with them), the two infinities
and NaN. *)
Inductive float64 : Type :=
| Finite (q : Q)
| PosInf
| NegInf
| NaN.

(** [2^e] as a rational, for an exponent of either sign. *)
Definition pow2 (e : Z) : Q :=
if 0 <=? e then inject_Z (2 ^ e) else Qmake 1 (Z.to_pos (2 ^ (- e))).

(** The rationals that are [float64] values: [m * 2^e] for an integer
[m] of at most 53 bits and an exponent [e] from -1074 to 971. *)
Definition is_float64 (q : Q) : Prop :=
exists m e : Z, Z.abs m < 2 ^ 53 /\ -1074 <= e <= 971 /\ (q == inject_Z m * pow2 e)%Q.

(** The quotient of [num] by [den] (a positive [den]), rounded to the
nearest integer, to the even one of the two when it is half-way. *)
Definition nearest_even (num den : Z) : Z :=
let f := num / den in
match 2 * (num mod den) ?= den with
| Lt => f
| Gt => f + 1
| Eq => if Z.even f then f else f + 1
end.

(** The integer part of the binary logarithm of [a / b], for positive
[a] and [b]. *)
Definition ilog2 (a b : Z) : Z :=
let l := Z.log2 a - Z.log2 b in
if (if 0 <=? l then 2 ^ l * b <=? a else b <=? 2 ^ (- l) * a) then l else l - 1.

(** The rounding of the [float64] arithmetic (IEEE 754 binary64, to the
nearest value, ties to even): a significand of 53 bits, a last
place of [2^-1074] at least, and an overflow to the infinity of
the sign from [2^1024] on. *)
Definition round64 (q : Q) : float64 :=
let a := Z.abs (Qnum q) in
let b := Z.pos (Qden q) in
if a =? 0 then Finite 0
else
  let e := Z.max (ilog2 a b - 52) (-1074) in
  let m := if 0 <=? e then nearest_even a (b * 2 ^ e)
           else nearest_even (a * 2 ^ (- e)) b in
  if (0 <=? e) && (2 ^ 1024 <=? m * 2 ^ e) then
    if 0 <? Qnum q then PosInf else NegInf
  else Finite (inject_Z (Z.sgn (Qnum q) * m) * pow2 e).

(** The conversion [float64(x)] of an unsigned integer. *)
Definition float64_of_uint64 (x : Z) : float64 := round64 (inject_Z x).

(** [math.Pow(2, y)] at an integral, non-negative [y] (and at the
special values): exact up to [2^1023], [+Inf] above. *)
Definition math_Pow2 (y : float64) : float64 :=
match y with
| Finite q => if Qfloor q <=? 1023 then Finite (inject_Z (2 ^ Qfloor q)) else PosInf
| PosInf => PosInf
| NegInf => Finite 0
| NaN => NaN
end.

(** The product of two [float64] values: the exact product, rounded. *)
Definition fmul (a b : float64) : float64 :=
match a, b with
| NaN, _ | _, NaN => NaN
| Finite x, Finite y => round64 (x * y)
| Finite x, PosInf | PosInf, Finite x =>
    match Qnum x ?= 0 with Eq => NaN | Gt => PosInf | Lt => NegInf end
| Finite x, NegInf | NegInf, Finite x =>
    match Qnum x ?= 0 with Eq => NaN | Gt => NegInf | Lt => PosInf end
| PosInf, PosInf | NegInf, NegInf => PosInf
| PosInf, NegInf | NegInf, PosInf => NegInf
end.

(** Conversion of a [float64] to [int64]: truncation towards zero.
Go leaves the result implementation-dependent when the value does
not fit; the value given here is the one of amd64
([0x8000000000000000]). *)
Definition int64_of_float64 (f : float64) : Z :=
match f with
| Finite q =>
  let t := Z.quot (Qnum q) (Z.pos (Qden q)) in
  if (- 2 ^ 63 <=? t) && (t <? 2 ^ 63) then t else - 2 ^ 63
| PosInf | NegInf | NaN => - 2 ^ 63
end.

(** [time.Duration] is a count of nanoseconds. *)
Definition Duration := Z.
Definition Millisecond : Duration := 1000000.
Definition Second : Duration := 1000000000.

(** Arguments of a [fmt.Errorf] call, and errors.  An error is kept as
the call that built it: [errors.New], [fmt.Errorf] (the driver
never uses the wrapping verb), a value that implements the SDK's
[common.ServiceError], or any error with an [Unwrap] method around
another one. *)
Inductive error : Type :=
| errors_New (text : string)
| fmt_Errorf (format : string) (args : list fmt_arg)
| ServiceError (HTTPStatusCode : Z) (Code Message : string)
| Wrapping (text : string) (Unwrap : error)
with fmt_arg : Type :=
| AString (s : string)
| AStrings (l : list string)
| AInt (n : Z)
| AError (e : error).

(** [errors.As(err, &e)] for a target [e] of the interface type
[common.ServiceError]: the first error of the chain that
implements it, seen through its [GetHTTPStatusCode]. *)
Fixpoint errors_As_ServiceError (err : error) : option Z :=
match err with
| ServiceError code _ _ => Some code
| Wrapping _ inner => errors_As_ServiceError inner
| errors_New _ | fmt_Errorf _ _ => None
end.

(** [net/http] status codes. *)
Definition StatusTooManyRequests : Z := 429.
Definition StatusInternalServerError : Z := 500.
Definition StatusServiceUnavailable : Z := 503.

(** A [context.Context]: the two never-cancelled roots, or a context
of the caller, named, with the instant it is cancelled at (if
ever). *)
Inductive context : Type :=
| Background
| TODO
| Caller (name : string) (cancelledAt : option Z).

Definition context_done (ctx : context) (now : Z) : bool :=
match ctx with
| Caller _ (Some t) => t <=? now
| _ => false
end.

End Go.

Import Go.

(** ** The retry policy *)

(** [common.OCIOperationResponse], as far as the policy reads it. *)
Record common_OCIOperationResponse : Type := {
  Error : option error;
  AttemptNumber : Z
}.

(** [common.RetryPolicy].  [NextDuration] draws from [rand.Float64]:
    the draw, a [float64] value in [0, 1), is its second argument. *)
Record common_RetryPolicy : Type := {
  MaximumNumberAttempts : Z;
  ShouldRetryOperation : common_OCIOperationResponse -> bool;
  NextDuration : common_OCIOperationResponse -> Q -> Duration
}.

Definition retryPolicy_ShouldRetryOperation (res : common_OCIOperationResponse) : bool :=
  match Error res with
  | Some err =>
      match errors_As_ServiceError err with
      | Some code =>
          (code =? StatusTooManyRequests)
          || (code =? StatusInternalServerError)
          || (code =? StatusServiceUnavailable)
      | None => false
      end
  | None => false
  end.

Definition retryPolicy_NextDuration (res : common_OCIOperationResponse) (rand_Float64 : Q) : Duration :=
  let x := uint64 (AttemptNumber res) in
  let d := int64 (int64_of_float64 (math_Pow2 (float64_of_uint64 x)) * Second) in
  let j := int64 (int64_of_float64 (fmul (Finite rand_Float64) (Finite 2000)) * Millisecond) in
  let w := int64 (d + j) in
  w.

Definition retryPolicy : common_RetryPolicy := {|
  MaximumNumberAttempts := 10;
  ShouldRetryOperation := retryPolicy_ShouldRetryOperation;
  NextDuration := retryPolicy_NextDuration
|}.

(** [common.RequestMetadata]: a pointer to a retry policy, nil in the
    zero value. *)
Record common_RequestMetadata : Type := {
  RetryPolicy : option common_RetryPolicy
}.

Definition requestMetadata : common_RequestMetadata := {| RetryPolicy := Some retryPolicy |}.
(** The zero value, which a request literal that names no
    [RequestMetadata] carries. *)
Definition zero_RequestMetadata : common_RequestMetadata := {| RetryPolicy := None |}.

(** ** Slices and their backing arrays *)

(** A slice value is nil or a view of the first [len] cells of a backing
    array held in the heap (every slice of the driver comes from [make],
    from a composite literal or from the SDK's JSON decoder, so it
    starts at the first cell of its array).  Two slice values with the
    same array share their elements. *)
Module Mem.

Abbreviation loc := nat.

Inductive array : Type :=
| IntArray (cells : list Z)
| StringArray (cells : list string).

Abbreviation heap := (gmap loc array).

Inductive slice : Type :=
| nil_slice
| Slice (backing : loc) (len : nat).

Definition slice_len (s : slice) : nat :=
match s with
| nil_slice => 0%nat
| Slice _ n => n
end.

(** A fresh array holding [a]. *)
Definition alloc (h : heap) (a : array) : loc * heap :=
let l := fresh (dom h) in (l, <[l := a]> h).
#[global] Arguments alloc : simpl never.

(** [make([]int, n)] and [make([]string, n)]: zeroed arrays. *)
Definition make_ints (h : heap) (n : nat) : slice * heap :=
let '(l, h') := alloc h (IntArray (replicate n 0)) in (Slice l n, h').

Definition make_strings (h : heap) (n : nat) : slice * heap :=
let '(l, h') := alloc h (StringArray (replicate n "")) in (Slice l n, h').

(** The elements a slice shows. *)
Definition read_ints (h : heap) (s : slice) : list Z :=
match s with
| nil_slice => []
| Slice l n =>
  match h !! l with
  | Some (IntArray cells) => take n cells
  | _ => []
  end
end.

Definition read_strings (h : heap) (s : slice) : list string :=
match s with
| nil_slice => []
| Slice l n =>
  match h !! l with
  | Some (StringArray cells) => take n cells
  | _ => []
  end
end.

(** The builtin [copy(dst, src)]: the first [min(len(dst), len(src))]
elements of [src] overwrite those of [dst], in place. *)
Definition overwrite {A} (src dst : list A) (k : nat) : list A :=
take k src ++ drop k dst.

Definition copy_ints (h : heap) (dst src : slice) : heap :=
match dst with
| nil_slice => h
| Slice l n =>
  match h !! l with
  | Some (IntArray cells) =>
      <[l := IntArray (overwrite (read_ints h src) cells (n `min` slice_len src))]> h
  | _ => h
  end
end.

Definition copy_strings (h : heap) (dst src : slice) : heap :=
match dst with
| nil_slice => h
| Slice l n =>
  match h !! l with
  | Some (StringArray cells) =>
      <[l := StringArray (overwrite (read_strings h src) cells (n `min` slice_len src))]> h
  | _ => h
  end
end.

(** The composite literal [[]string{...}]. *)
Definition strings_literal (h : heap) (xs : list string) : slice * heap :=
let '(l, h') := alloc h (StringArray xs) in (Slice l (length xs), h').

Definition ints_literal (h : heap) (xs : list Z) : slice * heap :=
let '(l, h') := alloc h (IntArray xs) in (Slice l (length xs), h').

(** The assignment [s[i] = v]; [None] is the run-time panic of an
index out of range. *)
Definition store_int (h : heap) (s : slice) (i : nat) (v : Z) : option heap :=
match s with
| nil_slice => None
| Slice l n =>
  match h !! l with
  | Some (IntArray cells) =>
      if decide (i < n)%nat then Some (<[l := IntArray (<[i := v]> cells)]> h) else None
  | _ => None
  end
end.

Definition store_string (h : heap) (s : slice) (i : nat) (v : string) : option heap :=
match s with
| nil_slice => None
| Slice l n =>
  match h !! l with
  | Some (StringArray cells) =>
      if decide (i < n)%nat then Some (<[l := StringArray (<[i := v]> cells)]> h) else None
  | _ => None
  end
end.

(** A slice is live in a heap when its array is allocated there, with
elements of its type and at least [len] cells. *)
Definition live_ints (h : heap) (s : slice) : Prop :=
match s with
| nil_slice => True
| Slice l n => ∃ cells, h !! l = Some (IntArray cells) ∧ (n ≤ length cells)%nat
end.

Definition live_strings (h : heap) (s : slice) : Prop :=
match s with
| nil_slice => True
| Slice l n => ∃ cells, h !! l = Some (StringArray cells) ∧ (n ≤ length cells)%nat
end.

End Mem.

Import Mem.

(** ** Capability-schema descriptors *)

(** [core.ImageCapabilitySchemaDescriptor] is an interface; the SDK
    decodes the three descriptor types below and keeps any other one as
    a value of a type of its own.  The type is shared by the decoded
    form, whose allowed values are slices, and by the form on the wire,
    whose allowed values are sequences.  [DefaultValue] is a pointer,
    copied as such by the driver and never written through: it is kept
    as the optional value it points to. *)
Inductive ImageCapabilitySchemaDescriptor (Ints Strings : Type) : Type :=
| BooleanImageCapabilitySchemaDescriptor (Source : string) (DefaultValue : option bool)
| EnumIntegerImageCapabilityDescriptor (Source : string) (DefaultValue : option Z) (Values : Ints)
| EnumStringImageCapabilitySchemaDescriptor (Source : string) (DefaultValue : option string) (Values : Strings)
| UnknownImageCapabilitySchemaDescriptor (Source : string).

Arguments BooleanImageCapabilitySchemaDescriptor {Ints Strings} Source DefaultValue.
Arguments EnumIntegerImageCapabilityDescriptor {Ints Strings} Source DefaultValue Values.
Arguments EnumStringImageCapabilitySchemaDescriptor {Ints Strings} Source DefaultValue Values.
Arguments UnknownImageCapabilitySchemaDescriptor {Ints Strings} Source.

Abbreviation descriptor := (ImageCapabilitySchemaDescriptor slice slice).
Abbreviation wire_descriptor := (ImageCapabilitySchemaDescriptor (list Z) (list string)).

Definition descriptor_source {I S} (d : ImageCapabilitySchemaDescriptor I S) : string :=
  match d with
  | BooleanImageCapabilitySchemaDescriptor src _
  | EnumIntegerImageCapabilityDescriptor src _ _
  | EnumStringImageCapabilitySchemaDescriptor src _ _
  | UnknownImageCapabilitySchemaDescriptor src => src
  end.

(** The three type assertions of the copy loop. *)
Definition as_Boolean {I S} (val : ImageCapabilitySchemaDescriptor I S) : option (string * option bool) :=
  match val with
  | BooleanImageCapabilitySchemaDescriptor src dv => Some (src, dv)
  | _ => None
  end.

Definition as_EnumInteger {I S} (val : ImageCapabilitySchemaDescriptor I S) : option (string * option Z * I) :=
  match val with
  | EnumIntegerImageCapabilityDescriptor src dv vs => Some (src, dv, vs)
  | _ => None
  end.

Definition as_EnumString {I S} (val : ImageCapabilitySchemaDescriptor I S) : option (string * option string * S) :=
  match val with
  | EnumStringImageCapabilitySchemaDescriptor src dv vs => Some (src, dv, vs)
  | _ => None
  end.

(** What the JSON encoder sends for a descriptor, and what the decoder
    builds from one: every sequence of allowed values is decoded into an
    array of its own. *)
Definition marshal_descriptor (h : heap) (d : descriptor) : wire_descriptor :=
  match d with
  | BooleanImageCapabilitySchemaDescriptor src dv => BooleanImageCapabilitySchemaDescriptor src dv
  | EnumIntegerImageCapabilityDescriptor src dv vs =>
      EnumIntegerImageCapabilityDescriptor src dv (read_ints h vs)
  | EnumStringImageCapabilitySchemaDescriptor src dv vs =>
      EnumStringImageCapabilitySchemaDescriptor src dv (read_strings h vs)
  | UnknownImageCapabilitySchemaDescriptor src => UnknownImageCapabilitySchemaDescriptor src
  end.

Definition unmarshal_descriptor (h : heap) (d : wire_descriptor) : descriptor * heap :=
  match d with
  | BooleanImageCapabilitySchemaDescriptor src dv => (BooleanImageCapabilitySchemaDescriptor src dv, h)
  | EnumIntegerImageCapabilityDescriptor src dv vs =>
      let '(s, h') := ints_literal h vs in (EnumIntegerImageCapabilityDescriptor src dv s, h')
  | EnumStringImageCapabilitySchemaDescriptor src dv vs =>
      let '(s, h') := strings_literal h vs in (EnumStringImageCapabilitySchemaDescriptor src dv s, h')
  | UnknownImageCapabilitySchemaDescriptor src => (UnknownImageCapabilitySchemaDescriptor src, h)
  end.

Fixpoint unmarshal_entries (h : heap) (l : list (string * wire_descriptor))
  : list (string * descriptor) * heap :=
  match l with
  | [] => ([], h)
  | (k, d) :: rest =>
      let '(d', h1) := unmarshal_descriptor h d in
      let '(rest', h2) := unmarshal_entries h1 rest in
      ((k, d') :: rest', h2)
  end.

Definition marshal_schema (h : heap) (m : gmap string descriptor) : gmap string wire_descriptor :=
  marshal_descriptor h <$> m.

Definition unmarshal_schema (h : heap) (m : gmap string wire_descriptor)
  : gmap string descriptor * heap :=
  let '(l, h') := unmarshal_entries h (map_to_list m) in (list_to_map l, h').

Definition live_descriptor (h : heap) (d : descriptor) : Prop :=
  match d with
  | EnumIntegerImageCapabilityDescriptor _ _ vs => live_ints h vs
  | EnumStringImageCapabilitySchemaDescriptor _ _ vs => live_strings h vs
  | _ => True
  end.

(** ** Configuration and SDK data *)

(** [map[string]map[string]interface{}], with the values as text. *)
Abbreviation defined_tags := (gmap string (gmap string string)).

Record core_CreateVnicDetails : Type := {
  AssignPublicIp : option bool;
  Vnic_DisplayName : option string;
  HostnameLabel : option string;
  NsgIds : list string;
  Vnic_PrivateIp : option string;
  SkipSourceDestCheck : option bool;
  SubnetId : option string;
  Vnic_DefinedTags : defined_tags;
  Vnic_FreeformTags : gmap string string
}.

Record ListImagesRequestFilter : Type := {
  Filter_CompartmentId : option string;
  Filter_DisplayName : option string;
  DisplayNameSearch : option string;
  Filter_OperatingSystem : option string;
  Filter_OperatingSystemVersion : option string;
  Filter_Shape : option string
}.

Record FlexShapeConfig : Type := {
  Ocpus : option Q;
  MemoryInGBs : option Q;
  BaselineOcpuUtilization : option string
}.

(** The fields of [Config] the driver reads. *)
Record Config : Type := {
  Metadata : option (gmap string string);
  UserData : string;
  CreateVnicDetails : core_CreateVnicDetails;
  BaseImageID : string;
  BaseImageFilter : ListImagesRequestFilter;
  BootVolumeSizeInGBs : Z;
  AvailabilityDomain : string;
  CompartmentID : string;
  InstanceDefinedTags : defined_tags;
  InstanceName : option string;
  InstanceTags : gmap string string;
  Shape : string;
  AreLegacyImdsEndpointsDisabled : option bool;
  ShapeConfig : FlexShapeConfig;
  ImageCompartmentID : string;
  ImageName : string;
  Tags : gmap string string;
  DefinedTags : defined_tags;
  LaunchMode : string;
  NicAttachmentType : string;
  UsePrivateIP : bool
}.

Record core_InstanceSourceViaImageDetails : Type := {
  Source_ImageId : option string;
  Source_BootVolumeSizeInGBs : option Z
}.

Record core_LaunchInstanceShapeConfigDetails : Type := {
  Launch_Ocpus : option Q;
  Launch_MemoryInGBs : option Q;
  Launch_BaselineOcpuUtilization : string
}.

Record core_LaunchInstanceDetails : Type := {
  Launch_AvailabilityDomain : option string;
  Launch_CompartmentId : option string;
  Launch_CreateVnicDetails : option core_CreateVnicDetails;
  Launch_DefinedTags : defined_tags;
  Launch_DisplayName : option string;
  Launch_FreeformTags : gmap string string;
  Launch_Shape : option string;
  Launch_SourceDetails : core_InstanceSourceViaImageDetails;
  Launch_Metadata : gmap string string;
  Launch_InstanceOptions : option (option bool);
  Launch_ShapeConfig : option core_LaunchInstanceShapeConfigDetails
}.

Record core_CreateImageDetails : Type := {
  CreateImage_CompartmentId : option string;
  CreateImage_InstanceId : option string;
  CreateImage_DisplayName : option string;
  CreateImage_FreeformTags : gmap string string;
  CreateImage_DefinedTags : defined_tags;
  CreateImage_LaunchMode : string
}.

Record core_CreateComputeImageCapabilitySchemaDetails : Type := {
  CreateSchema_DisplayName : option string;
  CreateSchema_ImageId : option string;
  CreateSchema_SchemaData : gmap string wire_descriptor;
  CreateSchema_CompartmentId : option string;
  CreateSchema_ComputeGlobalImageCapabilitySchemaVersionName : option string
}.

(** A nil [SchemaData] map is [None]. *)
Record core_UpdateComputeImageCapabilitySchemaDetails : Type := {
  UpdateSchema_SchemaData : option (gmap string wire_descriptor);
  UpdateSchema_FreeformTags : gmap string string;
  UpdateSchema_DefinedTags : defined_tags
}.

(** The requests of the driver, one constructor for each request type,
    with the fields the driver sets. *)
Inductive Request : Type :=
| ListImagesRequest
    (CompartmentId DisplayName OperatingSystem OperatingSystemVersion Shape : option string)
    (LifecycleState SortBy SortOrder : string)
    (RequestMetadata : common_RequestMetadata) (Page : option string)
| LaunchInstanceRequest
    (LaunchInstanceDetails : core_LaunchInstanceDetails) (RequestMetadata : common_RequestMetadata)
| CreateImageRequest
    (CreateImageDetails : core_CreateImageDetails) (RequestMetadata : common_RequestMetadata)
| ListComputeImageCapabilitySchemasRequest
    (ImageId : option string) (RequestMetadata : common_RequestMetadata)
| ListComputeGlobalImageCapabilitySchemasRequest (RequestMetadata : common_RequestMetadata)
| GetComputeGlobalImageCapabilitySchemaVersionRequest
    (ComputeGlobalImageCapabilitySchemaId ComputeGlobalImageCapabilitySchemaVersionName : option string)
    (RequestMetadata : common_RequestMetadata)
| CreateComputeImageCapabilitySchemaRequest
    (CreateComputeImageCapabilitySchemaDetails : core_CreateComputeImageCapabilitySchemaDetails)
    (OpcRetryToken : option string) (RequestMetadata : common_RequestMetadata)
| UpdateComputeImageCapabilitySchemaRequest
    (ComputeImageCapabilitySchemaId : option string)
    (UpdateComputeImageCapabilitySchemaDetails : core_UpdateComputeImageCapabilitySchemaDetails)
    (RequestMetadata : common_RequestMetadata)
| DeleteImageRequest (ImageId : option string) (RequestMetadata : common_RequestMetadata)
| ListVnicAttachmentsRequest
    (InstanceId CompartmentId : option string) (RequestMetadata : common_RequestMetadata)
| GetVnicRequest (VnicId : option string) (RequestMetadata : common_RequestMetadata)
| GetWindowsInstanceInitialCredentialsRequest
    (InstanceId : option string) (RequestMetadata : common_RequestMetadata)
| TerminateInstanceRequest (InstanceId : option string) (RequestMetadata : common_RequestMetadata)
| GetImageRequest (ImageId : option string) (RequestMetadata : common_RequestMetadata)
| GetInstanceRequest (InstanceId : option string) (RequestMetadata : common_RequestMetadata).

Definition request_metadata (r : Request) : common_RequestMetadata :=
  match r with
  | ListImagesRequest _ _ _ _ _ _ _ _ md _
  | LaunchInstanceRequest _ md
  | CreateImageRequest _ md
  | ListComputeImageCapabilitySchemasRequest _ md
  | ListComputeGlobalImageCapabilitySchemasRequest md
  | GetComputeGlobalImageCapabilitySchemaVersionRequest _ _ md
  | CreateComputeImageCapabilitySchemaRequest _ _ md
  | UpdateComputeImageCapabilitySchemaRequest _ _ md
  | DeleteImageRequest _ md
  | ListVnicAttachmentsRequest _ _ md
  | GetVnicRequest _ md
  | GetWindowsInstanceInitialCredentialsRequest _ md
  | TerminateInstanceRequest _ md
  | GetImageRequest _ md
  | GetInstanceRequest _ md => md
  end.

(** Responses, with the fields the driver reads. *)
Record core_Image : Type := {
  Image_Id : option string;
  Image_DisplayName : option string;
  Image_LifecycleState : string
}.

Record core_ListImagesResponse : Type := {
  Items : list core_Image;
  OpcNextPage : option string
}.

Record core_Instance : Type := {
  Instance_Id : option string;
  Instance_LifecycleState : string
}.

Record core_ComputeImageCapabilitySchemaSummary (D : Type) : Type := {
  Schema_Id : option string;
  Schema_SchemaData : option (gmap string D)
}.
Arguments Schema_Id {D} _.
Arguments Schema_SchemaData {D} _.

Record core_ComputeGlobalImageCapabilitySchemaSummary : Type := {
  Global_Id : option string;
  CurrentVersionName : option string
}.

Record core_ComputeGlobalImageCapabilitySchemaVersion (D : Type) : Type := {
  Version_Name : option string;
  Version_SchemaData : option (gmap string D)
}.
Arguments Version_Name {D} _.
Arguments Version_SchemaData {D} _.

Record core_UpdateComputeImageCapabilitySchemaResponse : Type := {
  Updated_Id : option string;
  Updated_SchemaData : option (gmap string wire_descriptor)
}.

Record core_VnicAttachment : Type := {
  VnicId : option string
}.

Record core_Vnic : Type := {
  PrivateIp : option string;
  PublicIp : option string
}.

Record core_InstanceCredentials : Type := {
  Username : option string;
  Password : option string
}.

(** ** The clients, the world and the driver's computations *)

(** A client method: it is given the context and the request, sees the
    current instant and the state of everything outside the process,
    and yields a response or an error.  What the SDK and the service do
    with the request (retries included) is inside the handler. *)
Definition handler (St R : Type) : Type :=
  context -> Z -> Request -> St -> (R + error) * St.

Record core_ComputeClient (St : Type) : Type := {
  compute_ListImages : handler St core_ListImagesResponse;
  compute_LaunchInstance : handler St core_Instance;
  compute_CreateImage : handler St core_Image;
  compute_ListComputeImageCapabilitySchemas :
    handler St (list (core_ComputeImageCapabilitySchemaSummary wire_descriptor));
  compute_ListComputeGlobalImageCapabilitySchemas :
    handler St (list core_ComputeGlobalImageCapabilitySchemaSummary);
  compute_GetComputeGlobalImageCapabilitySchemaVersion :
    handler St (core_ComputeGlobalImageCapabilitySchemaVersion wire_descriptor);
  compute_CreateComputeImageCapabilitySchema : handler St unit;
  compute_UpdateComputeImageCapabilitySchema :
    handler St core_UpdateComputeImageCapabilitySchemaResponse;
  compute_DeleteImage : handler St unit;
  compute_ListVnicAttachments : handler St (list core_VnicAttachment);
  compute_GetWindowsInstanceInitialCredentials : handler St core_InstanceCredentials;
  compute_TerminateInstance : handler St unit;
  compute_GetImage : handler St core_Image;
  compute_GetInstance : handler St core_Instance
}.

Record core_VirtualNetworkClient (St : Type) : Type := {
  vcn_GetVnic : handler St core_Vnic
}.

(** The library functions the driver calls besides the clients:
    [regexp.Compile], the [MatchString] method of its result and the SDK's
    [uuid.TimeOrderedUUID], which reads the outside world. *)
Record Runtime (St : Type) : Type := {
  Regexp : Type;
  regexp_Compile : string -> Regexp + error;
  MatchString : Regexp -> string -> bool;
  uuid_TimeOrderedUUID : St -> string * St
}.

Record driverOCI (St : Type) : Type := {
  computeClient : core_ComputeClient St;
  vcnClient : core_VirtualNetworkClient St;
  cfg : Config
}.

Arguments compute_ListImages {St} _.
Arguments compute_LaunchInstance {St} _.
Arguments compute_CreateImage {St} _.
Arguments compute_ListComputeImageCapabilitySchemas {St} _.
Arguments compute_ListComputeGlobalImageCapabilitySchemas {St} _.
Arguments compute_GetComputeGlobalImageCapabilitySchemaVersion {St} _.
Arguments compute_CreateComputeImageCapabilitySchema {St} _.
Arguments compute_UpdateComputeImageCapabilitySchema {St} _.
Arguments compute_DeleteImage {St} _.
Arguments compute_ListVnicAttachments {St} _.
Arguments compute_GetWindowsInstanceInitialCredentials {St} _.
Arguments compute_TerminateInstance {St} _.
Arguments compute_GetImage {St} _.
Arguments compute_GetInstance {St} _.
Arguments vcn_GetVnic {St} _.
Arguments Regexp {St} _.
Arguments regexp_Compile {St} _.
Arguments MatchString {St} _.
Arguments uuid_TimeOrderedUUID {St} _.
Arguments computeClient {St} _.
Arguments vcnClient {St} _.
Arguments cfg {St} _.

(** What the process does that can be seen from outside, in order. *)
Inductive Event : Type :=
| Called (ctx : context) (req : Request)
| Slept (d : Duration).

Record World (St : Type) : Type := {
  service : St;
  clock : Z;
  memory : heap;
  log : list Event
}.
Arguments service {St} _.
Arguments clock {St} _.
Arguments memory {St} _.
Arguments log {St} _.
Arguments Build_World {St} _ _ _ _.

(** How a Go call ends: with a value and a nil error, with an error,
    or in a run-time panic; [OutOfFuel] is the bound of the model on
    the unbounded loops, not a behaviour of the program. *)
Inductive Outcome (A : Type) : Type :=
| Returned (a : A)
| Failed (e : error)
| Panicked (msg : string)
| OutOfFuel.
Arguments Returned {A} a.
Arguments Failed {A} e.
Arguments Panicked {A} msg.
Arguments OutOfFuel {A}.

Definition M (St A : Type) : Type := World St -> Outcome A * World St.

Definition ret {St A} (a : A) : M St A := fun w => (Returned a, w).

Definition bind {St A B} (m : M St A) (k : A -> M St B) : M St B :=
  fun w =>
    match m w with
    | (Returned a, w') => k a w'
    | (Failed e, w') => (Failed e, w')
    | (Panicked msg, w') => (Panicked msg, w')
    | (OutOfFuel, w') => (OutOfFuel, w')
    end.

Definition fail {St A} (e : error) : M St A := fun w => (Failed e, w).
Definition panic {St A} (msg : string) : M St A := fun w => (Panicked msg, w).
Definition out_of_fuel {St A} : M St A := fun w => (OutOfFuel, w).

Notation "'do' x <- m ; k" := (bind m (fun x => k))
  (at level 10, x pattern, m at level 100, k at level 200,
   format "'[v' 'do'  x  <-  m ; '/' k ']'").

(** A call of a client method: the request is handed over, and the
    log keeps it with its context. *)
Definition invoke {St R} (h : handler St R) (ctx : context) (req : Request) : M St R :=
  fun w =>
    let '(r, s') := h ctx (clock w) req (service w) in
    let w' := Build_World s' (clock w) (memory w) (log w ++ [Called ctx req]) in
    match r with
    | inl a => (Returned a, w')
    | inr e => (Failed e, w')
    end.

(** [time.Sleep(d)]: the goroutine is paused for the whole of [d]
    (not at all when [d] is not positive). *)
Definition time_Sleep {St} (d : Duration) : M St unit :=
  fun w => (Returned tt, Build_World (service w) (clock w + Z.max 0 d) (memory w) (log w ++ [Slept d])).

(** [*p] and [s[0]]. *)
Definition deref {St A} (p : option A) : M St A :=
  match p with
  | Some a => ret a
  | None => panic "invalid memory address or nil pointer dereference"
  end.

Definition index0 {St A} (s : list A) : M St A :=
  match s with
  | a :: _ => ret a
  | [] => panic "index out of range [0] with length 0"
  end.

(** Allocation and decoding inside a computation. *)
Definition with_memory {St A} (f : heap -> A * heap) : M St A :=
  fun w =>
    let '(a, h') := f (memory w) in
    (Returned a, Build_World (service w) (clock w) h' (log w)).

Definition read_memory {St A} (f : heap -> A) : M St A :=
  fun w => (Returned (f (memory w)), w).

Definition unmarshal_schema_opt (h : heap) (m : option (gmap string wire_descriptor))
  : option (gmap string descriptor) * heap :=
  match m with
  | Some m => let '(m', h') := unmarshal_schema h m in (Some m', h')
  | None => (None, h)
  end.

Fixpoint unmarshal_summaries (h : heap)
    (l : list (core_ComputeImageCapabilitySchemaSummary wire_descriptor))
  : list (core_ComputeImageCapabilitySchemaSummary descriptor) * heap :=
  match l with
  | [] => ([], h)
  | item :: rest =>
      let '(m, h1) := unmarshal_schema_opt h (Schema_SchemaData item) in
      let '(rest', h2) := unmarshal_summaries h1 rest in
      ({| Schema_Id := Schema_Id item; Schema_SchemaData := m |} :: rest', h2)
  end.

Definition unmarshal_version (h : heap)
    (v : core_ComputeGlobalImageCapabilitySchemaVersion wire_descriptor)
  : core_ComputeGlobalImageCapabilitySchemaVersion descriptor * heap :=
  let '(m, h') := unmarshal_schema_opt h (Version_SchemaData v) in
  ({| Version_Name := Version_Name v; Version_SchemaData := m |}, h').

(** ** The driver *)

(** [stringSliceContains] *)
Fixpoint stringSliceContains (slice : list string) (value : string) : bool :=
  match slice with
  | [] => false
  | elem :: rest => if String.eqb elem value then true else stringSliceContains rest value
  end.

Section Poll.

Context {St : Type}.

(** [waitForResourceToReachState], from the iteration that starts with
the counter at [i].  The Go loop has no bound when [maxRetries] is
zero: the model stops with [OutOfFuel] after [fuel] iterations. *)
Fixpoint waitForResourceToReachState_from (fuel : nat) (i : Z)
(getResourceState : string -> M St string) (id : string)
(waitStates : list string) (terminalState : string)
(maxRetries : Z) (waitDuration : Duration) : M St unit :=
if (maxRetries =? 0) || (i <? maxRetries) then
match fuel with
| O => out_of_fuel
| S fuel' =>
    do state <- getResourceState id;
    if stringSliceContains waitStates state then
      do _ <- time_Sleep waitDuration;
      waitForResourceToReachState_from fuel' (int64 (i + 1))
        getResourceState id waitStates terminalState maxRetries waitDuration
    else if String.eqb state terminalState then
      ret tt
    else
      fail (fmt_Errorf
              "unexpected resource state %q, expecting a waiting state %s or terminal state  %q "
              [AString state; AStrings waitStates; AString terminalState])
end
else
fail (fmt_Errorf
        "maximum number of retries (%d) exceeded; resource did not reach state %q"
        [AInt maxRetries; AString terminalState]).

Definition waitForResourceToReachState (fuel : nat) :=
waitForResourceToReachState_from fuel 0.

End Poll.

Section Driver.

Context {St : Type}.
Variable rt : Runtime St.
Variable d : driverOCI St.

(** The metadata of the instance to launch. *)
Definition instanceMetadata (publicKey : string) : gmap string string :=
let metadata : gmap string string := {[ "ssh_authorized_keys" := publicKey ]} in
let metadata :=
match Metadata (cfg d) with
| Some m => map_fold (fun key value acc => <[key := value]> acc) metadata m
| None => metadata
end in
if decide (UserData (cfg d) ≠ "") then <["user_data" := UserData (cfg d)]> metadata
else metadata.

(** The scan of one page for the first image whose display name
matches. *)
Fixpoint firstMatching (imageNameRegex : Regexp rt) (items : list core_Image)
(imageId : option string) : M St (option string) :=
match items with
| [] => ret imageId
| image :: rest =>
  do name <- deref (Image_DisplayName image);
  if MatchString rt imageNameRegex name then ret (Image_Id image)
  else firstMatching imageNameRegex rest imageId
end.

Definition listImagesRequest (Page : option string) : Request :=
ListImagesRequest
(Filter_CompartmentId (BaseImageFilter (cfg d)))
(Filter_DisplayName (BaseImageFilter (cfg d)))
(Filter_OperatingSystem (BaseImageFilter (cfg d)))
(Filter_OperatingSystemVersion (BaseImageFilter (cfg d)))
(Filter_Shape (BaseImageFilter (cfg d)))
"AVAILABLE" "TIMECREATED" "DESC"
requestMetadata
Page.

(** The loop over the pages of the image listing; [Page] is
[request.Page]. *)
Fixpoint findBaseImage (fuel : nat) (ctx : context) (Page imageId : option string)
: M St (option string) :=
if bool_decide (Page ≠ None) && bool_decide (imageId = None) then
match fuel with
| O => out_of_fuel
| S fuel' =>
    do response <- invoke (compute_ListImages (computeClient d)) ctx (listImagesRequest Page);
    if (length (Items response) =? 0)%nat && bool_decide (OpcNextPage response = None) then
      fail (errors_New "base_image_filter returned no images")
    else
      do imageId <-
        match DisplayNameSearch (BaseImageFilter (cfg d)) with
        | Some pattern =>
            match regexp_Compile rt pattern with
            | inr err => fail err
            | inl imageNameRegex =>
                do imageId <- firstMatching imageNameRegex (Items response) imageId;
                if bool_decide (imageId = None) && bool_decide (OpcNextPage response = None) then
                  fail (errors_New "no image matched display_name_search criteria")
                else ret imageId
            end
        | None =>
            match Items response with
            | first :: _ => ret (Image_Id first)
            | [] => ret imageId
            end
        end;
      findBaseImage fuel' ctx (OpcNextPage response) imageId
end
else ret imageId.

(** The base image of [CreateInstance]. *)
Definition baseImageId (fuel : nat) (ctx : context) : M St (option string) :=
if decide (BaseImageID (cfg d) ≠ "") then ret (Some (BaseImageID (cfg d)))
else findBaseImage fuel ctx (Some "") None.

Definition launchInstanceDetails (publicKey : string) (imageId : option string)
: core_LaunchInstanceDetails :=
let metadata := instanceMetadata publicKey in
let CreateVnicDetails' := {|
AssignPublicIp := AssignPublicIp (CreateVnicDetails (cfg d));
Vnic_DisplayName := Vnic_DisplayName (CreateVnicDetails (cfg d));
HostnameLabel := HostnameLabel (CreateVnicDetails (cfg d));
NsgIds := NsgIds (CreateVnicDetails (cfg d));
Vnic_PrivateIp := Vnic_PrivateIp (CreateVnicDetails (cfg d));
SkipSourceDestCheck := SkipSourceDestCheck (CreateVnicDetails (cfg d));
SubnetId := SubnetId (CreateVnicDetails (cfg d));
Vnic_DefinedTags := Vnic_DefinedTags (CreateVnicDetails (cfg d));
Vnic_FreeformTags := Vnic_FreeformTags (CreateVnicDetails (cfg d))
|} in
let InstanceSourceDetails := {|
Source_ImageId := imageId;
Source_BootVolumeSizeInGBs :=
  if BootVolumeSizeInGBs (cfg d) =? 0 then None else Some (BootVolumeSizeInGBs (cfg d))
|} in
{| Launch_AvailabilityDomain := Some (AvailabilityDomain (cfg d));
 Launch_CompartmentId := Some (CompartmentID (cfg d));
 Launch_CreateVnicDetails := Some CreateVnicDetails';
 Launch_DefinedTags := InstanceDefinedTags (cfg d);
 Launch_DisplayName := InstanceName (cfg d);
 Launch_FreeformTags := InstanceTags (cfg d);
 Launch_Shape := Some (Shape (cfg d));
 Launch_SourceDetails := InstanceSourceDetails;
 Launch_Metadata := metadata;
 Launch_InstanceOptions :=
   match AreLegacyImdsEndpointsDisabled (cfg d) with
   | Some b => Some (Some b)
   | None => None
   end;
 Launch_ShapeConfig :=
   match Ocpus (ShapeConfig (cfg d)) with
   | Some _ =>
       Some {| Launch_Ocpus := Ocpus (ShapeConfig (cfg d));
               Launch_MemoryInGBs := MemoryInGBs (ShapeConfig (cfg d));
               Launch_BaselineOcpuUtilization :=
                 match BaselineOcpuUtilization (ShapeConfig (cfg d)) with
                 | Some u => u
                 | None => ""
                 end |}
   | None => None
   end |}.

(** [CreateInstance] *)
Definition CreateInstance (fuel : nat) (ctx : context) (publicKey : string) : M St string :=
do imageId <- baseImageId fuel ctx;
do instance <- invoke (compute_LaunchInstance (computeClient d)) TODO
               (LaunchInstanceRequest (launchInstanceDetails publicKey imageId) requestMetadata);
deref (Instance_Id instance).

(** [CreateImage] *)
Definition CreateImage (ctx : context) (id : string) : M St core_Image :=
invoke (compute_CreateImage (computeClient d)) ctx
(CreateImageRequest
   {| CreateImage_CompartmentId := Some (ImageCompartmentID (cfg d));
      CreateImage_InstanceId := Some id;
      CreateImage_DisplayName := Some (ImageName (cfg d));
      CreateImage_FreeformTags := Tags (cfg d);
      CreateImage_DefinedTags := DefinedTags (cfg d);
      CreateImage_LaunchMode := LaunchMode (cfg d) |}
   requestMetadata).

(** [DeleteImage] *)
Definition DeleteImage (ctx : context) (id : string) : M St unit :=
invoke (compute_DeleteImage (computeClient d)) ctx (DeleteImageRequest (Some id) requestMetadata).

(** [GetInstanceIP] *)
Definition GetInstanceIP (ctx : context) (id : string) : M St string :=
do vnics <- invoke (compute_ListVnicAttachments (computeClient d)) ctx
            (ListVnicAttachmentsRequest (Some id) (Some (CompartmentID (cfg d))) requestMetadata);
match vnics with
| [] => fail (errors_New "instance has zero VNICs")
| first :: _ =>
  fun w =>
    match invoke (vcn_GetVnic (vcnClient d)) ctx (GetVnicRequest (VnicId first) requestMetadata) w with
    | (Failed err, w') => (Failed (fmt_Errorf "error getting VNIC details: %s" [AError err]), w')
    | (Returned vnic, w') =>
        if UsePrivateIP (cfg d) then deref (PrivateIp vnic) w'
        else
          match PublicIp vnic with
          | None => (Failed (fmt_Errorf "error getting VNIC Public Ip for: %s" [AString id]), w')
          | Some ip => (Returned ip, w')
          end
    | (Panicked msg, w') => (Panicked msg, w')
    | (OutOfFuel, w') => (OutOfFuel, w')
    end
end.

(** [GetInstanceInitialCredentials] *)
Definition GetInstanceInitialCredentials (ctx : context) (id : string) : M St (string * string) :=
do credentials <- invoke (compute_GetWindowsInstanceInitialCredentials (computeClient d)) ctx
                  (GetWindowsInstanceInitialCredentialsRequest (Some id) requestMetadata);
do username <- deref (Username credentials);
do password <- deref (Password credentials);
ret (username, password).

(** [TerminateInstance] *)
Definition TerminateInstance (ctx : context) (id : string) : M St unit :=
invoke (compute_TerminateInstance (computeClient d)) ctx
(TerminateInstanceRequest (Some id) requestMetadata).

(** [WaitForImageCreation] *)
Definition WaitForImageCreation (fuel : nat) (ctx : context) (id : string) : M St unit :=
waitForResourceToReachState fuel
(fun _ =>
   do image <- invoke (compute_GetImage (computeClient d)) ctx
                 (GetImageRequest (Some id) requestMetadata);
   ret (Image_LifecycleState image))
id
["PROVISIONING"]
"AVAILABLE"
0
(5 * Second).

(** [WaitForInstanceState] *)
Definition WaitForInstanceState (fuel : nat) (ctx : context) (id : string)
(waitStates : list string) (terminalState : string) : M St unit :=
waitForResourceToReachState fuel
(fun _ =>
   do instance <- invoke (compute_GetInstance (computeClient d)) ctx
                    (GetInstanceRequest (Some id) requestMetadata);
   ret (Instance_LifecycleState instance))
id
waitStates
terminalState
0
(5 * Second).

End Driver.

(** ** Capability-schema reconciliation *)

(** One iteration of the copy loop of [UpdateImageCapabilitySchema]:
    the three type assertions on [val], in the order of the source.
    The state is [newSchemaData] and the heap. *)
Definition copyDescriptor (key : string) (val : descriptor)
    (st : gmap string descriptor * heap) : gmap string descriptor * heap :=
  let '(newSchemaData, h) := st in
  let '(newSchemaData, h) :=
    match as_Boolean val with
    | Some (_, DefaultValue) =>
        (<[key := BooleanImageCapabilitySchemaDescriptor "IMAGE" DefaultValue]> newSchemaData, h)
    | None => (newSchemaData, h)
    end in
  let '(newSchemaData, h) :=
    match as_EnumInteger val with
    | Some (_, DefaultValue, Values) =>
        let '(destArr, h) := make_ints h (slice_len Values) in
        let h := copy_ints h destArr Values in
        let newVal := EnumIntegerImageCapabilityDescriptor "IMAGE" DefaultValue destArr in
        (<[key := newVal]> newSchemaData, h)
    | None => (newSchemaData, h)
    end in
  let '(newSchemaData, h) :=
    match as_EnumString val with
    | Some (_, DefaultValue, Values) =>
        let '(destArr, h) := make_strings h (slice_len Values) in
        let h := copy_strings h destArr Values in
        let newVal := EnumStringImageCapabilitySchemaDescriptor "IMAGE" DefaultValue destArr in
        (<[key := newVal]> newSchemaData, h)
    | None => (newSchemaData, h)
    end in
  (newSchemaData, h).

(** The loop, over the keys of the global schema in the order [order]
    (Go leaves the order of a [range] over a map unspecified). *)
Definition copySchemaData_in (order : list (string * descriptor)) (h : heap)
  : gmap string descriptor * heap :=
  foldl (fun st '(key, val) => copyDescriptor key val st) (∅, h) order.

Definition copySchemaData (SchemaData : option (gmap string descriptor)) (h : heap)
  : gmap string descriptor * heap :=
  copySchemaData_in (map_to_list (default ∅ SchemaData)) h.

Definition marshal_schema_opt (h : heap) (m : option (gmap string descriptor))
  : option (gmap string wire_descriptor) :=
  marshal_schema h <$> m.

(** The request for the schemas of an image: it names the image and
    nothing else. *)
Definition listSchemasRequest (imageId : string) : Request :=
  ListComputeImageCapabilitySchemasRequest (Some imageId) zero_RequestMetadata.

Section Reconciler.

Context {St : Type}.
Variable rt : Runtime St.
Variable d : driverOCI St.

Definition listSchemas (ctx : context) (imageId : string)
: M St (list (core_ComputeImageCapabilitySchemaSummary descriptor)) :=
do items <- invoke (compute_ListComputeImageCapabilitySchemas (computeClient d)) ctx
            (listSchemasRequest imageId);
with_memory (fun h => unmarshal_summaries h items).

Definition TimeOrderedUUID : M St string :=
fun w =>
let '(token, s') := uuid_TimeOrderedUUID rt (service w) in
(Returned token, Build_World s' (clock w) (memory w) (log w)).

(** The assignment [schema.Items[0].SchemaData[key] = val]. *)
Definition assignItem0 (Items : list (core_ComputeImageCapabilitySchemaSummary descriptor))
(key : string) (val : descriptor)
: M St (list (core_ComputeImageCapabilitySchemaSummary descriptor)) :=
do first <- index0 Items;
match Schema_SchemaData first with
| None => panic "assignment to entry in nil map"
| Some SchemaData =>
  ret ({| Schema_Id := Schema_Id first;
          Schema_SchemaData := Some (<[key := val]> SchemaData) |} :: tail Items)
end.

(** The request that creates the schema of the image. *)
Definition createRequest (imageId : string) (SchemaData : gmap string wire_descriptor)
(versionName : option string) (token : string) : Request :=
CreateComputeImageCapabilitySchemaRequest
{| CreateSchema_DisplayName :=
     Some ("Default Image Capability Schema for " +:+ ImageName (cfg d));
   CreateSchema_ImageId := Some imageId;
   CreateSchema_SchemaData := SchemaData;
   CreateSchema_CompartmentId := Some (ImageCompartmentID (cfg d));
   CreateSchema_ComputeGlobalImageCapabilitySchemaVersionName := versionName |}
(Some token)
zero_RequestMetadata.

(** The branch taken when the image has no schema: a schema is
created from the current version of the first global schema, and
the schemas of the image are listed again. *)
Definition createFromGlobalSchema (imageId : string)
: M St (list (core_ComputeImageCapabilitySchemaSummary descriptor)) :=
do globalSchemaList <-
invoke (compute_ListComputeGlobalImageCapabilitySchemas (computeClient d)) Background
  (ListComputeGlobalImageCapabilitySchemasRequest zero_RequestMetadata);
if (length globalSchemaList <? 1)%nat then
fail (errors_New "unable to find any global schemas")
else
  do first <- index0 globalSchemaList;
  let globalSchemaId := Global_Id first in
  let globalSchemaCurrentVersion := CurrentVersionName first in
  do version <-
    invoke (compute_GetComputeGlobalImageCapabilitySchemaVersion (computeClient d)) Background
      (GetComputeGlobalImageCapabilitySchemaVersionRequest
         globalSchemaId globalSchemaCurrentVersion zero_RequestMetadata);
  do globalSchema <- with_memory (fun h => unmarshal_version h version);
  do newSchemaData <- with_memory (copySchemaData (Version_SchemaData globalSchema));
  do token <- TimeOrderedUUID;
  do SchemaData <- read_memory (fun h => marshal_schema h newSchemaData);
  let req := createRequest imageId SchemaData (Version_Name globalSchema) token in
  do _ <- invoke (compute_CreateComputeImageCapabilitySchema (computeClient d)) Background req;
  listSchemas Background imageId.

(** The custom fields of the configuration, written into the first
schema of the list. *)
Definition addCustomFields (Items : list (core_ComputeImageCapabilitySchemaSummary descriptor))
: M St (list (core_ComputeImageCapabilitySchemaSummary descriptor)) :=
do Items <-
(if decide (LaunchMode (cfg d) ≠ "") then
   do Values <- with_memory (fun h =>
                  strings_literal h ["NATIVE"; "EMULATED"; "PARAVIRTUALIZED"; "CUSTOM"]);
   assignItem0 Items "Compute.LaunchMode"
     (EnumStringImageCapabilitySchemaDescriptor "IMAGE" (Some (LaunchMode (cfg d))) Values)
 else ret Items);
if decide (NicAttachmentType (cfg d) ≠ "") then
do Values <- with_memory (fun h =>
               strings_literal h ["E1000"; "VFIO"; "PARAVIRTUALIZED"]);
assignItem0 Items "Network.AttachmentType"
  (EnumStringImageCapabilitySchemaDescriptor "IMAGE" (Some (NicAttachmentType (cfg d))) Values)
else ret Items.

(** The update of the first schema of the list with the data it now
holds. *)
Definition updateRequest (id : option string) (data : option (gmap string wire_descriptor))
: Request :=
UpdateComputeImageCapabilitySchemaRequest id
{| UpdateSchema_SchemaData := data;
   UpdateSchema_FreeformTags := Tags (cfg d);
   UpdateSchema_DefinedTags := DefinedTags (cfg d) |}
zero_RequestMetadata.

Definition updateFirstSchema (ctx : context)
(Items : list (core_ComputeImageCapabilitySchemaSummary descriptor))
: M St core_UpdateComputeImageCapabilitySchemaResponse :=
do first <- index0 Items;
do SchemaData <- read_memory (fun h => marshal_schema_opt h (Schema_SchemaData first));
invoke (compute_UpdateComputeImageCapabilitySchema (computeClient d)) ctx
(updateRequest (Schema_Id first) SchemaData).

(** [UpdateImageCapabilitySchema] *)
Definition UpdateImageCapabilitySchema (ctx : context) (imageId : string)
: M St core_UpdateComputeImageCapabilitySchemaResponse :=
do Items <- listSchemas Background imageId;
do Items <-
(if (length Items <? 1)%nat then createFromGlobalSchema imageId else ret Items);
do Items <- addCustomFields Items;
updateFirstSchema ctx Items.

End Reconciler.

(** ** A control plane to run the driver against *)

(** A small in-memory control plane: it serves a fixed paginated image
    listing, keeps the capability schemas of one image, reports a
    scripted sequence of lifecycle states, and fails every call whose
    context is already cancelled, as the SDK's transport does.  It is
    used to run the driver on concrete inputs. *)
Module Fake.

Record cloud : Type := {
image_pages : list (string * core_ListImagesResponse);
image_schemas : list (core_ComputeImageCapabilitySchemaSummary wire_descriptor);
(** whether a schema just created is listed at once *)
publishes_at_once : bool;
global_schemas : list core_ComputeGlobalImageCapabilitySchemaSummary;
global_version : core_ComputeGlobalImageCapabilitySchemaVersion wire_descriptor;
(** the lifecycle states the next polls report *)
lifecycle : list string
}.

Definition canceled : error := errors_New "context canceled".
Definition not_found : error := ServiceError 404 "NotAuthorizedOrNotFound" "resource not found".

Definition guarded {R} (h : Request -> cloud -> (R + error) * cloud) : handler cloud R :=
fun ctx now req s => if context_done ctx now then (inr canceled, s) else h req s.

Fixpoint page_of (token : string) (pages : list (string * core_ListImagesResponse))
: option core_ListImagesResponse :=
match pages with
| [] => None
| (t, p) :: rest => if String.eqb t token then Some p else page_of token rest
end.

Definition ListImages : handler cloud core_ListImagesResponse :=
guarded (fun req s =>
match req with
| ListImagesRequest _ _ _ _ _ _ _ _ _ (Some token) =>
    match page_of token (image_pages s) with
    | Some p => (inl p, s)
    | None => (inr not_found, s)
    end
| _ => (inr not_found, s)
end).

Definition answer {R} (r : R) : handler cloud R := guarded (fun _ s => (inl r, s)).

Definition ListSchemas
: handler cloud (list (core_ComputeImageCapabilitySchemaSummary wire_descriptor)) :=
guarded (fun _ s => (inl (image_schemas s), s)).

Definition ListGlobalSchemas : handler cloud (list core_ComputeGlobalImageCapabilitySchemaSummary) :=
guarded (fun _ s => (inl (global_schemas s), s)).

Definition GetGlobalSchemaVersion
: handler cloud (core_ComputeGlobalImageCapabilitySchemaVersion wire_descriptor) :=
guarded (fun _ s => (inl (global_version s), s)).

Definition with_schemas (s : cloud)
(l : list (core_ComputeImageCapabilitySchemaSummary wire_descriptor)) : cloud :=
{| image_pages := image_pages s;
 image_schemas := l;
 publishes_at_once := publishes_at_once s;
 global_schemas := global_schemas s;
 global_version := global_version s;
 lifecycle := lifecycle s |}.

Definition CreateSchema : handler cloud unit :=
guarded (fun req s =>
match req with
| CreateComputeImageCapabilitySchemaRequest details _ _ =>
    if publishes_at_once s then
      (inl tt,
       with_schemas s
         (image_schemas s
          ++ [{| Schema_Id := Some "ocid1.computeimgcapschema.oc1..created";
                 Schema_SchemaData := Some (CreateSchema_SchemaData details) |}]))
    else (inl tt, s)
| _ => (inr not_found, s)
end).

Definition UpdateSchema : handler cloud core_UpdateComputeImageCapabilitySchemaResponse :=
guarded (fun req s =>
match req with
| UpdateComputeImageCapabilitySchemaRequest id details _ =>
    (inl {| Updated_Id := id; Updated_SchemaData := UpdateSchema_SchemaData details |},
     with_schemas s
       (map (fun item =>
               if bool_decide (Schema_Id item = id)
               then {| Schema_Id := id; Schema_SchemaData := UpdateSchema_SchemaData details |}
               else item)
            (image_schemas s)))
| _ => (inr not_found, s)
end).

Definition next_state (s : cloud) : cloud :=
{| image_pages := image_pages s;
 image_schemas := image_schemas s;
 publishes_at_once := publishes_at_once s;
 global_schemas := global_schemas s;
 global_version := global_version s;
 lifecycle := tail (lifecycle s) |}.

Definition GetImage : handler cloud core_Image :=
guarded (fun _ s =>
match lifecycle s with
| state :: _ =>
    (inl {| Image_Id := Some "ocid1.image.oc1..built";
            Image_DisplayName := Some "built";
            Image_LifecycleState := state |}, next_state s)
| [] => (inr not_found, s)
end).

Definition GetInstance : handler cloud core_Instance :=
guarded (fun _ s =>
match lifecycle s with
| state :: _ =>
    (inl {| Instance_Id := Some "ocid1.instance.oc1..launched";
            Instance_LifecycleState := state |}, next_state s)
| [] => (inr not_found, s)
end).

Definition compute : core_ComputeClient cloud := {|
compute_ListImages := ListImages;
compute_LaunchInstance :=
answer {| Instance_Id := Some "ocid1.instance.oc1..launched";
          Instance_LifecycleState := "PROVISIONING" |};
compute_CreateImage :=
answer {| Image_Id := Some "ocid1.image.oc1..built";
          Image_DisplayName := Some "built";
          Image_LifecycleState := "PROVISIONING" |};
compute_ListComputeImageCapabilitySchemas := ListSchemas;
compute_ListComputeGlobalImageCapabilitySchemas := ListGlobalSchemas;
compute_GetComputeGlobalImageCapabilitySchemaVersion := GetGlobalSchemaVersion;
compute_CreateComputeImageCapabilitySchema := CreateSchema;
compute_UpdateComputeImageCapabilitySchema := UpdateSchema;
compute_DeleteImage := answer tt;
compute_ListVnicAttachments := answer [{| VnicId := Some "ocid1.vnic.oc1..first" |}];
compute_GetWindowsInstanceInitialCredentials :=
answer {| Username := Some "opc"; Password := Some "secret" |};
compute_TerminateInstance := answer tt;
compute_GetImage := GetImage;
compute_GetInstance := GetInstance
|}.

Definition vcn : core_VirtualNetworkClient cloud := {|
vcn_GetVnic := answer {| PrivateIp := Some "10.0.0.2"; PublicIp := Some "192.0.2.10" |}
|}.

(** A stand-in for the regular expressions: a pattern is a literal
anchored at the start of the name, and every pattern compiles. *)
Definition runtime : Runtime cloud := {|
Regexp := string;
regexp_Compile := fun pattern => inl pattern;
MatchString := fun re name => String.prefix re name;
uuid_TimeOrderedUUID := fun s => ("5f3c1e0a-0000-0000-0000-000000000001", s)
|}.

Definition no_vnic_details : core_CreateVnicDetails := {|
AssignPublicIp := None; Vnic_DisplayName := None; HostnameLabel := None;
NsgIds := []; Vnic_PrivateIp := None; SkipSourceDestCheck := None;
SubnetId := Some "ocid1.subnet.oc1..build";
Vnic_DefinedTags := ∅; Vnic_FreeformTags := ∅
|}.

(** A configuration that selects the base image by a display-name
pattern and sets both custom capability fields. *)
Definition config : Config := {|
Metadata := None;
UserData := "";
CreateVnicDetails := no_vnic_details;
BaseImageID := "";
BaseImageFilter := {|
Filter_CompartmentId := Some "ocid1.compartment.oc1..images";
Filter_DisplayName := None;
DisplayNameSearch := Some "Oracle-Linux-7.8";
Filter_OperatingSystem := Some "Oracle Linux";
Filter_OperatingSystemVersion := None;
Filter_Shape := None |};
BootVolumeSizeInGBs := 0;
AvailabilityDomain := "aaaa:PHX-AD-1";
CompartmentID := "ocid1.compartment.oc1..build";
InstanceDefinedTags := ∅;
InstanceName := None;
InstanceTags := ∅;
Shape := "VM.Standard2.1";
AreLegacyImdsEndpointsDisabled := None;
ShapeConfig := {| Ocpus := None; MemoryInGBs := None; BaselineOcpuUtilization := None |};
ImageCompartmentID := "ocid1.compartment.oc1..images";
ImageName := "packer-built";
Tags := ∅;
DefinedTags := ∅;
LaunchMode := "PARAVIRTUALIZED";
NicAttachmentType := "VFIO";
UsePrivateIP := false
|}.

Definition driver : driverOCI cloud :=
{| computeClient := compute; vcnClient := vcn; cfg := config |}.

Definition image (id name : string) : core_Image :=
{| Image_Id := Some id; Image_DisplayName := Some name; Image_LifecycleState := "AVAILABLE" |}.

(** A listing of two pages, most recent image first; only the second
page holds an Oracle Linux 7.8 image. *)
Definition two_pages : list (string * core_ListImagesResponse) :=
[ ("", {| Items := [image "ocid1.image.oc1..ol79" "Oracle-Linux-7.9-2021.01.12-0";
                  image "ocid1.image.oc1..ol8" "Oracle-Linux-8.3-2021.01.12-0"];
        OpcNextPage := Some "page2" |});
("page2", {| Items := [image "ocid1.image.oc1..ol78b" "Oracle-Linux-7.8-2020.09.23-0";
                       image "ocid1.image.oc1..ol78a" "Oracle-Linux-7.8-2020.08.26-0"];
             OpcNextPage := None |}) ].

(** A global schema with one descriptor of each kind. *)
Definition global_data : gmap string wire_descriptor :=
<["Storage.Iscsi.MultipathDeviceSupported" :=
  BooleanImageCapabilitySchemaDescriptor "GLOBAL" (Some true)]>
(<["Compute.Firmware" :=
  EnumStringImageCapabilitySchemaDescriptor "GLOBAL" (Some "UEFI_64") ["BIOS"; "UEFI_64"]]>
(<["Network.Queues" :=
  EnumIntegerImageCapabilityDescriptor "GLOBAL" (Some 1) [1; 2; 4]]>
(<["Compute.SecureBoot" := UnknownImageCapabilitySchemaDescriptor "GLOBAL"]> ∅))).

Definition existing_schema : core_ComputeImageCapabilitySchemaSummary wire_descriptor :=
{| Schema_Id := Some "ocid1.computeimgcapschema.oc1..existing";
 Schema_SchemaData :=
   Some (<["Compute.Firmware" :=
            EnumStringImageCapabilitySchemaDescriptor "IMAGE" (Some "BIOS") ["BIOS"; "UEFI_64"]]> ∅) |}.

Definition region (schemas : list (core_ComputeImageCapabilitySchemaSummary wire_descriptor))
(publishes : bool) (states : list string) : cloud :=
{| image_pages := two_pages;
 image_schemas := schemas;
 publishes_at_once := publishes;
 global_schemas :=
   [{| Global_Id := Some "ocid1.computeglobalimgcapschema.oc1..one";
       CurrentVersionName := Some "v1" |}];
 global_version := {| Version_Name := Some "v1"; Version_SchemaData := Some global_data |};
 lifecycle := states |}.

Definition world (s : cloud) : World cloud :=
Build_World s 0 ∅ [].

(** A decoded global schema of one descriptor, and the heap that
holds its allowed values. *)
Definition decoded_heap : heap := {[ 0%nat := IntArray [1; 2; 4] ]}.

Definition decoded_data : gmap string descriptor :=
{[ "Network.Queues" := EnumIntegerImageCapabilityDescriptor "GLOBAL" (Some 1) (Slice 0 3) ]}.

(** The context of a build, cancelled two seconds after the start. *)
Definition build : context := Caller "build" (Some (2 * Second)).

End Fake.

(** ** Vocabulary of the properties *)

(** The copy of a global descriptor that the specification asks for, on
    the wire: the same descriptor with the source [IMAGE], for the
    three descriptor types the driver knows; nothing for the others. *)
Definition image_copy (val : wire_descriptor) : option wire_descriptor :=
  match val with
  | BooleanImageCapabilitySchemaDescriptor _ dv =>
      Some (BooleanImageCapabilitySchemaDescriptor "IMAGE" dv)
  | EnumIntegerImageCapabilityDescriptor _ dv vs =>
      Some (EnumIntegerImageCapabilityDescriptor "IMAGE" dv vs)
  | EnumStringImageCapabilitySchemaDescriptor _ dv vs =>
      Some (EnumStringImageCapabilitySchemaDescriptor "IMAGE" dv vs)
  | UnknownImageCapabilitySchemaDescriptor _ => None
  end.

(** The custom fields of a configuration, laid over schema data on the
    wire. *)
Definition customFields (c : Config) (SchemaData : gmap string wire_descriptor)
  : gmap string wire_descriptor :=
  let SchemaData :=
    if decide (LaunchMode c ≠ "") then
      <["Compute.LaunchMode" :=
          EnumStringImageCapabilitySchemaDescriptor "IMAGE" (Some (LaunchMode c))
            ["NATIVE"; "EMULATED"; "PARAVIRTUALIZED"; "CUSTOM"]]> SchemaData
    else SchemaData in
  if decide (NicAttachmentType c ≠ "") then
    <["Network.AttachmentType" :=
        EnumStringImageCapabilitySchemaDescriptor "IMAGE" (Some (NicAttachmentType c))
          ["E1000"; "VFIO"; "PARAVIRTUALIZED"]]> SchemaData
  else SchemaData.

(** [h'] is [h] after an element was stored through the sequence of
    allowed values of [val]. *)
Definition mutated_through (h : heap) (val : descriptor) (h' : heap) : Prop :=
  match val with
  | EnumIntegerImageCapabilityDescriptor _ _ vs => ∃ i v, store_int h vs i v = Some h'
  | EnumStringImageCapabilitySchemaDescriptor _ _ vs => ∃ i v, store_string h vs i v = Some h'
  | _ => False
  end.

(** The sequence of allowed values of [val] has an array that is not
    allocated in [h]. *)
Definition fresh_in (h : heap) (val : descriptor) : Prop :=
  match val with
  | EnumIntegerImageCapabilityDescriptor _ _ (Slice l _)
  | EnumStringImageCapabilitySchemaDescriptor _ _ (Slice l _) => h !! l = None
  | _ => True
  end.

(** Every event a computation adds to the log satisfies [P]. *)
Definition emits {St A} (P : Event -> Prop) (m : M St A) : Prop :=
  ∀ w, ∃ evs, log (snd (m w)) = log w ++ evs ∧ Forall P evs.

Definition carries_retry_policy (e : Event) : Prop :=
  match e with
  | Called _ req => RetryPolicy (request_metadata req) = Some retryPolicy
  | Slept _ => True
  end.

Definition under_context (ctx : context) (e : Event) : Prop :=
  match e with
  | Called c _ => c = ctx
  | Slept _ => True
  end.

(** [listing d ctx now page s pages]: asked for the page [page] and then
    for each next page in turn, the image listing yields [pages], the
    last of which names no next page. *)
Inductive listing {St} (d : driverOCI St) (ctx : context) (now : Z)
  : option string -> St -> list core_ListImagesResponse -> Prop :=
| listing_done (s : St) : listing d ctx now None s []
| listing_page (token : string) (s s' : St) (page : core_ListImagesResponse)
    (rest : list core_ListImagesResponse) :
    compute_ListImages (computeClient d) ctx now (listImagesRequest d (Some token)) s = (inl page, s') ->
    listing d ctx now (OpcNextPage page) s' rest ->
    listing d ctx now (Some token) s (page :: rest).

(** The images of a listing, in the order they are listed. *)
Definition listed (pages : list core_ListImagesResponse) : list core_Image :=
  concat (Items <$> pages).


(** [waits getResourceState id waitStates waitDuration n w w']: from the
    world [w], [n] fetches in a row report a waiting state, each
    followed by a sleep of [waitDuration]; [w'] is the world after the
    last of these sleeps. *)
Inductive waits {St} (getResourceState : string -> M St string) (id : string)
    (waitStates : list string) (waitDuration : Duration)
  : nat -> World St -> World St -> Prop :=
| waits_no_more (w : World St) :
    waits getResourceState id waitStates waitDuration 0 w w
| waits_once_more (n : nat) (w w1 w' : World St) (state : string) :
    getResourceState id w = (Returned state, w1) ->
    state ∈ waitStates ->
    waits getResourceState id waitStates waitDuration n (snd (time_Sleep waitDuration w1)) w' ->
    waits getResourceState id waitStates waitDuration (S n) w w'.


(** More configurations and a stricter runtime for the in-memory
    control plane. *)
Module Variants.

(** The configuration [c] with another selection of the base image,
  other metadata and user data, and another choice of the address. *)
Definition with_base_image (c : Config) (id : string) (search : option string)
  (metadata : option (gmap string string)) (userData : string) (private : bool) : Config :=
{| Metadata := metadata;
   UserData := userData;
   CreateVnicDetails := CreateVnicDetails c;
   BaseImageID := id;
   BaseImageFilter := {|
     Filter_CompartmentId := Filter_CompartmentId (BaseImageFilter c);
     Filter_DisplayName := Filter_DisplayName (BaseImageFilter c);
     DisplayNameSearch := search;
     Filter_OperatingSystem := Filter_OperatingSystem (BaseImageFilter c);
     Filter_OperatingSystemVersion := Filter_OperatingSystemVersion (BaseImageFilter c);
     Filter_Shape := Filter_Shape (BaseImageFilter c) |};
   BootVolumeSizeInGBs := BootVolumeSizeInGBs c;
   AvailabilityDomain := AvailabilityDomain c;
   CompartmentID := CompartmentID c;
   InstanceDefinedTags := InstanceDefinedTags c;
   InstanceName := InstanceName c;
   InstanceTags := InstanceTags c;
   Shape := Shape c;
   AreLegacyImdsEndpointsDisabled := AreLegacyImdsEndpointsDisabled c;
   ShapeConfig := ShapeConfig c;
   ImageCompartmentID := ImageCompartmentID c;
   ImageName := ImageName c;
   Tags := Tags c;
   DefinedTags := DefinedTags c;
   LaunchMode := LaunchMode c;
   NicAttachmentType := NicAttachmentType c;
   UsePrivateIP := private |}.

Definition driver_of (c : Config) : driverOCI Fake.cloud :=
{| computeClient := Fake.compute; vcnClient := Fake.vcn; cfg := c |}.

(** The base image is given by its id. *)
Definition by_id : driverOCI Fake.cloud :=
driver_of (with_base_image Fake.config "ocid1.image.oc1..chosen" None
             (Some {[ "team" := "images" ]}) "I2Nsb3VkLWNvbmZpZw==" true).

(** The base image is the most recent one of the listing. *)
Definition most_recent : driverOCI Fake.cloud :=
driver_of (with_base_image Fake.config "" None None "" false).

(** The display-name expression does not compile. *)
Definition unbalanced : driverOCI Fake.cloud :=
driver_of (with_base_image Fake.config "" (Some "Oracle-Linux-(") None "" false).

(** A runtime that refuses the patterns with an open parenthesis. *)
Definition missing_parenthesis : error :=
errors_New "error parsing regexp: missing closing ): `Oracle-Linux-(`".

Fixpoint has_open_parenthesis (s : string) : bool :=
match s with
| EmptyString => false
| String c rest => if Ascii.eqb c (Ascii.ascii_of_nat 40) then true else has_open_parenthesis rest
end.

Definition strict_runtime : Runtime Fake.cloud := {|
Regexp := string;
regexp_Compile := fun pattern =>
  if has_open_parenthesis pattern then inr missing_parenthesis else inl pattern;
MatchString := fun re name => String.prefix re name;
uuid_TimeOrderedUUID := fun s => ("5f3c1e0a-0000-0000-0000-000000000001", s)
|}.

(** A listing whose first page is empty, and a listing of three pages
  whose first match is on the second page. *)
Definition listing_of (pages : list (string * core_ListImagesResponse)) : Fake.cloud :=
{| Fake.image_pages := pages;
   Fake.image_schemas := [];
   Fake.publishes_at_once := true;
   Fake.global_schemas := [];
   Fake.global_version := {| Version_Name := None; Version_SchemaData := None |};
   Fake.lifecycle := [] |}.

Definition empty_first_page : Fake.cloud :=
listing_of
  [ ("", {| Items := []; OpcNextPage := Some "page2" |});
    ("page2", {| Items := [Fake.image "ocid1.image.oc1..ol79" "Oracle-Linux-7.9-2021.01.12-0";
                           Fake.image "ocid1.image.oc1..ol78b" "Oracle-Linux-7.8-2020.09.23-0"];
                 OpcNextPage := None |}) ].


(** A compute client that refuses the creation of a schema. *)
Definition conflict : error :=
ServiceError 409 "Conflict" "the image already has a capability schema".

Definition refuses_creation : driverOCI Fake.cloud :=
{| computeClient := {|
     compute_ListImages := Fake.ListImages;
     compute_LaunchInstance := compute_LaunchInstance Fake.compute;
     compute_CreateImage := compute_CreateImage Fake.compute;
     compute_ListComputeImageCapabilitySchemas := Fake.ListSchemas;
     compute_ListComputeGlobalImageCapabilitySchemas := Fake.ListGlobalSchemas;
     compute_GetComputeGlobalImageCapabilitySchemaVersion := Fake.GetGlobalSchemaVersion;
     compute_CreateComputeImageCapabilitySchema :=
       Fake.guarded (fun _ s => (inr conflict, s));
     compute_UpdateComputeImageCapabilitySchema := Fake.UpdateSchema;
     compute_DeleteImage := Fake.answer tt;
     compute_ListVnicAttachments := compute_ListVnicAttachments Fake.compute;
     compute_GetWindowsInstanceInitialCredentials :=
       compute_GetWindowsInstanceInitialCredentials Fake.compute;
     compute_TerminateInstance := Fake.answer tt;
     compute_GetImage := Fake.GetImage;
     compute_GetInstance := Fake.GetInstance |};
   vcnClient := Fake.vcn;
   cfg := Fake.config |}.

(** A decoded global schema of two descriptors, on [Fake.decoded_heap]. *)
Definition two_descriptors : gmap string descriptor :=
<["Storage.Iscsi.MultipathDeviceSupported" :=
    BooleanImageCapabilitySchemaDescriptor "GLOBAL" (Some true)]> Fake.decoded_data.

(** A region without any global capability schema. *)
Definition without_global_schema : Fake.cloud := listing_of Fake.two_pages.

End Variants.

(** * Properties *)

(** ** Computations *)

Lemma bind_run {St A B} (m : M St A) (k : A -> M St B) (w : World St) :
  bind m k w
  = match m w with
    | (Returned a, w') => k a w'
    | (Failed e, w') => (Failed e, w')
    | (Panicked msg, w') => (Panicked msg, w')
    | (OutOfFuel, w') => (OutOfFuel, w')
    end.
Proof. reflexivity. Qed.

(** ** The backoff policy *)

Section Backoff.

Lemma int64_id (z : Z) : - 2 ^ 63 <= z < 2 ^ 63 -> int64 z = z.
Proof.
  intros Hz. unfold int64.
  rewrite Z.mod_small; lia.
Qed.

Lemma uint64_id (z : Z) : 0 <= z < 2 ^ 64 -> uint64 z = z.
Proof. intros Hz. unfold uint64. apply Z.mod_small. lia. Qed.

Lemma int64_of_integer (z : Z) :
  - 2 ^ 63 <= z < 2 ^ 63 -> int64_of_float64 (Finite (inject_Z z)) = z.
Proof.
  intros Hz. unfold int64_of_float64, inject_Z. cbn [Qnum Qden].
  rewrite Z.quot_1_r.
  destruct (Z.leb_spec (- 2 ^ 63) z), (Z.ltb_spec z (2 ^ 63)); simpl; lia.
Qed.

Lemma pow2_le_33 (n : Z) : 0 <= n <= 33 -> 1 <= 2 ^ n <= 8589934592.
Proof.
  intros Hn. split.
  - change 1 with (2 ^ 0). apply Z.pow_le_mono_r; lia.
  - change 8589934592 with (2 ^ 33). apply Z.pow_le_mono_r; lia.
Qed.

(** *** Rounding *)

(** The rounded quotient is within one half of the quotient, and it
    does not cross an integer. *)
Lemma nearest_even_spec (n d : Z) :
  0 < d -> 2 * n - d <= 2 * d * nearest_even n d <= 2 * n + d.
Proof.
  intros Hd. unfold nearest_even.
  pose proof (Z.div_mod n d ltac:(lia)) as Hn.
  pose proof (Z.mod_pos_bound n d Hd) as Hr.
  destruct (Z.compare_spec (2 * (n mod d)) d); [destruct (Z.even (n / d)) | |]; nia.
Qed.

Lemma nearest_even_ge (n d J : Z) : 0 < d -> J * d <= n -> J <= nearest_even n d.
Proof.
  intros Hd HJ. unfold nearest_even.
  assert (J <= n / d) by (apply Z.div_le_lower_bound; lia).
  destruct (2 * (n mod d) ?= d); [destruct (Z.even (n / d)) | |]; lia.
Qed.

Lemma nearest_even_le (n d J : Z) : 0 < d -> n <= J * d -> nearest_even n d <= J.
Proof.
  intros Hd HJ. unfold nearest_even.
  pose proof (Z.div_mod n d ltac:(lia)) as Hn.
  pose proof (Z.mod_pos_bound n d Hd) as Hr.
  destruct (Z.compare_spec (2 * (n mod d)) d); [destruct (Z.even (n / d)) | |]; nia.
Qed.

(** [ilog2 a b] is not above the logarithm of [a / b]. *)
Lemma ilog2_below (a b : Z) :
  0 < a -> 0 < b ->
  (0 <= ilog2 a b -> 2 ^ ilog2 a b * b <= a)
  ∧ (ilog2 a b < 0 -> b <= 2 ^ (- ilog2 a b) * a).
Proof.
  intros Ha Hb. unfold ilog2.
  pose proof (Z.log2_spec a Ha) as [Ha1 _].
  pose proof (Z.log2_spec b Hb) as [_ Hb2].
  pose proof (Z.log2_nonneg a) as Hla. pose proof (Z.log2_nonneg b) as Hlb.
  set (la := Z.log2 a) in *. set (lb := Z.log2 b) in *.
  destruct (Z.leb_spec 0 (la - lb)) as [Hl | Hl].
  - destruct (Z.leb_spec (2 ^ (la - lb) * b) a) as [Hle | Hgt]; [lia |].
    assert (2 ^ (la - lb) * 2 ^ Z.succ lb = 2 * 2 ^ la) as Hpow.
    { rewrite <- Z.pow_add_r by lia. replace (la - lb + Z.succ lb) with (Z.succ la) by lia.
      rewrite Z.pow_succ_r by lia. lia. }
    split; intros Hsign.
    + replace (la - lb) with (Z.succ (la - lb - 1)) in Hpow by lia.
      rewrite Z.pow_succ_r in Hpow by lia.
      assert (0 < 2 ^ (la - lb - 1)) by (apply Z.pow_pos_nonneg; lia).
      nia.
    + replace (- (la - lb - 1)) with 1 by lia. replace (la - lb) with 0 in Hpow by lia.
      change (2 ^ 0) with 1 in Hpow. change (2 ^ 1) with 2. lia.
  - assert (2 ^ Z.succ lb = 2 * 2 ^ (- (la - lb)) * 2 ^ la) as Hpow.
    { rewrite <- Z.mul_assoc, <- Z.pow_add_r by lia.
      replace (- (la - lb) + la) with lb by lia. rewrite Z.pow_succ_r by lia. lia. }
    assert (0 < 2 ^ (- (la - lb))) by (apply Z.pow_pos_nonneg; lia).
    destruct (Z.leb_spec b (2 ^ (- (la - lb)) * a)) as [Hle | Hgt]; [lia |].
    split; [lia |]. intros _.
    replace (- (la - lb - 1)) with (Z.succ (- (la - lb))) by lia.
    rewrite Z.pow_succ_r by lia. nia.
Qed.

(** The rounding of a positive rational below 2048: its last place is
    [2^-42] at most. *)
Lemma round64_below_2048 (q : Q) :
  0 < Qnum q -> Qnum q < 2048 * Z.pos (Qden q) ->
  ∃ P : Z,
    2 ^ 42 <= P
    ∧ round64 q
      = Finite (inject_Z (nearest_even (Qnum q * P) (Z.pos (Qden q)))
                * Qmake 1 (Z.to_pos P)).
Proof.
  intros Ha Hlt. unfold round64.
  rewrite (Z.abs_eq (Qnum q)) by lia.
  destruct (Z.eqb_spec (Qnum q) 0) as [? | _]; [lia |].
  destruct (ilog2_below (Qnum q) (Z.pos (Qden q)) Ha ltac:(lia)) as [Hl _].
  set (l := ilog2 (Qnum q) (Z.pos (Qden q))) in *.
  assert (l <= 10) as Hl10.
  { destruct (Z.le_gt_cases l 10) as [? | Hbig]; [done |]. exfalso.
    assert (2 ^ 11 <= 2 ^ l) by (apply Z.pow_le_mono_r; lia).
    specialize (Hl ltac:(lia)). change (2 ^ 11) with 2048 in *. nia. }
  set (e := Z.max (l - 52) (-1074)).
  assert (e <= -42) as He by lia.
  destruct (Z.leb_spec 0 e) as [? | _]; [lia |]. cbn [andb].
  rewrite (Z.sgn_pos (Qnum q)) by lia. rewrite Z.mul_1_l.
  exists (2 ^ (- e)). split.
  - apply Z.pow_le_mono_r; lia.
  - unfold pow2. by destruct (Z.leb_spec 0 e) as [? | _]; [lia |].
Qed.

(** A [float64] value below one is [1 - 2^-53] at most. *)
Lemma float64_below_one (u : Q) :
  is_float64 u -> (0 <= u)%Q -> (u < 1)%Q ->
  2 ^ 53 * Qnum u <= (2 ^ 53 - 1) * Z.pos (Qden u).
Proof.
  intros (m & e & Hm & He & Hu) H0 H1.
  unfold Qle in H0. unfold Qlt in H1. cbn in H0, H1.
  unfold Qeq, pow2 in Hu.
  destruct (Z.leb_spec 0 e) as [Hpos | Hneg].
  - cbn in Hu. assert (0 < 2 ^ e) by (apply Z.pow_pos_nonneg; lia).
    assert (m * 2 ^ e <= 0) by nia. nia.
  - cbn [Qnum Qden Qmult inject_Z] in Hu.
    assert (0 < 2 ^ (- e)) as HP by (apply Z.pow_pos_nonneg; lia).
    rewrite Pos.mul_1_l, Z.mul_1_r, Z2Pos.id in Hu by done.
    set (P := 2 ^ (- e)) in *.
    assert (m < P) by nia.
    destruct (Z.le_gt_cases (- e) 53) as [Hsmall | Hlarge].
    + assert (2 ^ 53 = P * 2 ^ (53 + e)) as Hsplit.
      { unfold P. rewrite <- Z.pow_add_r by lia. f_equal. lia. }
      assert (1 <= 2 ^ (53 + e)) by (change 1 with (2 ^ 0); apply Z.pow_le_mono_r; lia).
      set (R := 2 ^ (53 + e)) in *. rewrite Hsplit. nia.
    + assert (2 ^ 53 <= P) by (apply Z.pow_le_mono_r; lia).
      assert (m <= 2 ^ 53 - 1) by lia. nia.
Qed.

(** A small unsigned integer is converted exactly. *)
Lemma float64_of_small_uint64 (x : Z) :
  0 <= x < 2 ^ 53 -> ∃ q, float64_of_uint64 x = Finite q ∧ Qfloor q = x.
Proof.
  intros Hx. unfold float64_of_uint64, round64. cbn [inject_Z Qnum Qden].
  rewrite Z.abs_eq by lia.
  destruct (Z.eqb_spec x 0) as [-> | Hne]; [by exists 0%Q |].
  destruct (ilog2_below x 1 ltac:(lia) ltac:(lia)) as [Hl _].
  set (l := ilog2 x 1) in *.
  assert (l <= 52) as Hl52.
  { destruct (Z.le_gt_cases l 52) as [? | Hbig]; [done |]. exfalso.
    assert (2 ^ 53 <= 2 ^ l) by (apply Z.pow_le_mono_r; lia).
    specialize (Hl ltac:(lia)). lia. }
  assert (-52 <= l) as Hlow.
  { unfold l, ilog2. change (Z.log2 1) with 0. pose proof (Z.log2_nonneg x).
    destruct (0 <=? Z.log2 x - 0); destruct (_ <=? _); lia. }
  rewrite Z.max_l by lia. rewrite (Z.sgn_pos x) by lia. rewrite Z.mul_1_l.
  destruct (Z.leb_spec 0 (l - 52)) as [He | He].
  - replace (l - 52) with 0 by lia. change (2 ^ 0) with 1. cbn [andb Z.leb].
    assert (nearest_even x 1 = x) as Hm.
    { pose proof (nearest_even_ge x 1 x). pose proof (nearest_even_le x 1 x). lia. }
    destruct (2 ^ 1024 <=? nearest_even x 1 * 1) eqn:Hover.
    { apply Z.leb_le in Hover. rewrite Hm in Hover.
      assert (2 ^ 53 <= 2 ^ 1024) by (apply Z.pow_le_mono_r; lia). lia. }
    eexists. split; [reflexivity |]. unfold pow2, Qfloor. cbn [Z.leb Qmult inject_Z Qnum Qden].
    rewrite Hm. change (2 ^ 0) with 1. change (Z.pos (1 * 1)) with 1.
    rewrite Z.div_1_r. cbn [Z.leb Z.compare inject_Z Qnum]. lia.
  - cbn [andb].
    assert (0 < 2 ^ (- (l - 52))) as HP by (apply Z.pow_pos_nonneg; lia).
    set (P := 2 ^ (- (l - 52))) in *.
    assert (nearest_even (x * P) 1 = x * P) as Hm.
    { pose proof (nearest_even_ge (x * P) 1 (x * P)).
      pose proof (nearest_even_le (x * P) 1 (x * P)). lia. }
    eexists. split; [reflexivity |]. unfold pow2.
    destruct (Z.leb_spec 0 (l - 52)) as [? | _]; [lia |].
    fold P. unfold Qfloor. cbn [Qmult inject_Z Qnum Qden].
    rewrite Hm, Pos.mul_1_l, Z.mul_1_r, Z2Pos.id by done.
    rewrite Z.mul_1_l. apply Z.div_mul. lia.
Qed.

(** The jitter, in milliseconds: the integer part of the rounded
    product of the draw and 2000. *)
Lemma jitter_spec (u : Q) :
  is_float64 u -> (0 <= u)%Q -> (u < 1)%Q ->
  let k := int64_of_float64 (fmul (Finite u) (Finite 2000)) in
  0 <= k < 2000
  ∧ (inject_Z k <= u * 2000 + (1 # 8796093022208))%Q
  ∧ (u * 2000 < inject_Z (k + 1))%Q.
Proof.
  intros Hfloat H0 H1 k. cbn [fmul] in k.
  pose proof (float64_below_one u Hfloat H0 H1) as Hbelow.
  unfold Qle in H0. unfold Qlt in H1. cbn in H0, H1.
  rewrite Z.mul_1_r in H0, H1.
  assert (Qnum (u * 2000) = Qnum u * 2000) as Hnum by reflexivity.
  assert (Z.pos (Qden (u * 2000)) = Z.pos (Qden u)) as Hden.
  { cbn [Qmult Qden]. by rewrite Pos.mul_1_r. }
  set (a := Qnum u) in *. set (b := Z.pos (Qden u)) in *.
  assert (0 < b) as Hb by (unfold b; lia).
  assert (∀ t : Z, (inject_Z t <= u * 2000 + (1 # 8796093022208))%Q
                   ↔ t * (b * 8796093022208) <= a * 2000 * 8796093022208 + b) as Hlow.
  { intros t. unfold Qle. cbn [Qplus Qmult inject_Z Qnum Qden].
    rewrite Pos.mul_1_r, Pos2Z.inj_mul. fold a b. lia. }
  assert (∀ t : Z, (u * 2000 < inject_Z t)%Q ↔ a * 2000 < t * b) as Hhigh.
  { intros t. unfold Qlt. cbn [Qmult inject_Z Qnum Qden].
    rewrite Pos.mul_1_r. fold a b. lia. }
  rewrite Hlow, Hhigh. clear Hlow Hhigh.
  destruct (Z.eq_dec a 0) as [Hzero | Hnonzero].
  - assert (k = 0) as ->.
    { unfold k, round64. rewrite Hnum. fold a. rewrite Hzero. reflexivity. }
    lia.
  - destruct (round64_below_2048 (u * 2000)) as (P & HP & Hround).
    { rewrite Hnum. fold a. lia. }
    { rewrite Hnum, Hden. fold a. lia. }
    rewrite Hnum, Hden in Hround. fold a in Hround.
    set (m := nearest_even (a * 2000 * P) b) in *.
    assert (0 < P) as HP0.
    { assert (0 < 2 ^ 42) by (apply Z.pow_pos_nonneg; lia). lia. }
    pose proof (nearest_even_spec (a * 2000 * P) b Hb) as Hm. fold m in Hm.
    assert (0 <= m) as Hm0 by (apply nearest_even_ge; lia).
    assert (m < 2000 * P) as Hm2000.
    { destruct (Z.lt_ge_cases m (2000 * P)) as [? | Hge]; [done |]. exfalso.
      change (2 ^ 42) with 4398046511104 in HP.
      change (2 ^ 53) with 9007199254740992 in Hbelow.
      assert (2 * b * (2000 * P) <= 2 * (a * 2000 * P) + b) as Hhalf by nia.
      assert (9007199254740992 * (2 * (a * 2000 * P))
              <= (9007199254740992 - 1) * b * (4000 * P)) as Hscaled by nia.
      nia. }
    assert (k = m / P) as Hk.
    { unfold k. rewrite Hround. unfold int64_of_float64.
      cbn [Qmult inject_Z Qnum Qden].
      rewrite Pos.mul_1_l, Z.mul_1_r, Z2Pos.id by done.
      rewrite Z.quot_div_nonneg by lia.
      assert (0 <= m / P < 2000) as Hrange.
      { split; [apply Z.div_pos; lia | apply Z.div_lt_upper_bound; lia]. }
      destruct (Z.leb_spec (- 2 ^ 63) (m / P)), (Z.ltb_spec (m / P) (2 ^ 63));
        cbn [andb]; lia. }
    pose proof (Z.div_mod m P ltac:(lia)) as Hdiv.
    pose proof (Z.mod_pos_bound m P HP0) as Hmod.
    rewrite <- Hk in Hdiv.
    assert (0 <= k < 2000) as Hrange.
    { rewrite Hk. split; [apply Z.div_pos; lia | apply Z.div_lt_upper_bound; lia]. }
    split_and!; [lia | lia | |].
    + change (2 ^ 42) with 4398046511104 in HP.
      assert ((k * b - a * 2000) * (2 * P) <= b) as Hgap by nia.
      destruct (Z.le_gt_cases (k * b) (a * 2000)) as [? | Hover]; [nia |].
      assert ((k * b - a * 2000) * 8796093022208 <= (k * b - a * 2000) * (2 * P)) by nia.
      nia.
    + destruct (Z.lt_ge_cases (a * 2000) ((k + 1) * b)) as [? | Hge]; [done |]. exfalso.
      assert ((k + 1) * P <= m) as Hup by (apply nearest_even_ge; [done | nia]).
      nia.
Qed.

Lemma NextDuration_eq (res : common_OCIOperationResponse) (u : Q) :
  0 <= AttemptNumber res <= 33 -> is_float64 u -> (0 <= u)%Q -> (u < 1)%Q ->
  retryPolicy_NextDuration res u
  = 2 ^ AttemptNumber res * Second
    + int64_of_float64 (fmul (Finite u) (Finite 2000)) * Millisecond.
Proof.
  intros Hn Hfloat H0 H1. unfold retryPolicy_NextDuration.
  pose proof (pow2_le_33 _ Hn) as Hp.
  destruct (jitter_spec u Hfloat H0 H1) as (Hj & _).
  set (j := int64_of_float64 (fmul (Finite u) (Finite 2000))) in *.
  rewrite uint64_id by lia.
  destruct (float64_of_small_uint64 (AttemptNumber res)) as (q & -> & Hq).
  { assert (2 ^ 6 <= 2 ^ 53) by (apply Z.pow_le_mono_r; lia). change (2 ^ 6) with 64 in *. lia. }
  unfold math_Pow2. rewrite Hq.
  destruct (Z.leb_spec (AttemptNumber res) 1023); [| lia].
  rewrite int64_of_integer by lia.
  unfold Second, Millisecond in *.
  set (p := 2 ^ AttemptNumber res) in *.
  change (2 ^ 63) with 9223372036854775808 in *.
  rewrite (int64_id (p * _)) by (change (2 ^ 63) with 9223372036854775808; lia).
  rewrite (int64_id (j * _)) by (change (2 ^ 63) with 9223372036854775808; lia).
  rewrite int64_id by (change (2 ^ 63) with 9223372036854775808; lia).
  reflexivity.
Qed.

End Backoff.

(** C5, as amended.  For an attempt number [n] between 0 and 33 and a
    draw [u] of [rand.Float64], a [float64] value in [0, 1), the delay
    is [2^n] seconds plus [k] milliseconds, where [k] is the integer
    part of the [float64] product of [u] and 2000.  This [k] is
    between 0 and 1999, so that the delay lies in [[2^n, 2^n + 2)]
    seconds; and [k - 2^-43 <= 2000 u < k + 1]: [k] is the integer
    part of [2000 u], or the integer just above when [2000 u] is
    within [2^-43] of it and the product rounds up to it. *)
Theorem NextDuration_bounds (res : common_OCIOperationResponse) (u : Q) :
  0 <= AttemptNumber res <= 33 -> is_float64 u -> (0 <= u)%Q -> (u < 1)%Q ->
  let n := AttemptNumber res in
  let w := NextDuration retryPolicy res u in
  2 ^ n * Second <= w < (2 ^ n + 2) * Second
  ∧ ∃ k, 0 <= k < 2000
         ∧ w = 2 ^ n * Second + k * Millisecond
         ∧ (inject_Z k <= u * 2000 + (1 # 8796093022208))%Q
         ∧ (u * 2000 < inject_Z (k + 1))%Q.
Proof.
  intros Hn Hfloat H0 H1 n w. subst n w.
  change (NextDuration retryPolicy res u) with (retryPolicy_NextDuration res u).
  rewrite (NextDuration_eq res u Hn Hfloat H0 H1).
  destruct (jitter_spec u Hfloat H0 H1) as (Hj & Hlow & Hhigh).
  unfold Second, Millisecond. split; [lia |].
  exists (int64_of_float64 (fmul (Finite u) (Finite 2000))). split_and!; [lia | lia | done | done | done].
Qed.


(** The bound at the third attempt, for the draw one half. *)
Lemma NextDuration_bounds_witness :
  2 ^ 3 * Second <= NextDuration retryPolicy {| Error := None; AttemptNumber := 3 |} (1 # 2)
  < (2 ^ 3 + 2) * Second.
Proof.
  apply (NextDuration_bounds {| Error := None; AttemptNumber := 3 |} (1 # 2));
    [cbn; lia | by exists 1, (-1) | discriminate | reflexivity].
Defined.


(** C5 fails as stated: at the attempt number 34 the product with
    [time.Second] wraps around the 64 bits of [time.Duration], and the
    delay is negative. *)
Lemma NextDuration_wraps_at_34 :
  NextDuration retryPolicy {| Error := None; AttemptNumber := 34 |} 0 = -1266874889709551616
  ∧ ¬ (2 ^ 34 * Second
       <= NextDuration retryPolicy {| Error := None; AttemptNumber := 34 |} 0
       < (2 ^ 34 + 2) * Second).
Proof.
  split; [by vm_compute |].
  intros [Hle _]. vm_compute in Hle. by apply Hle.
Qed.

(** The product of the draw and 2000 is a rounded one: the draw
    [526921156402348 / 2^53] is below [117 / 2000], and its product
    with 2000 rounds to 117. *)
Example jitter_of_a_product_that_rounds_up :
  (526921156402348 # 9007199254740992 < 117 # 2000)%Q
  ∧ NextDuration retryPolicy {| Error := None; AttemptNumber := 0 |}
      (526921156402348 # 9007199254740992)
    = 1 * Second + 117 * Millisecond.
Proof. split; [reflexivity | by vm_compute]. Qed.

(** The rounding at work: the [float64] nearest to one tenth, times
    three, is the [float64] above three tenths; the largest draw times
    2000 is the [float64] below 2000; and a product overflows from
    [2^1024] on. *)
Example rounded_products :
  fmul (Finite (3602879701896397 # 36028797018963968)) (Finite 3)
  = Finite (inject_Z 5404319552844596 * pow2 (-54))
  ∧ fmul (Finite (9007199254740991 # 9007199254740992)) (Finite 2000)
    = Finite (inject_Z 8796093022207999 * pow2 (-42))
  ∧ fmul (Finite (inject_Z (2 ^ 1023))) (Finite 2) = PosInf.
Proof. split_and!; by vm_compute. Qed.


(** C6.  The policy retries exactly the errors in whose chain
    [errors.As] finds a service error with the status code 429, 500 or
    503: any other status code, an error that is no service error, and
    the absence of an error are not retried. *)
Theorem ShouldRetryOperation_iff (res : common_OCIOperationResponse) :
  ShouldRetryOperation retryPolicy res = true
  ↔ ∃ err code, Error res = Some err
                ∧ errors_As_ServiceError err = Some code
                ∧ (code = 429 ∨ code = 500 ∨ code = 503).
Proof.
  change (ShouldRetryOperation retryPolicy res) with (retryPolicy_ShouldRetryOperation res).
  unfold retryPolicy_ShouldRetryOperation.
  unfold StatusTooManyRequests, StatusInternalServerError, StatusServiceUnavailable.
  split.
  - destruct (Error res) as [err |] eqn:Herr; [| discriminate].
    destruct (errors_As_ServiceError err) as [code |] eqn:Hcode; [| discriminate].
    intros H. exists err, code. split_and!; [done | done |].
    apply orb_true_iff in H as [H | H]; [apply orb_true_iff in H as [H | H] |]; lia.
  - intros (err & code & -> & -> & Hcode).
    destruct Hcode as [-> | [-> | ->]]; reflexivity.
Qed.

(** ** The poll loop *)

Lemma stringSliceContains_elem (slice : list string) (value : string) :
  stringSliceContains slice value = true ↔ value ∈ slice.
Proof.
  induction slice as [| elem rest IH]; cbn.
  - split; [done |]. by intros ?%elem_of_nil.
  - rewrite elem_of_cons. destruct (String.eqb_spec elem value) as [-> | Hne].
    + split; [by left | done].
    + rewrite IH. split; [by right |]. intros [-> | ?]; done.
Qed.

Lemma stringSliceContains_not_elem (slice : list string) (value : string) :
  stringSliceContains slice value = false ↔ value ∉ slice.
Proof.
  rewrite <- stringSliceContains_elem. by destruct (stringSliceContains slice value).
Qed.

Section PollEngine.

Context {St : Type}.
Variables (getResourceState : string -> M St string) (id : string).
Variables (waitStates : list string) (terminalState : string).
Variables (maxRetries : Z) (waitDuration : Duration).

Lemma poll_enters (fuel : nat) (i : Z) :
  maxRetries = 0 ∨ i < maxRetries ->
  waitForResourceToReachState_from (S fuel) i getResourceState id
    waitStates terminalState maxRetries waitDuration =
    (do state <- getResourceState id;
     if stringSliceContains waitStates state then
       do _ <- time_Sleep waitDuration;
       waitForResourceToReachState_from fuel (int64 (i + 1)) getResourceState id
         waitStates terminalState maxRetries waitDuration
     else if String.eqb state terminalState then ret tt
     else fail (fmt_Errorf
                  "unexpected resource state %q, expecting a waiting state %s or terminal state  %q "
                  [AString state; AStrings waitStates; AString terminalState])).
Proof.
  intros Hcond. cbn [waitForResourceToReachState_from].
  assert ((maxRetries =? 0) || (i <? maxRetries) = true) as ->; [| done].
  apply orb_true_iff. destruct Hcond; [left | right]; lia.
Qed.

(** C2.  An iteration of the poll loop (the loop condition holds:
    [maxRetries] is zero or the counter is below it) fetches the state
    once and then, in this order: on a waiting state it sleeps
    [waitDuration] and goes to the next iteration; otherwise, on the
    terminal state, it returns nil; otherwise it returns at once,
    without a sleep, the error that reports the state, the waiting
    states and the terminal state.  An error of the fetch is returned
    as it is, at once. *)
Theorem poll_iteration (fuel : nat) (i : Z) (w : World St) :
  maxRetries = 0 ∨ i < maxRetries ->
  (∀ state w',
      getResourceState id w = (Returned state, w') -> state ∈ waitStates ->
      (waitForResourceToReachState_from (S fuel) i getResourceState id
         waitStates terminalState maxRetries waitDuration) w
      = waitForResourceToReachState_from fuel (int64 (i + 1)) getResourceState id
         waitStates terminalState maxRetries waitDuration
          (Build_World (service w') (clock w' + Z.max 0 waitDuration) (memory w')
             (log w' ++ [Slept waitDuration])))
  ∧ (∀ state w',
        getResourceState id w = (Returned state, w') -> state ∉ waitStates ->
        state = terminalState ->
        (waitForResourceToReachState_from (S fuel) i getResourceState id
         waitStates terminalState maxRetries waitDuration) w = (Returned tt, w'))
  ∧ (∀ state w',
        getResourceState id w = (Returned state, w') -> state ∉ waitStates ->
        state ≠ terminalState ->
        (waitForResourceToReachState_from (S fuel) i getResourceState id
         waitStates terminalState maxRetries waitDuration) w
        = (Failed (fmt_Errorf
                     "unexpected resource state %q, expecting a waiting state %s or terminal state  %q "
                     [AString state; AStrings waitStates; AString terminalState]), w'))
  ∧ (∀ err w',
        getResourceState id w = (Failed err, w') ->
        (waitForResourceToReachState_from (S fuel) i getResourceState id
         waitStates terminalState maxRetries waitDuration) w = (Failed err, w')).
Proof.
  intros Hcond. rewrite (poll_enters fuel i Hcond). unfold bind. split_and!.
  - intros state w' -> Hin. apply stringSliceContains_elem in Hin. by rewrite Hin.
  - intros state w' -> Hout <-. apply stringSliceContains_not_elem in Hout.
    by rewrite Hout, String.eqb_refl.
  - intros state w' -> Hout Hne. apply stringSliceContains_not_elem in Hout.
    rewrite Hout. by destruct (String.eqb_spec state terminalState).
  - by intros err w' ->.
Qed.

End PollEngine.

(** An iteration that observes the terminal state. *)
Lemma poll_iteration_witness :
  waitForResourceToReachState_from 1 0 (fun _ => ret "RUNNING") "ocid1.instance.oc1..launched"
    ["PROVISIONING"; "STARTING"] "RUNNING" 0 (5 * Second) (Fake.world (Fake.region [] true []))
  = (Returned tt, Fake.world (Fake.region [] true [])).
Proof.
  destruct (poll_iteration (fun _ => ret "RUNNING") "ocid1.instance.oc1..launched"
              ["PROVISIONING"; "STARTING"] "RUNNING" 0 (5 * Second) 0 0
              (Fake.world (Fake.region [] true [])) (or_introl eq_refl))
    as (_ & Hterminal & _).
  apply (Hterminal "RUNNING"); [reflexivity | | reflexivity].
  intros Hin. apply stringSliceContains_elem in Hin. discriminate Hin.
Defined.

(** ** Heaps *)

Section Heaps.

Implicit Types (h : heap) (s : slice) (d : descriptor).

Lemma alloc_spec h a l h' :
  alloc h a = (l, h') -> h !! l = None ∧ h' = <[l := a]> h.
Proof.
  unfold alloc. intros [= <- <-]. split; [| reflexivity].
  apply not_elem_of_dom. apply is_fresh.
Qed.

Lemma alloc_extends h a l h' : alloc h a = (l, h') -> h ⊆ h'.
Proof.
  intros [Hl ->]%alloc_spec. by apply insert_subseteq.
Qed.

Lemma read_ints_extends h h' s :
  h ⊆ h' -> live_ints h s -> read_ints h' s = read_ints h s ∧ live_ints h' s.
Proof.
  intros Hsub. destruct s as [| l n]; [done |].
  intros (cells & Hl & Hn). cbn.
  rewrite Hl, (lookup_weaken _ _ _ _ Hl Hsub). eauto.
Qed.

Lemma read_strings_extends h h' s :
  h ⊆ h' -> live_strings h s -> read_strings h' s = read_strings h s ∧ live_strings h' s.
Proof.
  intros Hsub. destruct s as [| l n]; [done |].
  intros (cells & Hl & Hn). cbn.
  rewrite Hl, (lookup_weaken _ _ _ _ Hl Hsub). eauto.
Qed.

Lemma marshal_extends h h' d :
  h ⊆ h' -> live_descriptor h d ->
  marshal_descriptor h' d = marshal_descriptor h d ∧ live_descriptor h' d.
Proof.
  intros Hsub. destruct d as [src dv | src dv vs | src dv vs | src]; cbn; try done.
  - intros Hl. destruct (read_ints_extends _ _ _ Hsub Hl) as [-> ?]. done.
  - intros Hl. destruct (read_strings_extends _ _ _ Hsub Hl) as [-> ?]. done.
Qed.

Lemma live_ints_length h s : live_ints h s -> length (read_ints h s) = slice_len s.
Proof.
  destruct s as [| l n]; [done |]. intros (cells & Hl & Hn). cbn.
  rewrite Hl, length_take. lia.
Qed.

Lemma live_strings_length h s : live_strings h s -> length (read_strings h s) = slice_len s.
Proof.
  destruct s as [| l n]; [done |]. intros (cells & Hl & Hn). cbn.
  rewrite Hl, length_take. lia.
Qed.

Lemma overwrite_all {A} (src dst : list A) (n : nat) :
  length src = n -> length dst = n -> overwrite src dst (n `min` n) = src.
Proof.
  intros Hsrc Hdst. unfold overwrite. rewrite Nat.min_id.
  rewrite take_ge, drop_ge by lia. apply app_nil_r.
Qed.

(** [make] followed by [copy]: a fresh array with the elements of the
    source. *)
Lemma make_copy_ints h src dst h1 :
  live_ints h src ->
  make_ints h (slice_len src) = (dst, h1) ->
  ∃ l, dst = Slice l (slice_len src) ∧ h !! l = None
       ∧ copy_ints h1 dst src = <[l := IntArray (read_ints h src)]> h.
Proof.
  intros Hlive. unfold make_ints.
  destruct (alloc h _) as [l h0] eqn:Ha. intros [= <- <-].
  apply alloc_spec in Ha as [Hfresh ->].
  exists l. split_and!; [done | done |].
  unfold copy_ints. rewrite lookup_insert_eq.
  assert (read_ints (<[l := IntArray (replicate (slice_len src) 0)]> h) src = read_ints h src) as ->.
  { apply read_ints_extends; [by apply insert_subseteq | done]. }
  rewrite insert_insert_eq. f_equal. f_equal.
  apply overwrite_all; [by apply live_ints_length | apply length_replicate].
Qed.

Lemma make_copy_strings h src dst h1 :
  live_strings h src ->
  make_strings h (slice_len src) = (dst, h1) ->
  ∃ l, dst = Slice l (slice_len src) ∧ h !! l = None
       ∧ copy_strings h1 dst src = <[l := StringArray (read_strings h src)]> h.
Proof.
  intros Hlive. unfold make_strings.
  destruct (alloc h _) as [l h0] eqn:Ha. intros [= <- <-].
  apply alloc_spec in Ha as [Hfresh ->].
  exists l. split_and!; [done | done |].
  unfold copy_strings. rewrite lookup_insert_eq.
  assert (read_strings (<[l := StringArray (replicate (slice_len src) "")]> h) src
          = read_strings h src) as ->.
  { apply read_strings_extends; [by apply insert_subseteq | done]. }
  rewrite insert_insert_eq. f_equal. f_equal.
  apply overwrite_all; [by apply live_strings_length | apply length_replicate].
Qed.

End Heaps.

(** ** The copy of the global schema *)

Section Copy.

Implicit Types (h : heap) (val : descriptor) (m : gmap string descriptor).

Lemma fresh_in_weaken h h1 val : h ⊆ h1 -> fresh_in h1 val -> fresh_in h val.
Proof.
  intros Hsub. destruct val as [| ? ? [| l n] | ? ? [| l n] |]; cbn; try done.
  all: intros Hl; by eapply lookup_weaken_None.
Qed.

Lemma copyDescriptor_spec key val m h m' h' :
  live_descriptor h val ->
  copyDescriptor key val (m, h) = (m', h') ->
  h ⊆ h' ∧
  match image_copy (marshal_descriptor h val) with
  | Some c =>
      ∃ copy, m' = <[key := copy]> m ∧ marshal_descriptor h' copy = c
              ∧ live_descriptor h' copy ∧ fresh_in h copy
  | None => m' = m ∧ h' = h
  end.
Proof.
  intros Hlive. unfold copyDescriptor.
  destruct val as [src dv | src dv vs | src dv vs | src]; cbn [as_Boolean as_EnumInteger as_EnumString].
  - intros [= <- <-]. split; [done |]. cbn. eexists. split_and!; done.
  - destruct (make_ints h (slice_len vs)) as [destArr h1] eqn:Hmake.
    destruct (make_copy_ints h vs destArr h1 Hlive Hmake) as (l & -> & Hfresh & ->).
    intros [= <- <-]. split; [by apply insert_subseteq |].
    cbn. eexists. split_and!; [done | | |]; cbn.
    + rewrite lookup_insert_eq. f_equal. apply take_ge.
      cbn in Hlive. rewrite (live_ints_length h vs Hlive). lia.
    + eexists. rewrite lookup_insert_eq. split; [done |].
      cbn in Hlive. rewrite (live_ints_length h vs Hlive). lia.
    + done.
  - destruct (make_strings h (slice_len vs)) as [destArr h1] eqn:Hmake.
    destruct (make_copy_strings h vs destArr h1 Hlive Hmake) as (l & -> & Hfresh & ->).
    intros [= <- <-]. split; [by apply insert_subseteq |].
    cbn. eexists. split_and!; [done | | |]; cbn.
    + rewrite lookup_insert_eq. f_equal. apply take_ge.
      cbn in Hlive. rewrite (live_strings_length h vs Hlive). lia.
    + eexists. rewrite lookup_insert_eq. split; [done |].
      cbn in Hlive. rewrite (live_strings_length h vs Hlive). lia.
    + done.
  - intros [= <- <-]. done.
Qed.

Lemma copySchemaData_in_spec order h :
  NoDup order.*1 ->
  Forall (λ kv, live_descriptor h kv.2) order ->
  ∀ new h', copySchemaData_in order h = (new, h') ->
  h ⊆ h'
  ∧ map_Forall (λ _ copy, live_descriptor h' copy ∧ fresh_in h copy) new
  ∧ ∀ k c, marshal_schema h' new !! k = Some c
           ↔ ∃ val, (k, val) ∈ order ∧ image_copy (marshal_descriptor h val) = Some c.
Proof.
  unfold copySchemaData_in.
  induction order as [| [key val] order IH] using rev_ind; intros Hnd Hlive new h'.
  - cbn. intros [= <- <-]. split_and!; [done | apply map_Forall_empty |].
    intros k c. unfold marshal_schema. rewrite lookup_fmap, lookup_empty. cbn.
    split; [done |]. intros (val & Hin & _). by apply elem_of_nil in Hin.
  - rewrite foldl_app. cbn [foldl].
    destruct (foldl _ (∅, h) order) as [m1 h1] eqn:Hfold.
    rewrite fmap_app in Hnd. apply NoDup_app in Hnd as (Hnd & Hkey & _).
    apply Forall_app in Hlive as [Hlive Hval]. apply Forall_inv in Hval. cbn in Hval.
    destruct (IH Hnd Hlive m1 h1 eq_refl) as (Hsub & Hall & Hlook).
    destruct (marshal_extends h h1 val Hsub Hval) as [Heq Hval1].
    intros Hstep. apply (copyDescriptor_spec _ _ _ _ _ _ Hval1) in Hstep as [Hsub1 Hcase].
    rewrite Heq in Hcase.
    assert (key ∉ order.*1) as Hfreshkey.
    { intros Hin. apply (Hkey key Hin). cbn. apply list_elem_of_here. }
    split; [by etrans |].
    assert (∀ k c,
               (∃ v, (k, v) ∈ order ++ [(key, val)] ∧ image_copy (marshal_descriptor h v) = Some c)
               ↔ (k = key ∧ image_copy (marshal_descriptor h val) = Some c)
                 ∨ (k ≠ key ∧ ∃ v, (k, v) ∈ order ∧ image_copy (marshal_descriptor h v) = Some c))
      as Hsplit.
    { intros k c. split.
      - intros (v & Hin & Hc). apply elem_of_app in Hin as [Hin | Hin].
        + right. split; [| eauto]. intros ->. apply Hfreshkey.
          apply list_elem_of_fmap. by exists (key, v).
        + apply list_elem_of_singleton in Hin as [= -> ->]. by left.
      - intros [[-> Hc] | [_ (v & Hin & Hc)]].
        + exists val. split; [| done]. apply elem_of_app. right. apply list_elem_of_here.
        + exists v. split; [| done]. apply elem_of_app. by left. }
    destruct (image_copy (marshal_descriptor h val)) as [c0 |] eqn:Hcopy.
    + destruct Hcase as (copy & -> & Hm & Hl & Hf). split.
      * apply map_Forall_insert_2.
        { split; [done |]. by eapply fresh_in_weaken. }
        eapply map_Forall_impl; [exact Hall |]. cbn. intros k d' [Hd' ?].
        split; [| done]. by apply (marshal_extends h1 h' d' Hsub1).
      * intros k c. rewrite Hsplit. unfold marshal_schema. rewrite lookup_fmap.
        destruct (decide (k = key)) as [-> | Hne].
        -- rewrite lookup_insert_eq. cbn. rewrite Hm. intuition congruence.
        -- rewrite lookup_insert_ne by done. rewrite <- Hlook.
           unfold marshal_schema. rewrite lookup_fmap.
           destruct (m1 !! k) as [d1 |] eqn:Hk; cbn; [| intuition congruence].
           destruct (Hall k d1 Hk) as [Hd1 _].
           destruct (marshal_extends h1 h' d1 Hsub1 Hd1) as [-> _]. intuition congruence.
    + destruct Hcase as [-> ->]. split; [done |].
      intros k c. rewrite Hsplit, Hlook. split.
      * intros Hv. right. split; [| done]. intros ->. destruct Hv as (v & Hin & _).
        apply Hfreshkey. apply list_elem_of_fmap. by exists (key, v).
      * intros [[_ [=]] | [_ Hv]]. done.
Qed.

End Copy.

Section Decoding.

Implicit Types (h : heap).

Lemma unmarshal_descriptor_spec h (wd : wire_descriptor) d h' :
  unmarshal_descriptor h wd = (d, h') ->
  h ⊆ h' ∧ live_descriptor h' d ∧ marshal_descriptor h' d = wd.
Proof.
  destruct wd as [src dv | src dv vs | src dv vs | src]; cbn.
  - intros [= <- <-]. done.
  - unfold ints_literal. destruct (alloc h (IntArray vs)) as [l h1] eqn:Ha.
    intros [= <- <-]. pose proof (alloc_extends _ _ _ _ Ha) as Hsub.
    apply alloc_spec in Ha as [_ ->]. split; [done |]. cbn.
    rewrite lookup_insert_eq. split; [by eexists |]. f_equal. by apply take_ge.
  - unfold strings_literal. destruct (alloc h (StringArray vs)) as [l h1] eqn:Ha.
    intros [= <- <-]. pose proof (alloc_extends _ _ _ _ Ha) as Hsub.
    apply alloc_spec in Ha as [_ ->]. split; [done |]. cbn.
    rewrite lookup_insert_eq. split; [by eexists |]. f_equal. by apply take_ge.
  - intros [= <- <-]. done.
Qed.

Lemma unmarshal_entries_spec (l : list (string * wire_descriptor)) :
  ∀ h l' h', unmarshal_entries h l = (l', h') ->
  h ⊆ h'
  ∧ Forall (λ kv, live_descriptor h' kv.2) l'
  ∧ prod_map id (marshal_descriptor h') <$> l' = l.
Proof.
  induction l as [| [k wd] rest IH]; intros h l' h'; cbn.
  - intros [= <- <-]. done.
  - destruct (unmarshal_descriptor h wd) as [d h1] eqn:Hd.
    destruct (unmarshal_entries h1 rest) as [rest' h2] eqn:Hrest.
    intros [= <- <-].
    apply unmarshal_descriptor_spec in Hd as (Hsub1 & Hlive & Hm).
    apply IH in Hrest as (Hsub2 & Hall & Heq).
    destruct (marshal_extends h1 h2 d Hsub2 Hlive) as [Hm2 Hlive2].
    split; [by etrans |]. split; [by constructor |].
    rewrite fmap_cons, Heq. cbn. by rewrite Hm2, Hm.
Qed.

Lemma unmarshal_schema_spec h (m : gmap string wire_descriptor) m' h' :
  unmarshal_schema h m = (m', h') ->
  h ⊆ h'
  ∧ map_Forall (λ _ d, live_descriptor h' d) m'
  ∧ marshal_schema h' m' = m.
Proof.
  unfold unmarshal_schema.
  destruct (unmarshal_entries h (map_to_list m)) as [l h1] eqn:Hl.
  intros [= <- <-]. apply unmarshal_entries_spec in Hl as (Hsub & Hall & Heq).
  split; [done |]. split.
  - intros k d Hk. apply elem_of_list_to_map_2 in Hk.
    rewrite Forall_forall in Hall. by apply (Hall (k, d)).
  - unfold marshal_schema. rewrite <- list_to_map_fmap, Heq.
    apply list_to_map_to_list.
Qed.

Lemma unmarshal_schema_opt_spec h (m : option (gmap string wire_descriptor)) m' h' :
  unmarshal_schema_opt h m = (m', h') ->
  h ⊆ h'
  ∧ (∀ data, m' = Some data -> map_Forall (λ _ d, live_descriptor h' d) data)
  ∧ marshal_schema_opt h' m' = m.
Proof.
  destruct m as [m |]; cbn.
  - destruct (unmarshal_schema h m) as [data h1] eqn:Hm. intros [= <- <-].
    apply unmarshal_schema_spec in Hm as (? & ? & ?).
    split; [done |]. split; [by intros ? [= <-] |]. cbn. by f_equal.
  - intros [= <- <-]. done.
Qed.

Lemma marshal_schema_extends h h' (m : gmap string descriptor) :
  h ⊆ h' -> map_Forall (λ _ d, live_descriptor h d) m ->
  marshal_schema h' m = marshal_schema h m
  ∧ map_Forall (λ _ d, live_descriptor h' d) m.
Proof.
  intros Hsub Hall. split.
  - apply map_eq. intros k. unfold marshal_schema. rewrite !lookup_fmap.
    destruct (m !! k) as [d |] eqn:Hk; [| done]. cbn. f_equal.
    by apply marshal_extends, (Hall k).
  - intros k d Hk. by apply (marshal_extends h h' d Hsub), (Hall k).
Qed.

(** The first schema of a decoded list. *)
Lemma unmarshal_summaries_head h item rest l' h' :
  unmarshal_summaries h (item :: rest) = (l', h') ->
  ∃ h1 data rest',
    l' = {| Schema_Id := Schema_Id item; Schema_SchemaData := data |} :: rest'
    ∧ h1 ⊆ h'
    ∧ (∀ m, data = Some m -> map_Forall (λ _ d, live_descriptor h1 d) m)
    ∧ marshal_schema_opt h1 data = Schema_SchemaData item.
Proof.
  cbn. destruct (unmarshal_schema_opt h (Schema_SchemaData item)) as [data h1] eqn:Hd.
  destruct (unmarshal_summaries h1 rest) as [rest' h2] eqn:Hrest.
  intros [= <- <-]. exists h1, data, rest'.
  apply unmarshal_schema_opt_spec in Hd as (_ & Hlive & Hm).
  split_and!; [done | | done | done].
  clear -Hrest. revert h1 rest' h2 Hrest.
  induction rest as [| it rest IH]; intros h1 rest' h2; cbn.
  - by intros [= <- <-].
  - destruct (unmarshal_schema_opt h1 _) as [data h3] eqn:Hd.
    destruct (unmarshal_summaries h3 rest) as [rest'' h4] eqn:Hrest.
    intros [= <- <-]. apply unmarshal_schema_opt_spec in Hd as (? & _).
    apply IH in Hrest. by etrans.
Qed.

Lemma unmarshal_summaries_nil h l' h' :
  unmarshal_summaries h [] = (l', h') -> l' = [] ∧ h' = h.
Proof. by intros [= <- <-]. Qed.

Lemma unmarshal_summaries_length l :
  ∀ h l' h', unmarshal_summaries h l = (l', h') -> length l' = length l.
Proof.
  induction l as [| it rest IH]; intros h l' h'; cbn.
  - by intros [= <- <-].
  - destruct (unmarshal_schema_opt h _) as [data h1].
    destruct (unmarshal_summaries h1 rest) as [rest' h2] eqn:Hrest.
    intros [= <- <-]. cbn. f_equal. by eapply IH.
Qed.

End Decoding.

Section CopyIsolation.

Implicit Types (h : heap).

Lemma marshal_after_foreign_store h h' l a val :
  h ⊆ h' -> h !! l = None -> live_descriptor h val ->
  marshal_descriptor (<[l := a]> h') val = marshal_descriptor h val.
Proof.
  intros Hsub Hl Hlive.
  destruct val as [| src dv [| l' n] | src dv [| l' n] |]; cbn in *; try done.
  - destruct Hlive as (cells & Hc & _). rewrite Hc.
    rewrite lookup_insert_ne by congruence.
    by rewrite (lookup_weaken _ _ _ _ Hc Hsub).
  - destruct Hlive as (cells & Hc & _). rewrite Hc.
    rewrite lookup_insert_ne by congruence.
    by rewrite (lookup_weaken _ _ _ _ Hc Hsub).
Qed.

Lemma enumerates_NoDup {A} (m : gmap string A) order :
  order ≡ₚ map_to_list m -> NoDup order.*1.
Proof. intros ->. apply NoDup_fst_map_to_list. Qed.

Lemma enumerates_elem {A} (m : gmap string A) order k v :
  order ≡ₚ map_to_list m -> (k, v) ∈ order ↔ m !! k = Some v.
Proof. intros ->. apply elem_of_map_to_list. Qed.

Lemma copySchemaData_in_lookup (SchemaData : gmap string descriptor) order h new h' :
  order ≡ₚ map_to_list SchemaData ->
  map_Forall (λ _ val, live_descriptor h val) SchemaData ->
  copySchemaData_in order h = (new, h') ->
  h ⊆ h'
  ∧ map_Forall (λ _ copy, live_descriptor h' copy ∧ fresh_in h copy) new
  ∧ marshal_schema h' new = omap image_copy (marshal_schema h SchemaData).
Proof.
  intros Horder Hlive Hcopy.
  destruct (copySchemaData_in_spec order h (enumerates_NoDup _ _ Horder)) with (new := new) (h' := h')
    as (Hsub & Hall & Hlook); [| done |].
  { apply Forall_forall. intros [k v] Hin. apply (enumerates_elem _ _ _ _ Horder) in Hin.
    by apply (Hlive k). }
  split_and!; [done | done |].
  apply map_eq. intros k. rewrite lookup_omap. unfold marshal_schema at 2. rewrite lookup_fmap.
  apply option_eq. intros c. rewrite Hlook. split.
  - intros (val & Hin & Hc). apply (enumerates_elem _ _ _ _ Horder) in Hin. by rewrite Hin.
  - destruct (SchemaData !! k) as [val |] eqn:Hk; [| done]. cbn. intros Hc.
    exists val. split; [| done]. by apply (enumerates_elem _ _ _ _ Horder).
Qed.

End CopyIsolation.

(** C4.  Whatever the order in which the loop visits the keys of the
    global schema, every descriptor of a known type has a copy under
    its key in the new schema data: the copy has the source [IMAGE], an
    equal default value and an equal sequence of allowed values (it is
    the [image_copy] of the descriptor), and the array of its allowed
    values is its own: after an element is stored through the copy,
    every descriptor of the global schema reads as it did. *)
Theorem copy_relabels_and_isolates (SchemaData : gmap string descriptor)
    (order : list (string * descriptor)) (h : heap)
    (newSchemaData : gmap string descriptor) (h' : heap) :
  order ≡ₚ map_to_list SchemaData ->
  map_Forall (λ _ val, live_descriptor h val) SchemaData ->
  copySchemaData_in order h = (newSchemaData, h') ->
  ∀ key val,
    SchemaData !! key = Some val ->
    (∀ src, val ≠ UnknownImageCapabilitySchemaDescriptor src) ->
    ∃ copy,
      newSchemaData !! key = Some copy
      ∧ descriptor_source copy = "IMAGE"
      ∧ image_copy (marshal_descriptor h val) = Some (marshal_descriptor h' copy)
      ∧ ∀ h'', mutated_through h' copy h'' ->
               ∀ key' val', SchemaData !! key' = Some val' ->
                            marshal_descriptor h'' val' = marshal_descriptor h val'.
Proof.
  intros Horder Hlive Hcopy key val Hkey Hknown.
  destruct (copySchemaData_in_lookup SchemaData order h newSchemaData h' Horder Hlive Hcopy)
    as (Hsub & Hall & Hwire).
  assert (marshal_schema h' newSchemaData !! key = image_copy (marshal_descriptor h val)) as Hk.
  { rewrite Hwire, lookup_omap. unfold marshal_schema. by rewrite lookup_fmap, Hkey. }
  unfold marshal_schema in Hk. rewrite lookup_fmap in Hk.
  destruct (newSchemaData !! key) as [copy |] eqn:Hnew.
  2:{ destruct val; cbn in Hk; try done. by destruct (Hknown Source). }
  exists copy. cbn in Hk. destruct (Hall key copy Hnew) as [Hcl Hfresh].
  split_and!; [done | | done |].
  - destruct val, copy; cbn in Hk |- *; congruence.
  - intros h'' Hmut key' val' Hkey'.
    pose proof (Hlive key' val' Hkey') as Hlive'.
    destruct copy as [| src dv [| l n] | src dv [| l n] |]; cbn in Hmut, Hfresh; try done.
    + by destruct Hmut as (i & v & [=]).
    + destruct Hmut as (i & v & Hstore).
      destruct (h' !! l) as [[cells | cells] |]; try done.
      destruct (decide (i < n)%nat); [| done]. injection Hstore as <-.
      by apply marshal_after_foreign_store.
    + by destruct Hmut as (i & v & [=]).
    + destruct Hmut as (i & v & Hstore).
      destruct (h' !! l) as [[cells | cells] |]; try done.
      destruct (decide (i < n)%nat); [| done]. injection Hstore as <-.
      by apply marshal_after_foreign_store.
Qed.

(** The copy of an integer enumeration. *)
Lemma copy_relabels_and_isolates_witness :
  ∃ copy,
    (copySchemaData_in (map_to_list Fake.decoded_data) Fake.decoded_heap).1 !! "Network.Queues"
    = Some copy
    ∧ descriptor_source copy = "IMAGE"
    ∧ marshal_descriptor (copySchemaData_in (map_to_list Fake.decoded_data) Fake.decoded_heap).2 copy
      = EnumIntegerImageCapabilityDescriptor "IMAGE" (Some 1) [1; 2; 4].
Proof.
  assert (map_Forall (λ _ val, live_descriptor Fake.decoded_heap val) Fake.decoded_data) as Hlive.
  { apply map_Forall_singleton. cbn. exists [1; 2; 4]. split; [reflexivity | cbn; lia]. }
  destruct (copy_relabels_and_isolates Fake.decoded_data (map_to_list Fake.decoded_data)
              Fake.decoded_heap _ _ (reflexivity _) Hlive (surjective_pairing _)
              "Network.Queues" _ (lookup_singleton_eq _ _) ltac:(discriminate))
    as (copy & Hnew & Hsrc & Hwire & _).
  exists copy. split_and!; [exact Hnew | exact Hsrc |].
  cbn in Hwire. by injection Hwire as <-.
Defined.

(** ** What the computations add to the log *)


Section Emits.

Context {St : Type}.
Variable P : Event -> Prop.

Lemma emits_nothing {A} (m : M St A) :
  (∀ w, log (snd (m w)) = log w) -> emits P m.
Proof. intros H w. exists []. rewrite H, app_nil_r. by split. Qed.

Lemma emits_ret {A} (a : A) : emits P (ret (St := St) a).
Proof. by apply emits_nothing. Qed.

Lemma emits_fail {A} (e : error) : emits P (fail (St := St) (A := A) e).
Proof. by apply emits_nothing. Qed.

Lemma emits_panic {A} (msg : string) : emits P (panic (St := St) (A := A) msg).
Proof. by apply emits_nothing. Qed.

Lemma emits_out_of_fuel {A} : emits P (out_of_fuel (St := St) (A := A)).
Proof. by apply emits_nothing. Qed.

Lemma emits_deref {A} (p : option A) : emits P (deref (St := St) p).
Proof. destruct p; [apply emits_ret | apply emits_panic]. Qed.

Lemma emits_index0 {A} (s : list A) : emits P (index0 (St := St) s).
Proof. destruct s; [apply emits_panic | apply emits_ret]. Qed.

Lemma emits_with_memory {A} (f : heap -> A * heap) : emits P (with_memory (St := St) f).
Proof. apply emits_nothing. intros w. unfold with_memory. by destruct (f (memory w)). Qed.

Lemma emits_read_memory {A} (f : heap -> A) : emits P (read_memory (St := St) f).
Proof. by apply emits_nothing. Qed.

Lemma emits_TimeOrderedUUID (rt : Runtime St) : emits P (TimeOrderedUUID rt).
Proof.
  apply emits_nothing. intros w. unfold TimeOrderedUUID.
  by destruct (uuid_TimeOrderedUUID rt (service w)).
Qed.

Lemma emits_bind {A B} (m : M St A) (k : A -> M St B) :
  emits P m -> (∀ a, emits P (k a)) -> emits P (bind m k).
Proof.
  intros Hm Hk w. unfold bind. destruct (Hm w) as (evs & Hlog & Hall).
  destruct (m w) as [[a | e | msg |] w1]; cbn in Hlog; try by (exists evs).
  destruct (Hk a w1) as (evs' & Hlog' & Hall').
  exists (evs ++ evs'). rewrite Hlog', Hlog, app_assoc. split; [done |].
  by apply Forall_app.
Qed.

Lemma emits_invoke {R} (h : handler St R) (ctx : context) (req : Request) :
  P (Called ctx req) -> emits P (invoke h ctx req).
Proof.
  intros HP w. exists [Called ctx req]. unfold invoke.
  destruct (h ctx (clock w) req (service w)) as [[a | e] s']; cbn; by split; [| constructor].
Qed.

Lemma emits_time_Sleep (d : Duration) : P (Slept d) -> emits P (time_Sleep (St := St) d).
Proof. intros HP w. exists [Slept d]. cbn. by split; [| constructor]. Qed.

End Emits.

Lemma emits_weaken {St A} (P Q : Event -> Prop) (m : M St A) :
  (∀ e, P e -> Q e) -> emits P m -> emits Q m.
Proof.
  intros HPQ Hm w. destruct (Hm w) as (evs & Hlog & Hall).
  exists evs. split; [done |]. by eapply Forall_impl.
Qed.

Ltac emits :=
  repeat first
    [ apply emits_ret | apply emits_fail | apply emits_panic | apply emits_out_of_fuel
    | apply emits_deref | apply emits_index0 | apply emits_with_memory
    | apply emits_read_memory | apply emits_TimeOrderedUUID
    | apply emits_time_Sleep | apply emits_invoke
    | apply emits_bind; [| intros ?]
    | match goal with
      | |- emits _ (if ?b then _ else _) => destruct b
      | |- emits _ (match ?x with _ => _ end) => destruct x
      end ].

Section DriverEmits.

Context {St : Type}.
Variable rt : Runtime St.
Variable d : driverOCI St.
Variable P : Event -> Prop.

Lemma emits_poll (getResourceState : string -> M St string) (id : string)
    (waitStates : list string) (terminalState : string) (maxRetries : Z)
    (waitDuration : Duration) :
  (∀ x, emits P (getResourceState x)) -> P (Slept waitDuration) ->
  ∀ fuel i,
    emits P (waitForResourceToReachState_from fuel i getResourceState id
               waitStates terminalState maxRetries waitDuration).
Proof.
  intros Hget Hsleep fuel. induction fuel as [| fuel IH]; intros i; cbn.
  - emits.
  - destruct (_ || _); [| emits].
    apply emits_bind; [apply Hget | intros state].
    destruct (stringSliceContains waitStates state).
    + apply emits_bind; [by apply emits_time_Sleep | intros _]. apply IH.
    + emits.
Qed.

Lemma emits_firstMatching (re : Regexp rt) (items : list core_Image) (imageId : option string) :
  emits P (firstMatching rt re items imageId).
Proof. induction items as [| image rest IH]; cbn; emits. apply IH. Qed.

Lemma emits_findBaseImage (ctx : context) :
  (∀ Page, P (Called ctx (listImagesRequest d Page))) ->
  ∀ fuel Page imageId, emits P (findBaseImage rt d fuel ctx Page imageId).
Proof.
  intros HP fuel. induction fuel as [| fuel IH]; intros Page imageId; cbn.
  - emits.
  - destruct (_ && _); [| emits].
    apply emits_bind; [by apply emits_invoke | intros response].
    destruct (_ && _); [emits |].
    apply emits_bind; [| intros; apply IH].
    destruct (DisplayNameSearch _); [| emits].
    destruct (regexp_Compile _ _); [| emits].
    apply emits_bind; [apply emits_firstMatching | intros; emits].
Qed.

Lemma emits_GetInstanceIP (ctx : context) (id : string) :
  (∀ req, request_metadata req = requestMetadata -> P (Called ctx req)) ->
  emits P (GetInstanceIP d ctx id).
Proof.
  intros HP. unfold GetInstanceIP.
  apply emits_bind; [by apply emits_invoke, HP | intros vnics].
  destruct vnics as [| first rest]; [emits |].
  intros w.
  destruct (emits_invoke P (vcn_GetVnic (vcnClient d)) ctx
              (GetVnicRequest (VnicId first) requestMetadata)
              (HP (GetVnicRequest (VnicId first) requestMetadata) eq_refl) w)
    as (evs & Hlog & Hall).
  exists evs. split; [| done].
  destruct (invoke _ _ _ w) as [[vnic | e | msg |] w1]; cbn in *; try done.
  destruct (UsePrivateIP (cfg d)).
  - destruct (PrivateIp vnic); done.
  - destruct (PublicIp vnic); done.
Qed.

End DriverEmits.

Lemma invoke_then {St R B} (h : handler St R) (ctx : context) (req : Request)
    (k : R -> M St B) (w : World St) :
  (∀ a, emits (λ _, True) (k a)) ->
  ∃ evs, log (snd (bind (invoke h ctx req) k w)) = log w ++ Called ctx req :: evs.
Proof.
  intros Hk. rewrite bind_run. unfold invoke.
  destruct (h ctx (clock w) req (service w)) as [[a | e] s'].
  - destruct (Hk a (Build_World s' (clock w) (memory w) (log w ++ [Called ctx req])))
      as (evs & Hlog & _).
    exists evs. rewrite Hlog. cbn [log]. by rewrite <- app_assoc.
  - by exists [].
Qed.

(** ** The runs of the reconciliation *)

Lemma customFields_idempotent (c : Config) (m : gmap string wire_descriptor) :
  customFields c (customFields c m) = customFields c m.
Proof.
  unfold customFields.
  destruct (decide (LaunchMode c ≠ "")), (decide (NicAttachmentType c ≠ "")); try done.
  - apply map_eq. intros k.
    destruct (decide (k = "Network.AttachmentType")) as [-> | ?];
      [by rewrite !lookup_insert_eq |].
    rewrite !(lookup_insert_ne _ "Network.AttachmentType") by done.
    destruct (decide (k = "Compute.LaunchMode")) as [-> | ?];
      [by rewrite !lookup_insert_eq |].
    by rewrite !(lookup_insert_ne _ "Compute.LaunchMode"),
      !(lookup_insert_ne _ "Network.AttachmentType"),
      !(lookup_insert_ne _ "Compute.LaunchMode") by done.
  - by rewrite insert_insert_eq.
  - by rewrite insert_insert_eq.
Qed.


Section CustomFields.

Implicit Types (h : heap) (m : gmap string descriptor).

Lemma assign_literal h m key dv values Values h' :
  map_Forall (λ _ val, live_descriptor h val) m ->
  strings_literal h values = (Values, h') ->
  marshal_schema h' (<[key := EnumStringImageCapabilitySchemaDescriptor "IMAGE" dv Values]> m)
  = <[key := EnumStringImageCapabilitySchemaDescriptor "IMAGE" dv values]> (marshal_schema h m)
  ∧ map_Forall (λ _ val, live_descriptor h' val)
      (<[key := EnumStringImageCapabilitySchemaDescriptor "IMAGE" dv Values]> m).
Proof.
  intros Hlive. unfold strings_literal.
  destruct (alloc h (StringArray values)) as [l h1] eqn:Ha. intros [= <- <-].
  pose proof (alloc_extends _ _ _ _ Ha) as Hsub.
  apply alloc_spec in Ha as [_ ->].
  destruct (marshal_schema_extends _ _ m Hsub Hlive) as [Heq Hlive'].
  split.
  - unfold marshal_schema in *. rewrite fmap_insert, Heq. f_equal. cbn.
    rewrite lookup_insert_eq. f_equal. by apply take_ge.
  - apply map_Forall_insert_2; [| done]. cbn. rewrite lookup_insert_eq. by eexists.
Qed.

End CustomFields.

Section Reconciliation.

Context {St : Type}.
Variable rt : Runtime St.
Variable d : driverOCI St.

Lemma listSchemas_run (ctx : context) (imageId : string) (w : World St) :
  listSchemas d ctx imageId w
  = match compute_ListComputeImageCapabilitySchemas (computeClient d) ctx (clock w)
            (listSchemasRequest imageId) (service w) with
    | (inl items, s1) =>
        (Returned (unmarshal_summaries (memory w) items).1,
         Build_World s1 (clock w) (unmarshal_summaries (memory w) items).2
           (log w ++ [Called ctx (listSchemasRequest imageId)]))
    | (inr err, s1) =>
        (Failed err, Build_World s1 (clock w) (memory w) (log w ++ [Called ctx (listSchemasRequest imageId)]))
    end.
Proof.
  unfold listSchemas, bind, invoke.
  destruct (compute_ListComputeImageCapabilitySchemas _ _ _ _ _) as [[items | err] s1]; [| done].
  unfold with_memory. cbn. by destruct (unmarshal_summaries (memory w) items).
Qed.

(** The custom fields, on a list whose first schema has data. *)
Lemma addCustomFields_data first_id m rest (w : World St) :
  map_Forall (λ _ val, live_descriptor (memory w) val) m ->
  ∃ m' h',
    addCustomFields d ({| Schema_Id := first_id; Schema_SchemaData := Some m |} :: rest) w
    = (Returned ({| Schema_Id := first_id; Schema_SchemaData := Some m' |} :: rest),
       Build_World (service w) (clock w) h' (log w))
    ∧ marshal_schema h' m' = customFields (cfg d) (marshal_schema (memory w) m).
Proof.
  destruct w as [s c h lg]. cbn [memory service clock log]. intros Hlive.
  unfold addCustomFields, customFields, bind.
  destruct (decide (LaunchMode (cfg d) ≠ "")) as [HL | HL].
  - unfold with_memory at 1. cbn [memory service clock log].
    destruct (strings_literal h _) as [V1 h1] eqn:H1.
    destruct (assign_literal h m "Compute.LaunchMode" (Some (LaunchMode (cfg d))) _ V1 h1 Hlive H1)
      as [Hm1 Hlive1].
    cbn [assignItem0 bind index0 ret Schema_SchemaData Schema_Id tail].
    unfold assignItem0, bind. cbn [index0 ret Schema_SchemaData Schema_Id tail].
    destruct (decide (NicAttachmentType (cfg d) ≠ "")) as [HN | HN].
    + unfold with_memory. cbn [memory service clock log].
      destruct (strings_literal h1 _) as [V2 h2] eqn:H2.
      destruct (assign_literal h1 _ "Network.AttachmentType"
                  (Some (NicAttachmentType (cfg d))) _ V2 h2 Hlive1 H2) as [Hm2 Hlive2].
      cbn [index0 ret Schema_SchemaData Schema_Id tail].
      eexists _, h2. split; [reflexivity |]. by rewrite Hm2, Hm1.
    + eexists _, h1. split; [reflexivity |]. done.
  - cbn [ret].
    destruct (decide (NicAttachmentType (cfg d) ≠ "")) as [HN | HN].
    + unfold with_memory. cbn [memory service clock log].
      destruct (strings_literal h _) as [V2 h2] eqn:H2.
      destruct (assign_literal h m "Network.AttachmentType"
                  (Some (NicAttachmentType (cfg d))) _ V2 h2 Hlive H2) as [Hm2 Hlive2].
      unfold assignItem0, bind. cbn [index0 ret Schema_SchemaData Schema_Id tail].
      eexists _, h2. split; [reflexivity |]. done.
    + eexists m, h. done.
Qed.

(** The custom fields, on a list whose first schema has a nil map. *)
Lemma addCustomFields_nil first_id rest (w : World St) :
  let Items := {| Schema_Id := first_id; Schema_SchemaData := None (A := gmap string descriptor) |} :: rest in
  (LaunchMode (cfg d) = "" ∧ NicAttachmentType (cfg d) = ""
   ∧ addCustomFields d Items w = (Returned Items, w))
  ∨ ((LaunchMode (cfg d) ≠ "" ∨ NicAttachmentType (cfg d) ≠ "")
     ∧ ∃ h', addCustomFields d Items w
             = (Panicked "assignment to entry in nil map",
                Build_World (service w) (clock w) h' (log w))).
Proof.
  intros Items. destruct w as [s c h lg]. cbn [memory service clock log].
  unfold addCustomFields, bind. subst Items.
  destruct (decide (LaunchMode (cfg d) ≠ "")) as [HL | HL].
  - right. split; [by left |]. unfold with_memory at 1. cbn [memory service clock log].
    destruct (strings_literal h _) as [V1 h1] eqn:H1.
    unfold assignItem0, bind. cbn. by eexists.
  - cbn [ret]. destruct (decide (NicAttachmentType (cfg d) ≠ "")) as [HN | HN].
    + right. split; [by right |]. unfold with_memory at 1. cbn [memory service clock log].
      destruct (strings_literal h _) as [V1 h1] eqn:H1.
      unfold assignItem0, bind. cbn. by eexists.
    + left. apply dec_stable in HL, HN. done.
Qed.

End Reconciliation.

Section ExistingSchema.

Context {St : Type}.
Variable rt : Runtime St.
Variable d : driverOCI St.

Lemma finish_run (ctx : context) first_id data rest (w : World St) wire :
  (∀ m, data = Some m -> map_Forall (λ _ val, live_descriptor (memory w) val) m) ->
  marshal_schema_opt (memory w) data = wire ->
  let Items := {| Schema_Id := first_id; Schema_SchemaData := data |} :: rest in
  let req := updateRequest d first_id (customFields (cfg d) <$> wire) in
  (∃ h',
      (do Items <- addCustomFields d Items; updateFirstSchema d ctx Items) w
      = (let '(r, s') := compute_UpdateComputeImageCapabilitySchema (computeClient d) ctx
                           (clock w) req (service w) in
         (match r with inl a => Returned a | inr e => Failed e end,
          Build_World s' (clock w) h' (log w ++ [Called ctx req]))))
  ∨ (wire = None
     ∧ (LaunchMode (cfg d) ≠ "" ∨ NicAttachmentType (cfg d) ≠ "")
     ∧ ∃ h', (do Items <- addCustomFields d Items; updateFirstSchema d ctx Items) w
             = (Panicked "assignment to entry in nil map",
                Build_World (service w) (clock w) h' (log w))).
Proof.
  intros Hlive Hwire Items req. subst Items req.
  destruct data as [m |].
  - left. destruct (addCustomFields_data d first_id m rest w (Hlive m eq_refl))
      as (m' & h' & Hrun & Hm').
    cbn in Hwire. subst wire. exists h'. rewrite bind_run, Hrun.
    unfold updateFirstSchema, bind, index0, ret, read_memory, invoke.
    cbn [memory service clock log Schema_SchemaData Schema_Id marshal_schema_opt fmap option_fmap option_map].
    rewrite Hm'.
    by destruct (compute_UpdateComputeImageCapabilitySchema _ _ _ _ _) as [[r | e] s'].
  - cbn in Hwire. subst wire.
    destruct (addCustomFields_nil d first_id rest w) as [(HL & HN & Hrun) | (Hsome & h' & Hrun)].
    + left. exists (memory w). rewrite bind_run, Hrun.
      unfold updateFirstSchema, bind, index0, ret, read_memory, invoke.
      cbn [memory service clock log Schema_SchemaData Schema_Id marshal_schema_opt fmap option_fmap option_map].
      by destruct (compute_UpdateComputeImageCapabilitySchema _ _ _ _ _) as [[r | e] s'].
    + right. split_and!; [done | done |]. exists h'. by rewrite bind_run, Hrun.
Qed.

End ExistingSchema.

Section ReconcilerRuns.

Context {St : Type}.
Variable rt : Runtime St.
Variable d : driverOCI St.

Lemma emits_listSchemas P ctx imageId :
  P (Called ctx (listSchemasRequest imageId)) -> emits P (listSchemas d ctx imageId).
Proof. intros HP. unfold listSchemas. emits. done. Qed.

Lemma emits_addCustomFields P Items : emits (St := St) P (addCustomFields d Items).
Proof. unfold addCustomFields, assignItem0. emits. Qed.

Lemma emits_updateFirstSchema P ctx Items :
  (∀ id data, P (Called ctx (updateRequest d id data))) ->
  emits P (updateFirstSchema d ctx Items).
Proof. intros HP. unfold updateFirstSchema. emits. apply HP. Qed.

Lemma emits_createFromGlobalSchema P imageId :
  P (Called Background (ListComputeGlobalImageCapabilitySchemasRequest zero_RequestMetadata)) ->
  (∀ id name, P (Called Background
                   (GetComputeGlobalImageCapabilitySchemaVersionRequest id name zero_RequestMetadata))) ->
  (∀ data name token, P (Called Background (createRequest d imageId data name token))) ->
  P (Called Background (listSchemasRequest imageId)) ->
  emits P (createFromGlobalSchema rt d imageId).
Proof.
  intros HG HV HC HL. unfold createFromGlobalSchema. emits; done.
Qed.

Lemma emits_UpdateImageCapabilitySchema P ctx imageId :
  (∀ req, request_metadata req = zero_RequestMetadata ->
          (∀ id data, req ≠ updateRequest d id data) -> P (Called Background req)) ->
  (∀ id data, P (Called ctx (updateRequest d id data))) ->
  emits P (UpdateImageCapabilitySchema rt d ctx imageId).
Proof.
  intros HB HU. unfold UpdateImageCapabilitySchema.
  apply emits_bind; [by apply emits_listSchemas, HB |]. intros Items.
  apply emits_bind.
  - destruct (_ <? _)%nat; [| apply emits_ret].
    apply emits_createFromGlobalSchema; intros; by apply HB.
  - intros Items'. apply emits_bind; [apply emits_addCustomFields |].
    intros Items''. by apply emits_updateFirstSchema.
Qed.

(** Whatever the clients answer, the reconciliation starts with the
    listing of the schemas of the image. *)
Lemma UpdateImageCapabilitySchema_first_call ctx imageId (w : World St) :
  ∃ evs, log (snd (UpdateImageCapabilitySchema rt d ctx imageId w))
         = log w ++ Called Background (listSchemasRequest imageId) :: evs.
Proof.
  unfold UpdateImageCapabilitySchema, listSchemas. rewrite bind_run.
  match goal with
  | |- context [bind (invoke ?h ?c ?r) ?k ?w1] =>
      destruct (invoke_then h c r k w1) as (evs0 & Hlog0)
  end.
  { intros a. apply emits_with_memory. }
  destruct (bind _ _ w) as [[Items | e | msg |] w1]; cbn [snd] in *; try by eexists.
  assert (emits (λ _, True)
            (do Items <- (if (length Items <? 1)%nat then createFromGlobalSchema rt d imageId
                          else ret Items);
             do Items <- addCustomFields d Items;
             updateFirstSchema d ctx Items)) as Hrest.
  { apply emits_bind.
    - destruct (_ <? _)%nat; [by apply emits_createFromGlobalSchema | apply emits_ret].
    - intros Items'. apply emits_bind; [apply emits_addCustomFields |].
      intros Items''. by apply emits_updateFirstSchema. }
  destruct (Hrest w1) as (evs & -> & _). exists (evs0 ++ evs).
  rewrite Hlog0. by rewrite <- app_assoc.
Qed.

(** The run on an image that has a schema. *)
Lemma UpdateImageCapabilitySchema_existing ctx imageId (w : World St) item rest s1 :
  compute_ListComputeImageCapabilitySchemas (computeClient d) Background (clock w)
    (listSchemasRequest imageId) (service w) = (inl (item :: rest), s1) ->
  let run := UpdateImageCapabilitySchema rt d ctx imageId w in
  let req := updateRequest d (Schema_Id item) (customFields (cfg d) <$> Schema_SchemaData item) in
  (∃ h',
      run = (let '(r, s') := compute_UpdateComputeImageCapabilitySchema (computeClient d) ctx
                               (clock w) req s1 in
             (match r with inl a => Returned a | inr e => Failed e end,
              Build_World s' (clock w) h'
                (log w ++ [Called Background (listSchemasRequest imageId); Called ctx req]))))
  ∨ (Schema_SchemaData item = None
     ∧ (LaunchMode (cfg d) ≠ "" ∨ NicAttachmentType (cfg d) ≠ "")
     ∧ ∃ h', run = (Panicked "assignment to entry in nil map",
                    Build_World s1 (clock w) h'
                      (log w ++ [Called Background (listSchemasRequest imageId)]))).
Proof.
  intros Hlist run req. subst run req.
  unfold UpdateImageCapabilitySchema. rewrite bind_run, listSchemas_run, Hlist.
  destruct (unmarshal_summaries (memory w) (item :: rest)) as [Items h1] eqn:Hdec.
  destruct (unmarshal_summaries_head _ _ _ _ _ Hdec) as (h0 & data & rest' & -> & Hsub & Hlive & Hm).
  cbn [fst snd length Nat.ltb Nat.leb]. rewrite bind_run. cbn [ret].
  set (w1 := Build_World s1 (clock w) h1 _).
  assert (∀ m, data = Some m -> map_Forall (λ _ val, live_descriptor (memory w1) val) m) as Hlive1.
  { intros m ->. by apply (marshal_schema_extends h0 h1 m Hsub), Hlive. }
  assert (marshal_schema_opt (memory w1) data = Schema_SchemaData item) as Hm1.
  { rewrite <- Hm. destruct data as [m |]; [| done]. cbn. f_equal.
    by apply (marshal_schema_extends h0 h1 m Hsub), Hlive. }
  destruct (finish_run d ctx (Schema_Id item) data rest' w1 _ Hlive1 Hm1)
    as [(h' & ->) | (Hnone & Hcustom & h' & ->)].
  - left. exists h'. subst w1. cbn [service clock log].
    destruct (compute_UpdateComputeImageCapabilitySchema _ _ _ _ _) as [r s'].
    by rewrite <- app_assoc.
  - right. split_and!; [done | done |]. by exists h'.
Qed.

End ReconcilerRuns.

Lemma copy_of_decoded_version (h : heap)
    (version : core_ComputeGlobalImageCapabilitySchemaVersion wire_descriptor)
    globalSchema h1 newSchemaData h2 :
  unmarshal_version h version = (globalSchema, h1) ->
  copySchemaData (Version_SchemaData globalSchema) h1 = (newSchemaData, h2) ->
  Version_Name globalSchema = Version_Name version
  ∧ marshal_schema h2 newSchemaData
    = omap image_copy (default ∅ (Version_SchemaData version)).
Proof.
  unfold unmarshal_version.
  destruct (unmarshal_schema_opt h (Version_SchemaData version)) as [G h0] eqn:HG.
  intros [= <- <-]. cbn [Version_SchemaData Version_Name]. intros Hcopy.
  apply unmarshal_schema_opt_spec in HG as (_ & Hlive & Hm).
  split; [done |].
  assert (map_Forall (λ _ val, live_descriptor h0 val) (default ∅ G)) as Hlive'.
  { destruct G as [g |]; [by apply Hlive | apply map_Forall_empty]. }
  destruct (copySchemaData_in_lookup (default ∅ G) _ h0 newSchemaData h2
              (reflexivity _) Hlive' Hcopy) as (_ & _ & ->).
  f_equal. rewrite <- Hm. destruct G as [g |]; [done |]. apply fmap_empty.
Qed.

Section CreatedSchema.

Context {St : Type}.
Variable rt : Runtime St.
Variable d : driverOCI St.

Lemma createFromGlobalSchema_log imageId (w : World St) first others s2 version s3 :
  compute_ListComputeGlobalImageCapabilitySchemas (computeClient d) Background (clock w)
    (ListComputeGlobalImageCapabilitySchemasRequest zero_RequestMetadata) (service w)
  = (inl (first :: others), s2) ->
  compute_GetComputeGlobalImageCapabilitySchemaVersion (computeClient d) Background (clock w)
    (GetComputeGlobalImageCapabilitySchemaVersionRequest
       (Global_Id first) (CurrentVersionName first) zero_RequestMetadata) s2
  = (inl version, s3) ->
  ∃ evs,
    log (snd (createFromGlobalSchema rt d imageId w))
    = log w
      ++ [Called Background (ListComputeGlobalImageCapabilitySchemasRequest zero_RequestMetadata);
          Called Background (GetComputeGlobalImageCapabilitySchemaVersionRequest
                               (Global_Id first) (CurrentVersionName first) zero_RequestMetadata);
          Called Background
            (createRequest d imageId
               (omap image_copy (default ∅ (Version_SchemaData version)))
               (Version_Name version) (uuid_TimeOrderedUUID rt s3).1)]
      ++ evs.
Proof.
  intros Hglobal Hversion. unfold createFromGlobalSchema.
  rewrite bind_run. unfold invoke at 1. rewrite Hglobal.
  cbn [length Nat.ltb Nat.leb index0]. rewrite bind_run. cbn [ret].
  rewrite bind_run. unfold invoke at 1. cbn [service clock memory log]. rewrite Hversion.
  rewrite bind_run. unfold with_memory at 1. cbn [service clock memory log].
  destruct (unmarshal_version (memory w) version) as [globalSchema h1] eqn:Hdec.
  rewrite bind_run. unfold with_memory at 1. cbn [service clock memory log].
  destruct (copySchemaData (Version_SchemaData globalSchema) h1) as [newSchemaData h2] eqn:Hcopy.
  destruct (copy_of_decoded_version _ _ _ _ _ _ Hdec Hcopy) as [-> Hdata].
  rewrite bind_run. unfold TimeOrderedUUID at 1. cbn [service clock memory log].
  destruct (uuid_TimeOrderedUUID rt s3) as [token s4].
  rewrite bind_run. unfold read_memory at 1. cbn [service clock memory log fst]. rewrite Hdata.
  match goal with
  | |- context [bind (invoke ?h ?c ?r) ?k ?w1] =>
      destruct (invoke_then h c r k w1) as (evs & ->)
  end.
  { intros _. by apply emits_listSchemas. }
  exists evs. cbn [log]. by rewrite <- !app_assoc.
Qed.

(** The run on an image that has no schema, when a global schema and
    its current version are found. *)
Lemma UpdateImageCapabilitySchema_creates ctx imageId (w : World St)
    s1 first others s2 version s3 :
  compute_ListComputeImageCapabilitySchemas (computeClient d) Background (clock w)
    (listSchemasRequest imageId) (service w) = (inl [], s1) ->
  compute_ListComputeGlobalImageCapabilitySchemas (computeClient d) Background (clock w)
    (ListComputeGlobalImageCapabilitySchemasRequest zero_RequestMetadata) s1
  = (inl (first :: others), s2) ->
  compute_GetComputeGlobalImageCapabilitySchemaVersion (computeClient d) Background (clock w)
    (GetComputeGlobalImageCapabilitySchemaVersionRequest
       (Global_Id first) (CurrentVersionName first) zero_RequestMetadata) s2
  = (inl version, s3) ->
  ∃ evs,
    log (snd (UpdateImageCapabilitySchema rt d ctx imageId w))
    = log w
      ++ [Called Background (listSchemasRequest imageId);
          Called Background (ListComputeGlobalImageCapabilitySchemasRequest zero_RequestMetadata);
          Called Background (GetComputeGlobalImageCapabilitySchemaVersionRequest
                               (Global_Id first) (CurrentVersionName first) zero_RequestMetadata);
          Called Background
            (createRequest d imageId
               (omap image_copy (default ∅ (Version_SchemaData version)))
               (Version_Name version) (uuid_TimeOrderedUUID rt s3).1)]
      ++ evs.
Proof.
  intros Hlist Hglobal Hversion.
  unfold UpdateImageCapabilitySchema. rewrite bind_run, listSchemas_run, Hlist.
  cbn [unmarshal_summaries fst snd length Nat.ltb Nat.leb].
  set (w1 := Build_World s1 _ _ _).
  destruct (createFromGlobalSchema_log imageId w1 first others s2 version s3 Hglobal Hversion)
    as (evs1 & Hlog1).
  rewrite bind_run.
  destruct (createFromGlobalSchema rt d imageId w1) as [[Items | e | msg |] w2];
    cbn [snd] in Hlog1 |- *; try (exists evs1; rewrite Hlog1; subst w1; cbn [log];
                                   by rewrite <- !app_assoc).
  assert (emits (λ _, True) (do Items <- addCustomFields d Items; updateFirstSchema d ctx Items))
    as Hrest.
  { apply emits_bind; [apply emits_addCustomFields |]. intros ?. by apply emits_updateFirstSchema. }
  destruct (Hrest w2) as (evs2 & -> & _). exists (evs1 ++ evs2).
  rewrite Hlog1. subst w1. cbn [log]. by rewrite <- !app_assoc.
Qed.

End CreatedSchema.

Section ReconcilerProperties.

Context {St : Type}.
Variable rt : Runtime St.
Variable d : driverOCI St.

(** C9.  When the image has no schema, and a global schema and its
    current version are found, the reconciliation goes on to the
    creation request: no error is returned on the way.  The schema
    data of the request hold the [image_copy] of each descriptor of
    the version: nothing under the key of a descriptor of a type other
    than the three known ones. *)
Theorem unknown_descriptors_are_dropped (ctx : context) (imageId : string) (w : World St)
    (s1 s2 s3 : St) (first : core_ComputeGlobalImageCapabilitySchemaSummary)
    (others : list core_ComputeGlobalImageCapabilitySchemaSummary)
    (version : core_ComputeGlobalImageCapabilitySchemaVersion wire_descriptor)
    (SchemaData : gmap string wire_descriptor) :
  compute_ListComputeImageCapabilitySchemas (computeClient d) Background (clock w)
    (listSchemasRequest imageId) (service w) = (inl [], s1) ->
  compute_ListComputeGlobalImageCapabilitySchemas (computeClient d) Background (clock w)
    (ListComputeGlobalImageCapabilitySchemasRequest zero_RequestMetadata) s1
  = (inl (first :: others), s2) ->
  compute_GetComputeGlobalImageCapabilitySchemaVersion (computeClient d) Background (clock w)
    (GetComputeGlobalImageCapabilitySchemaVersionRequest
       (Global_Id first) (CurrentVersionName first) zero_RequestMetadata) s2
  = (inl version, s3) ->
  Version_SchemaData version = Some SchemaData ->
  ∃ created evs,
    log (snd (UpdateImageCapabilitySchema rt d ctx imageId w))
    = log w
      ++ [Called Background (listSchemasRequest imageId);
          Called Background (ListComputeGlobalImageCapabilitySchemasRequest zero_RequestMetadata);
          Called Background (GetComputeGlobalImageCapabilitySchemaVersionRequest
                               (Global_Id first) (CurrentVersionName first) zero_RequestMetadata);
          Called Background
            (createRequest d imageId created (Version_Name version)
               (uuid_TimeOrderedUUID rt s3).1)]
      ++ evs
    ∧ (∀ key src,
          SchemaData !! key = Some (UnknownImageCapabilitySchemaDescriptor src) ->
          created !! key = None)
    ∧ (∀ key val, SchemaData !! key = Some val -> created !! key = image_copy val).
Proof.
  intros Hlist Hglobal Hversion Hdata.
  destruct (UpdateImageCapabilitySchema_creates rt d ctx imageId w s1 first others s2 version s3
              Hlist Hglobal Hversion) as (evs & Hlog).
  rewrite Hdata in Hlog. cbn [default] in Hlog.
  exists (omap image_copy SchemaData), evs. split_and!; [exact Hlog | |].
  - intros key src Hkey. by rewrite lookup_omap, Hkey.
  - intros key val Hkey. by rewrite lookup_omap, Hkey.
Qed.

(** C3.  On an image that has a schema, a run of the reconciliation
    lists the schemas of the image and sends one update, with the
    data of the first schema and the custom fields laid over them: it
    issues no request for the global schemas and no creation (when
    that schema has a nil map and a custom field is configured, the
    run panics after the listing).  A second run that finds the data
    the first one sent sends them back as they are. *)
Theorem reconciliation_of_existing_schema (ctx : context) (imageId : string) (w : World St)
    (item : core_ComputeImageCapabilitySchemaSummary wire_descriptor)
    (rest : list (core_ComputeImageCapabilitySchemaSummary wire_descriptor)) (s1 : St) :
  compute_ListComputeImageCapabilitySchemas (computeClient d) Background (clock w)
    (listSchemasRequest imageId) (service w) = (inl (item :: rest), s1) ->
  let first_run := UpdateImageCapabilitySchema rt d ctx imageId w in
  let sent := customFields (cfg d) <$> Schema_SchemaData item in
  (log (snd first_run)
   = log w ++ [Called Background (listSchemasRequest imageId);
               Called ctx (updateRequest d (Schema_Id item) sent)]
   ∨ (Schema_SchemaData item = None
      ∧ fst first_run = Panicked "assignment to entry in nil map"
      ∧ log (snd first_run) = log w ++ [Called Background (listSchemasRequest imageId)]))
  ∧ ∀ (ctx' : context) (w' : World St)
      (item' : core_ComputeImageCapabilitySchemaSummary wire_descriptor)
      (rest' : list (core_ComputeImageCapabilitySchemaSummary wire_descriptor)) (s1' : St),
      compute_ListComputeImageCapabilitySchemas (computeClient d) Background (clock w')
        (listSchemasRequest imageId) (service w') = (inl (item' :: rest'), s1') ->
      Schema_SchemaData item' = sent ->
      let second_run := UpdateImageCapabilitySchema rt d ctx' imageId w' in
      log (snd second_run)
      = log w' ++ [Called Background (listSchemasRequest imageId);
                   Called ctx' (updateRequest d (Schema_Id item') (Schema_SchemaData item'))]
      ∨ (Schema_SchemaData item' = None
         ∧ fst second_run = Panicked "assignment to entry in nil map"
         ∧ log (snd second_run) = log w' ++ [Called Background (listSchemasRequest imageId)]).
Proof.
  intros Hlist first_run sent. split.
  - destruct (UpdateImageCapabilitySchema_existing rt d ctx imageId w item rest s1 Hlist)
      as [(h' & Hrun) | (Hnone & _ & h' & Hrun)]; fold first_run in Hrun; rewrite Hrun.
    + left. by destruct (compute_UpdateComputeImageCapabilitySchema _ _ _ _ _) as [r s'].
    + right. done.
  - intros ctx' w' item' rest' s1' Hlist' Hsame second_run.
    destruct (UpdateImageCapabilitySchema_existing rt d ctx' imageId w' item' rest' s1' Hlist')
      as [(h' & Hrun) | (Hnone & _ & h' & Hrun)]; fold second_run in Hrun; rewrite Hrun.
    + left. destruct (compute_UpdateComputeImageCapabilitySchema _ _ _ _ _) as [r s'].
      cbn [snd log]. rewrite Hsame. subst sent.
      destruct (Schema_SchemaData item) as [m |]; [| done].
      cbn. by rewrite customFields_idempotent.
    + right. done.
Qed.

(** C1.  [UpdateImageCapabilitySchema] bypasses the retry policy: its
    first request, the listing of the schemas of the image, carries a
    nil [RetryPolicy], and so does every request the operation
    issues.  The requests of all the other operations carry the
    shared policy ([policy_and_context_of_the_other_operations]). *)
Theorem schema_requests_carry_no_retry_policy (ctx : context) (imageId : string)
    (w : World St) :
  (∃ evs, log (snd (UpdateImageCapabilitySchema rt d ctx imageId w))
          = log w ++ Called Background (listSchemasRequest imageId) :: evs)
  ∧ RetryPolicy (request_metadata (listSchemasRequest imageId)) = None
  ∧ emits (λ e, match e with
                | Called _ req => RetryPolicy (request_metadata req) = None
                | Slept _ => True
                end)
      (UpdateImageCapabilitySchema rt d ctx imageId).
Proof.
  split_and!; [apply UpdateImageCapabilitySchema_first_call | done |].
  apply emits_UpdateImageCapabilitySchema; [by intros req -> _ | done].
Qed.

End ReconcilerProperties.


(** The global schema of the in-memory control plane has a descriptor
    of an unknown type under [Compute.SecureBoot]. *)
Lemma unknown_descriptors_are_dropped_witness :
  ∃ created evs,
    log (snd (UpdateImageCapabilitySchema Fake.runtime Fake.driver Fake.build
                "ocid1.image.oc1..built" (Fake.world (Fake.region [] true []))))
    = [Called Background (listSchemasRequest "ocid1.image.oc1..built");
       Called Background (ListComputeGlobalImageCapabilitySchemasRequest zero_RequestMetadata);
       Called Background (GetComputeGlobalImageCapabilitySchemaVersionRequest
                            (Some "ocid1.computeglobalimgcapschema.oc1..one") (Some "v1")
                            zero_RequestMetadata);
       Called Background
         (createRequest Fake.driver "ocid1.image.oc1..built" created (Some "v1")
            "5f3c1e0a-0000-0000-0000-000000000001")]
      ++ evs
    ∧ created !! "Compute.SecureBoot" = None.
Proof.
  destruct (unknown_descriptors_are_dropped Fake.runtime Fake.driver Fake.build
              "ocid1.image.oc1..built" (Fake.world (Fake.region [] true []))
              (Fake.region [] true []) (Fake.region [] true []) (Fake.region [] true [])
              {| Global_Id := Some "ocid1.computeglobalimgcapschema.oc1..one";
                 CurrentVersionName := Some "v1" |} []
              {| Version_Name := Some "v1"; Version_SchemaData := Some Fake.global_data |}
              Fake.global_data eq_refl eq_refl eq_refl eq_refl)
    as (created & evs & Hlog & Hdropped & _).
  exists created, evs. split; [exact Hlog |].
  apply (Hdropped "Compute.SecureBoot" "GLOBAL"). by vm_compute.
Defined.


(** The run on an image of the in-memory control plane that has a
    schema. *)
Lemma reconciliation_of_existing_schema_witness :
  log (snd (UpdateImageCapabilitySchema Fake.runtime Fake.driver Fake.build
              "ocid1.image.oc1..built" (Fake.world (Fake.region [Fake.existing_schema] true []))))
  = [Called Background (listSchemasRequest "ocid1.image.oc1..built");
     Called Fake.build
       (updateRequest Fake.driver (Schema_Id Fake.existing_schema)
          (customFields Fake.config <$> Schema_SchemaData Fake.existing_schema))].
Proof.
  destruct (reconciliation_of_existing_schema Fake.runtime Fake.driver Fake.build
              "ocid1.image.oc1..built" (Fake.world (Fake.region [Fake.existing_schema] true []))
              Fake.existing_schema [] (Fake.region [Fake.existing_schema] true []) eq_refl)
    as [[Hlog | (Hnone & _)] _]; [exact Hlog | discriminate Hnone].
Defined.


(** Two runs in a row on the in-memory control plane: the second one
    leaves the schemas of the image as the first one left them. *)
Example second_reconciliation_changes_nothing :
  let once := snd (UpdateImageCapabilitySchema Fake.runtime Fake.driver Fake.build
                     "ocid1.image.oc1..built"
                     (Fake.world (Fake.region [Fake.existing_schema] true []))) in
  let twice := snd (UpdateImageCapabilitySchema Fake.runtime Fake.driver Fake.build
                      "ocid1.image.oc1..built" once) in
  Fake.image_schemas (service twice) = Fake.image_schemas (service once).
Proof. by vm_compute. Qed.


(** C10.  The list of schemas is indexed without a check after it is
    listed again: on a control plane that does not list the created
    schema yet, the reconciliation panics on the index 0 of an empty
    list instead of returning an error. *)
Theorem relisting_no_schema_panics :
  fst (UpdateImageCapabilitySchema Fake.runtime Fake.driver Fake.build "ocid1.image.oc1..built"
         (Fake.world (Fake.region [] false [])))
  = Panicked "index out of range [0] with length 0".
Proof. by vm_compute. Qed.

(** ** Retry policy and context of the requests *)

Section Contexts.

Context {St : Type}.
Variable rt : Runtime St.
Variable d : driverOCI St.
Variable ctx : context.

(** The operations whose requests all carry the shared retry policy
    and the context of the caller. *)
Lemma policy_and_context_of_the_other_operations :
  let P e := carries_retry_policy e ∧ under_context ctx e in
  (∀ id, emits P (CreateImage d ctx id))
  ∧ (∀ id, emits P (DeleteImage d ctx id))
  ∧ (∀ id, emits P (GetInstanceIP d ctx id))
  ∧ (∀ id, emits P (GetInstanceInitialCredentials d ctx id))
  ∧ (∀ id, emits P (TerminateInstance d ctx id))
  ∧ (∀ fuel id, emits P (WaitForImageCreation d fuel ctx id))
  ∧ (∀ fuel id waitStates terminalState,
        emits P (WaitForInstanceState d fuel ctx id waitStates terminalState))
  ∧ (∀ fuel, emits P (baseImageId rt d fuel ctx)).
Proof.
  intros P. split_and!.
  - intros id. by apply emits_invoke.
  - intros id. by apply emits_invoke.
  - intros id. apply emits_GetInstanceIP. by intros req Hreq; split; [unfold carries_retry_policy; rewrite Hreq |].
  - intros id. unfold GetInstanceInitialCredentials. emits. done.
  - intros id. by apply emits_invoke.
  - intros fuel id. apply emits_poll; [| done]. intros _. emits. done.
  - intros fuel id waitStates terminalState. apply emits_poll; [| done]. intros _. emits. done.
  - intros fuel. unfold baseImageId. destruct (decide _); [apply emits_ret |].
    by apply emits_findBaseImage.
Qed.

(** C8, as amended.  The context of the caller is the one given to
    every remote call of [CreateImage], [DeleteImage], [GetInstanceIP],
    [GetInstanceInitialCredentials], [TerminateInstance],
    [WaitForImageCreation] and [WaitForInstanceState], to the listing
    calls of the base-image resolution and to the update call of
    [UpdateImageCapabilitySchema].  The poll loop is given no context:
    an iteration that observes a waiting state sleeps the whole of
    [waitDuration], whatever happens to the context meanwhile, and
    only then fetches again. *)
Theorem context_of_the_caller :
  (∀ id, emits (under_context ctx) (CreateImage d ctx id))
  ∧ (∀ id, emits (under_context ctx) (DeleteImage d ctx id))
  ∧ (∀ id, emits (under_context ctx) (GetInstanceIP d ctx id))
  ∧ (∀ id, emits (under_context ctx) (GetInstanceInitialCredentials d ctx id))
  ∧ (∀ id, emits (under_context ctx) (TerminateInstance d ctx id))
  ∧ (∀ fuel id, emits (under_context ctx) (WaitForImageCreation d fuel ctx id))
  ∧ (∀ fuel id waitStates terminalState,
        emits (under_context ctx) (WaitForInstanceState d fuel ctx id waitStates terminalState))
  ∧ (∀ fuel, emits (under_context ctx) (baseImageId rt d fuel ctx))
  ∧ (∀ imageId,
        emits (λ e, ∀ c id data, e = Called c (updateRequest d id data) -> c = ctx)
          (UpdateImageCapabilitySchema rt d ctx imageId))
  ∧ (∀ (getResourceState : string -> M St string) id waitStates terminalState
       maxRetries waitDuration fuel i (w w' : World St) state,
        maxRetries = 0 ∨ i < maxRetries ->
        getResourceState id w = (Returned state, w') ->
        state ∈ waitStates ->
        waitForResourceToReachState_from (S fuel) i getResourceState id
          waitStates terminalState maxRetries waitDuration w
        = waitForResourceToReachState_from fuel (int64 (i + 1)) getResourceState id
            waitStates terminalState maxRetries waitDuration
            (Build_World (service w') (clock w' + Z.max 0 waitDuration) (memory w')
               (log w' ++ [Slept waitDuration]))).
Proof.
  destruct policy_and_context_of_the_other_operations
    as (H1 & H2 & H3 & H4 & H5 & H6 & H7 & H8).
  assert (∀ e, carries_retry_policy e ∧ under_context ctx e -> under_context ctx e) as Hw
    by (by intros e [_ ?]).
  split_and!; intros; try (eapply emits_weaken; [exact Hw | eauto]).
  - apply emits_UpdateImageCapabilitySchema.
    + intros req _ Hne c id data [= <- ->]. by destruct (Hne id data).
    + by intros id data c id' data' [= <- _].
  - rewrite poll_enters by done. rewrite bind_run.
    match goal with H : getResourceState _ _ = _ |- _ => rewrite H end.
    match goal with H : _ ∈ _ |- _ => apply stringSliceContains_elem in H; rewrite H end.
    done.
Qed.

End Contexts.

(** A poll under a context that is cancelled after two seconds: the
    sleep lasts its five seconds. *)
Lemma context_of_the_caller_witness :
  WaitForInstanceState Fake.driver 2 Fake.build "ocid1.instance.oc1..launched"
    ["PROVISIONING"] "RUNNING" (Fake.world (Fake.region [] true ["PROVISIONING"; "RUNNING"]))
  = (Failed Fake.canceled,
     Build_World (Fake.region [] true ["RUNNING"]) (5 * Second) ∅
       [Called Fake.build (GetInstanceRequest (Some "ocid1.instance.oc1..launched") requestMetadata);
        Slept (5 * Second);
        Called Fake.build (GetInstanceRequest (Some "ocid1.instance.oc1..launched") requestMetadata)]).
Proof.
  destruct (context_of_the_caller Fake.runtime Fake.driver Fake.build)
    as (_ & _ & _ & _ & _ & _ & _ & _ & _ & Hsleep).
  unfold WaitForInstanceState, waitForResourceToReachState.
  rewrite (Hsleep _ "ocid1.instance.oc1..launched" ["PROVISIONING"] "RUNNING" 0 (5 * Second)
             1%nat 0 (Fake.world (Fake.region [] true ["PROVISIONING"; "RUNNING"]))
             (Build_World (Fake.region [] true ["RUNNING"]) 0 ∅
                [Called Fake.build
                   (GetInstanceRequest (Some "ocid1.instance.oc1..launched") requestMetadata)])
             "PROVISIONING" (or_introl eq_refl) eq_refl (list_elem_of_here _ _)).
  reflexivity.
Defined.


(** C8 fails as stated.  The launch request of [CreateInstance] is
    issued under [context.TODO], so that not every call of the
    operation is given the context of the caller; and a poll whose
    context is cancelled two seconds after the start sleeps its five
    seconds to the end: the cancellation is reported by the next fetch,
    at the fifth second. *)
Lemma cancellation_is_not_threaded_everywhere :
  ¬ emits (under_context Fake.build)
      (CreateInstance Fake.runtime Fake.driver 5 Fake.build "ssh-rsa AAAA")
  ∧ context_done Fake.build (2 * Second) = true
  ∧ WaitForInstanceState Fake.driver 5 Fake.build "ocid1.instance.oc1..launched"
      ["PROVISIONING"] "RUNNING" (Fake.world (Fake.region [] true ["PROVISIONING"; "RUNNING"]))
    = (Failed Fake.canceled,
       Build_World (Fake.region [] true ["RUNNING"]) (5 * Second) ∅
         [Called Fake.build (GetInstanceRequest (Some "ocid1.instance.oc1..launched") requestMetadata);
          Slept (5 * Second);
          Called Fake.build (GetInstanceRequest (Some "ocid1.instance.oc1..launched") requestMetadata)]).
Proof.
  split_and!; [| reflexivity | reflexivity].
  intros Hemits.
  destruct (Hemits (Fake.world (Fake.region [] true []))) as (evs & Hlog & Hall).
  cbn [log Fake.world app] in Hlog. rewrite <- Hlog in Hall.
  assert (∃ req,
             last (log (snd (CreateInstance Fake.runtime Fake.driver 5 Fake.build "ssh-rsa AAAA"
                               (Fake.world (Fake.region [] true [])))))
             = Some (Called TODO req)) as (req & Hlast) by (eexists; reflexivity).
  apply last_Some_elem_of in Hlast. rewrite Forall_forall in Hall.
  by specialize (Hall _ Hlast).
Qed.

(** ** The base image *)

Section BaseImage.

Context {St : Type}.
Variable rt : Runtime St.
Variable d : driverOCI St.



Lemma findBaseImage_found (fuel : nat) (ctx : context) (Page : option string) (id : string)
    (w : World St) :
  findBaseImage rt d fuel ctx Page (Some id) w = (Returned (Some id), w).
Proof.
  destruct fuel; cbn [findBaseImage];
    by rewrite (bool_decide_eq_false_2 (Some id = None)), andb_false_r.
Qed.

Variables (pattern : string) (re : Regexp rt).
Hypothesis Hsearch : DisplayNameSearch (BaseImageFilter (cfg d)) = Some pattern.
Hypothesis Hcompile : regexp_Compile rt pattern = inl re.


End BaseImage.

Section BaseImageResolution.

Context {St : Type}.
Variable rt : Runtime St.
Variable d : driverOCI St.


End BaseImageResolution.



(** ** Runs on the in-memory control plane *)

(** Three polls of an instance that is running at the third one: three
    fetches and two sleeps. *)
Example poll_converges :
  WaitForInstanceState Fake.driver 3 (Caller "build" None) "ocid1.instance.oc1..launched"
    ["PROVISIONING"; "STARTING"] "RUNNING"
    (Fake.world (Fake.region [] true ["PROVISIONING"; "STARTING"; "RUNNING"]))
  = (Returned tt,
     Build_World (Fake.region [] true []) (10 * Second) ∅
       [Called (Caller "build" None)
          (GetInstanceRequest (Some "ocid1.instance.oc1..launched") requestMetadata);
        Slept (5 * Second);
        Called (Caller "build" None)
          (GetInstanceRequest (Some "ocid1.instance.oc1..launched") requestMetadata);
        Slept (5 * Second);
        Called (Caller "build" None)
          (GetInstanceRequest (Some "ocid1.instance.oc1..launched") requestMetadata)]).
Proof. reflexivity. Qed.

(** An instance that is terminated while it is waited for. *)
Example poll_fails_on_unexpected_state :
  fst (WaitForInstanceState Fake.driver 3 (Caller "build" None) "ocid1.instance.oc1..launched"
         ["PROVISIONING"] "RUNNING"
         (Fake.world (Fake.region [] true ["PROVISIONING"; "TERMINATED"])))
  = Failed (fmt_Errorf
              "unexpected resource state %q, expecting a waiting state %s or terminal state  %q "
              [AString "TERMINATED"; AStrings ["PROVISIONING"]; AString "RUNNING"]).
Proof. reflexivity. Qed.

(** A bound of two iterations on a resource that keeps waiting. *)
Example poll_exhausts_its_retries :
  fst (waitForResourceToReachState 5 (fun _ => ret "PROVISIONING") "ocid1.image.oc1..built"
         ["PROVISIONING"] "AVAILABLE" 2 (5 * Second) (Fake.world (Fake.region [] true [])))
  = Failed (fmt_Errorf
              "maximum number of retries (%d) exceeded; resource did not reach state %q"
              [AInt 2; AString "AVAILABLE"]).
Proof. reflexivity. Qed.

(** The schema created for an image without one holds the boolean
    descriptor of the global schema, with the source [IMAGE]. *)
Example created_schema_has_the_boolean_descriptor :
  (λ item, Schema_SchemaData item ≫= (λ m, m !! "Storage.Iscsi.MultipathDeviceSupported"))
    <$> Fake.image_schemas
          (service (snd (UpdateImageCapabilitySchema Fake.runtime Fake.driver
                           (Caller "build" None) "ocid1.image.oc1..built"
                           (Fake.world (Fake.region [] true [])))))
  = [Some (BooleanImageCapabilitySchemaDescriptor "IMAGE" (Some true))].
Proof. by vm_compute. Qed.

(** ** The poll loop, the backoff and the metadata, further *)

(** X1.  [stringSliceContains] decides the membership of the value in
    the slice. *)
Theorem stringSliceContains_decides (slice : list string) (value : string) :
  stringSliceContains slice value = bool_decide (value ∈ slice).
Proof.
  induction slice as [| elem rest IH]; [done |].
  cbn [stringSliceContains]. destruct (String.eqb_spec elem value) as [-> | Hne].
  - symmetry. apply bool_decide_eq_true_2. by left.
  - rewrite IH. apply bool_decide_ext. rewrite elem_of_cons.
    split; [by right | by intros [-> | ?]].
Qed.

Section PollRuns.

Context {St : Type}.
Variables (getResourceState : string -> M St string) (id : string).
Variables (waitStates : list string) (terminalState : string).
Variables (maxRetries : Z) (waitDuration : Duration).

Lemma poll_waits_on (fuel : nat) (i : Z) (w w1 : World St) (state : string) :
  maxRetries = 0 ∨ i < maxRetries ->
  getResourceState id w = (Returned state, w1) ->
  state ∈ waitStates ->
  waitForResourceToReachState_from (S fuel) i getResourceState id
    waitStates terminalState maxRetries waitDuration w
  = waitForResourceToReachState_from fuel (int64 (i + 1)) getResourceState id
      waitStates terminalState maxRetries waitDuration (snd (time_Sleep waitDuration w1)).
Proof.
  intros Hcond Hfetch Hin. rewrite (poll_enters _ _ _ _ _ _ _ _ Hcond).
  rewrite bind_run, Hfetch.
  apply stringSliceContains_elem in Hin. rewrite Hin. by rewrite bind_run.
Qed.

Lemma poll_settles_from (n : nat) (w wn : World St) :
  waits getResourceState id waitStates waitDuration n w wn ->
  ∀ (i : Z) (fuel : nat),
    (∀ state, fst (getResourceState id wn) = Returned state -> state ∉ waitStates) ->
    maxRetries = 0 ∨ (0 <= i ∧ i + Z.of_nat n < maxRetries ∧ maxRetries < 2 ^ 63) ->
    (n < fuel)%nat ->
    waitForResourceToReachState_from fuel i getResourceState id
      waitStates terminalState maxRetries waitDuration w
    = (match fst (getResourceState id wn) with
       | Returned state =>
           if String.eqb state terminalState then Returned tt
           else Failed (fmt_Errorf
                  "unexpected resource state %q, expecting a waiting state %s or terminal state  %q "
                  [AString state; AStrings waitStates; AString terminalState])
       | Failed err => Failed err
       | Panicked msg => Panicked msg
       | OutOfFuel => OutOfFuel
       end, snd (getResourceState id wn)).
Proof.
  induction 1 as [w | n w w1 w' state Hfetch Hin Hrest IH]; intros i fuel Hother Hcond Hfuel.
  - destruct fuel as [| fuel]; [lia |].
    rewrite poll_enters by (destruct Hcond; [by left | right; lia]).
    rewrite bind_run. destruct (getResourceState id w) as [[state | err | msg |] w1]; try done.
    cbn [fst snd] in *.
    rewrite (proj2 (stringSliceContains_not_elem _ _) (Hother state eq_refl)).
    by destruct (String.eqb state terminalState).
  - destruct fuel as [| fuel]; [lia |].
    assert (maxRetries = 0 ∨ i < maxRetries) as Henter by (destruct Hcond; [by left | right; lia]).
    rewrite (poll_waits_on fuel i w w1 state Henter Hfetch Hin).
    apply IH; [done | | lia].
    destruct Hcond as [-> | (Hi & Hn & Hmax)]; [by left | right].
    rewrite int64_id by lia. lia.
Qed.

(** X2.  The poll loop is decided by the first fetch that does not
    report a waiting state: after [n] waiting states in a row, each
    followed by a sleep, with [n] below a bound that is not zero, the
    loop returns nil when the next state is the terminal one, the
    error that reports the state when it is another one, and what the
    fetch returns when it fails; the world is the one the last fetch
    leaves, with no sleep after it. *)
Theorem poll_is_decided_by_the_first_other_state (n fuel : nat) (w wn : World St) :
  waits getResourceState id waitStates waitDuration n w wn ->
  (∀ state, fst (getResourceState id wn) = Returned state -> state ∉ waitStates) ->
  maxRetries = 0 ∨ (Z.of_nat n < maxRetries ∧ maxRetries < 2 ^ 63) ->
  (n < fuel)%nat ->
  waitForResourceToReachState fuel getResourceState id
    waitStates terminalState maxRetries waitDuration w
  = (match fst (getResourceState id wn) with
     | Returned state =>
         if String.eqb state terminalState then Returned tt
         else Failed (fmt_Errorf
                "unexpected resource state %q, expecting a waiting state %s or terminal state  %q "
                [AString state; AStrings waitStates; AString terminalState])
     | Failed err => Failed err
     | Panicked msg => Panicked msg
     | OutOfFuel => OutOfFuel
     end, snd (getResourceState id wn)).
Proof.
  intros Hwaits Hother Hcond Hfuel. unfold waitForResourceToReachState.
  apply (poll_settles_from n w wn Hwaits 0 fuel Hother); [| done].
  destruct Hcond as [-> | [Hn Hmax]]; [by left | right; lia].
Qed.

Lemma poll_gives_up_from (n : nat) (w w' : World St) :
  waits getResourceState id waitStates waitDuration n w w' ->
  ∀ (i : Z) (fuel : nat),
    maxRetries ≠ 0 -> maxRetries < 2 ^ 63 -> 0 <= i ->
    Z.of_nat n = Z.max 0 (maxRetries - i) ->
    (n ≤ fuel)%nat ->
    waitForResourceToReachState_from fuel i getResourceState id
      waitStates terminalState maxRetries waitDuration w
    = (Failed (fmt_Errorf
                 "maximum number of retries (%d) exceeded; resource did not reach state %q"
                 [AInt maxRetries; AString terminalState]), w').
Proof.
  induction 1 as [w | n w w1 w' state Hfetch Hin Hrest IH];
    intros i fuel Hne Hmax Hi Hn Hfuel.
  - assert ((maxRetries =? 0) || (i <? maxRetries) = false) as Hcond.
    { apply orb_false_iff. split; lia. }
    destruct fuel; cbn [waitForResourceToReachState_from]; by rewrite Hcond.
  - destruct fuel as [| fuel]; [lia |].
    assert (maxRetries = 0 ∨ i < maxRetries) as Henter by (right; lia).
    rewrite (poll_waits_on fuel i w w1 state Henter Hfetch Hin).
    rewrite int64_id by lia. apply IH; try done; lia.
Qed.

(** X3.  With a bound that is not zero, on a resource that reports a
    waiting state [maxRetries] times in a row (no time at all when
    the bound is negative), the poll loop returns the error that
    reports the bound and the terminal state: it has fetched the
    state [maxRetries] times, and slept after each fetch, the last
    one too. *)
Theorem poll_gives_up_at_the_bound (fuel : nat) (w w' : World St) :
  maxRetries ≠ 0 ->
  maxRetries < 2 ^ 63 ->
  waits getResourceState id waitStates waitDuration (Z.to_nat maxRetries) w w' ->
  (Z.to_nat maxRetries ≤ fuel)%nat ->
  waitForResourceToReachState fuel getResourceState id
    waitStates terminalState maxRetries waitDuration w
  = (Failed (fmt_Errorf
               "maximum number of retries (%d) exceeded; resource did not reach state %q"
               [AInt maxRetries; AString terminalState]), w').
Proof.
  intros Hne Hmax Hwaits Hfuel. unfold waitForResourceToReachState.
  apply (poll_gives_up_from _ w w' Hwaits 0 fuel); try done. lia.
Qed.

End PollRuns.

(** An instance that is running at the third fetch. *)
Lemma poll_is_decided_by_the_first_other_state_witness :
  WaitForInstanceState Fake.driver 3 (Caller "build" None) "ocid1.instance.oc1..launched"
    ["PROVISIONING"; "STARTING"] "RUNNING"
    (Fake.world (Fake.region [] true ["PROVISIONING"; "STARTING"; "RUNNING"]))
  = (Returned tt,
     Build_World (Fake.region [] true []) (10 * Second) ∅
       [Called (Caller "build" None)
          (GetInstanceRequest (Some "ocid1.instance.oc1..launched") requestMetadata);
        Slept (5 * Second);
        Called (Caller "build" None)
          (GetInstanceRequest (Some "ocid1.instance.oc1..launched") requestMetadata);
        Slept (5 * Second);
        Called (Caller "build" None)
          (GetInstanceRequest (Some "ocid1.instance.oc1..launched") requestMetadata)]).
Proof.
  unfold WaitForInstanceState.
  rewrite (poll_is_decided_by_the_first_other_state _ "ocid1.instance.oc1..launched"
             ["PROVISIONING"; "STARTING"] "RUNNING" 0 (5 * Second) 2 3
             (Fake.world (Fake.region [] true ["PROVISIONING"; "STARTING"; "RUNNING"]))
             (Build_World (Fake.region [] true ["RUNNING"]) (10 * Second) ∅
                [Called (Caller "build" None)
                   (GetInstanceRequest (Some "ocid1.instance.oc1..launched") requestMetadata);
                 Slept (5 * Second);
                 Called (Caller "build" None)
                   (GetInstanceRequest (Some "ocid1.instance.oc1..launched") requestMetadata);
                 Slept (5 * Second)])).
  - reflexivity.
  - eapply waits_once_more; [reflexivity | by left |].
    eapply waits_once_more; [reflexivity | by right; left |].
    apply waits_no_more.
  - intros state [= <-] Hin.
    repeat (apply elem_of_cons in Hin as [Hin | Hin]; [discriminate Hin |]).
    by apply elem_of_nil in Hin.
  - by left.
  - lia.
Defined.

(** A bound of two fetches on an image that keeps provisioning. *)
Lemma poll_gives_up_at_the_bound_witness :
  waitForResourceToReachState 2 (fun _ => ret "PROVISIONING") "ocid1.image.oc1..built"
    ["PROVISIONING"] "AVAILABLE" 2 (5 * Second) (Fake.world (Fake.region [] true []))
  = (Failed (fmt_Errorf
               "maximum number of retries (%d) exceeded; resource did not reach state %q"
               [AInt 2; AString "AVAILABLE"]),
     Build_World (Fake.region [] true []) (10 * Second) ∅ [Slept (5 * Second); Slept (5 * Second)]).
Proof.
  apply poll_gives_up_at_the_bound; [done | done | | cbn; lia].
  change (Z.to_nat 2) with 2%nat.
  eapply waits_once_more; [reflexivity | by left |].
  eapply waits_once_more; [reflexivity | by left |].
  apply waits_no_more.
Defined.

(** X4.  From the second attempt on, the delay grows with the attempt
    number whatever the random draws are: for [n] from 1 to 32, the
    delay before the attempt [n + 1] is longer than the one before the
    attempt [n]. *)
Theorem NextDuration_grows (n : Z) (e e' : option error) (u u' : Q) :
  1 <= n <= 32 ->
  is_float64 u -> is_float64 u' ->
  (0 <= u)%Q -> (u < 1)%Q -> (0 <= u')%Q -> (u' < 1)%Q ->
  retryPolicy_NextDuration {| Error := e; AttemptNumber := n |} u
  < retryPolicy_NextDuration {| Error := e'; AttemptNumber := n + 1 |} u'.
Proof.
  intros Hn Hfloat Hfloat' H0 H1 H0' H1'.
  rewrite !NextDuration_eq by (cbn [AttemptNumber]; (lia || done)).
  cbn [AttemptNumber].
  destruct (jitter_spec u Hfloat H0 H1) as (Hj & _).
  destruct (jitter_spec u' Hfloat' H0' H1') as (Hj' & _).
  rewrite Z.pow_add_r by lia.
  assert (2 <= 2 ^ n) by (change 2 with (2 ^ 1) at 1; apply Z.pow_le_mono_r; lia).
  unfold Second, Millisecond. lia.
Qed.

Lemma NextDuration_grows_witness :
  retryPolicy_NextDuration {| Error := None; AttemptNumber := 3 |} (1999 # 2048)
  < retryPolicy_NextDuration {| Error := None; AttemptNumber := 3 + 1 |} 0.
Proof.
  apply NextDuration_grows;
    [lia | by exists 1999, (-11) | by exists 0, 0 | done | done | done | done].
Defined.

Section Metadata.

Context {St : Type}.
Variable d : driverOCI St.

Lemma merged_metadata (base m : gmap string string) :
  map_fold (fun key value acc => <[key := value]> acc) base m = m ∪ base.
Proof.
  apply (map_fold_weak_ind (fun r m => r = m ∪ base)).
  - by rewrite (left_id_L ∅ (∪)).
  - intros key value m' r Hfresh ->. by rewrite insert_union_l.
Qed.

(** X5.  The metadata of the launched instance, key by key: under
    [user_data] the user data of the configuration when they are not
    empty; otherwise what the metadata of the configuration have
    under the key; otherwise, under [ssh_authorized_keys], the public
    key.  An entry [ssh_authorized_keys] of the configured metadata
    thus replaces the public key, and non-empty user data replace an
    entry [user_data]. *)
Theorem instanceMetadata_lookup (publicKey key : string) :
  instanceMetadata d publicKey !! key
  = if decide (key = "user_data" ∧ UserData (cfg d) ≠ "") then Some (UserData (cfg d))
    else match default ∅ (Metadata (cfg d)) !! key with
         | Some value => Some value
         | None => if decide (key = "ssh_authorized_keys") then Some publicKey else None
         end.
Proof.
  unfold instanceMetadata.
  assert (∀ m : gmap string string,
             (m ∪ {[ "ssh_authorized_keys" := publicKey ]}) !! key
             = match m !! key with
               | Some value => Some value
               | None => if decide (key = "ssh_authorized_keys") then Some publicKey else None
               end) as Hmerged.
  { intros m. rewrite lookup_union. destruct (m !! key) as [value |] eqn:Hm.
    - by destruct (({[ "ssh_authorized_keys" := publicKey ]} : gmap string string) !! key).
    - rewrite (left_id_L None _). destruct (decide (key = "ssh_authorized_keys")) as [-> | Hne].
      + by rewrite lookup_singleton_eq.
      + by rewrite lookup_singleton_ne. }
  assert ((match Metadata (cfg d) with
           | Some m => map_fold (fun key value acc => <[key := value]> acc)
                         {[ "ssh_authorized_keys" := publicKey ]} m
           | None => {[ "ssh_authorized_keys" := publicKey ]}
           end : gmap string string)
          = default ∅ (Metadata (cfg d)) ∪ {[ "ssh_authorized_keys" := publicKey ]}) as ->.
  { destruct (Metadata (cfg d)) as [m |]; cbn [default].
    - apply merged_metadata.
    - by rewrite (left_id_L ∅ (∪)). }
  destruct (decide (UserData (cfg d) ≠ "")) as [Hdata | Hnone].
  - destruct (decide (key = "user_data")) as [-> | Hne].
    + rewrite lookup_insert_eq. by rewrite decide_True.
    + rewrite lookup_insert_ne by done. rewrite decide_False by (by intros [? _]). apply Hmerged.
  - rewrite decide_False by (by intros [_ ?]). apply Hmerged.
Qed.

End Metadata.

(** ** The launch of the instance and its address *)

Section Launch.

Context {St : Type}.
Variable rt : Runtime St.
Variable d : driverOCI St.

(** X6.  With a base image id in the configuration, [CreateInstance]
    lists no image, whatever the filter is: its one request is the
    launch from that image, under [context.TODO] and with the retry
    policy.  It returns the id of the launched instance, panics when
    the response has no id, and returns the error of the launch. *)
Theorem CreateInstance_from_configured_image (fuel : nat) (ctx : context) (publicKey : string)
    (w : World St) :
  BaseImageID (cfg d) ≠ "" ->
  let req := LaunchInstanceRequest
               (launchInstanceDetails d publicKey (Some (BaseImageID (cfg d)))) requestMetadata in
  CreateInstance rt d fuel ctx publicKey w
  = (let '(r, s') := compute_LaunchInstance (computeClient d) TODO (clock w) req (service w) in
     (match r with
      | inl instance =>
          match Instance_Id instance with
          | Some id => Returned id
          | None => Panicked "invalid memory address or nil pointer dereference"
          end
      | inr err => Failed err
      end,
      Build_World s' (clock w) (memory w) (log w ++ [Called TODO req]))).
Proof.
  intros Hid req. unfold CreateInstance, baseImageId.
  destruct (decide (BaseImageID (cfg d) ≠ "")) as [_ | ?]; [| done].
  rewrite bind_run. cbn [ret]. rewrite bind_run. unfold invoke. fold req.
  destruct (compute_LaunchInstance _ _ _ _ _) as [[instance | err] s']; [| done].
  by destruct (Instance_Id instance).
Qed.


(** The base image without an expression on the display name. *)
Lemma findBaseImage_most_recent (ctx : context) (now : Z) (Page : option string) (s : St)
    (pages : list core_ListImagesResponse) :
  DisplayNameSearch (BaseImageFilter (cfg d)) = None ->
  listing d ctx now Page s pages ->
  pages ≠ [] ->
  (∀ image, image ∈ listed pages -> Image_Id image ≠ None) ->
  ∀ (w : World St) (fuel : nat),
    service w = s -> clock w = now -> (length pages ≤ fuel)%nat ->
    fst (findBaseImage rt d fuel ctx Page None w)
    = match listed pages with
      | first :: _ => Returned (Image_Id first)
      | [] => Failed (errors_New "base_image_filter returned no images")
      end.
Proof.
  intros Hsearch. induction 1 as [| token s s' page rest Hcall Hrest IH]; [done |].
  intros _ Hwf w fuel Hs Hnow Hfuel.
  destruct fuel as [| fuel]; [cbn in Hfuel; lia |].
  cbn [findBaseImage]. rewrite !bool_decide_eq_true_2 by done. cbn [andb].
  rewrite bind_run. unfold invoke. rewrite Hs, Hnow, Hcall, Hsearch.
  set (w1 := Build_World s' now (memory w) _).
  assert (∀ image, image ∈ Items page ++ listed rest -> Image_Id image ≠ None) as Hwf'
      by exact Hwf.
  change (listed (page :: rest)) with (Items page ++ listed rest).
  destruct (Items page) as [| first others] eqn:Hitems.
  - cbn [length Nat.eqb andb app].
    destruct (OpcNextPage page) as [next |] eqn:Hnext.
    + rewrite (bool_decide_eq_false_2 (Some next = None)) by done.
      rewrite bind_run. cbn [ret].
      apply IH; [by inversion Hrest | | done | done | cbn in Hfuel; lia].
      intros image Hin. by apply Hwf'.
    + inversion Hrest; subst. by rewrite bool_decide_eq_true_2.
  - cbn [length Nat.eqb andb app]. rewrite bind_run. cbn [ret].
    destruct (Image_Id first) as [id |] eqn:Hid.
    + by rewrite findBaseImage_found.
    + exfalso. apply (Hwf' first); [| done]. by left.
Qed.

(** X7.  Without a base image id and without an expression on the
    display name, over a listing whose images all have an id, the
    base image is the first image the listing serves (the most recent
    one, by the order the request asks for), also when the pages
    before it are empty; the listing that holds no image gives the
    error [base_image_filter returned no images]. *)
Theorem base_image_is_the_first_listed (ctx : context) (w : World St)
    (pages : list core_ListImagesResponse) (fuel : nat) :
  BaseImageID (cfg d) = "" ->
  DisplayNameSearch (BaseImageFilter (cfg d)) = None ->
  listing d ctx (clock w) (Some "") (service w) pages ->
  (∀ image, image ∈ listed pages -> Image_Id image ≠ None) ->
  (length pages ≤ fuel)%nat ->
  fst (baseImageId rt d fuel ctx w)
  = match listed pages with
    | first :: _ => Returned (Image_Id first)
    | [] => Failed (errors_New "base_image_filter returned no images")
    end.
Proof.
  intros Hid Hsearch Hlisting Hwf Hfuel. unfold baseImageId. rewrite Hid.
  destruct (decide ("" ≠ "")) as [? | _]; [done |].
  apply (findBaseImage_most_recent ctx (clock w) (Some "") (service w) pages Hsearch Hlisting);
    try done.
  by inversion Hlisting.
Qed.

Section Search.

Variables (pattern : string) (re : Regexp rt).
Hypothesis Hsearch : DisplayNameSearch (BaseImageFilter (cfg d)) = Some pattern.
Hypothesis Hcompile : regexp_Compile rt pattern = inl re.




End Search.

(** X10.  An expression on the display name that does not compile is
    found out only after the first page of images was listed: the
    error of the compilation is returned then (unless that page is
    empty and the last one, which is reported instead), and nothing
    is launched. *)
Theorem CreateInstance_expression_does_not_compile (fuel : nat) (ctx : context)
    (publicKey pattern : string) (err : error) (w : World St) :
  BaseImageID (cfg d) = "" ->
  DisplayNameSearch (BaseImageFilter (cfg d)) = Some pattern ->
  regexp_Compile rt pattern = inr err ->
  CreateInstance rt d (S fuel) ctx publicKey w
  = (let '(r, s') := compute_ListImages (computeClient d) ctx (clock w)
                       (listImagesRequest d (Some "")) (service w) in
     (match r with
      | inl response =>
          match Items response, OpcNextPage response with
          | [], None => Failed (errors_New "base_image_filter returned no images")
          | _, _ => Failed err
          end
      | inr failure => Failed failure
      end,
      Build_World s' (clock w) (memory w)
        (log w ++ [Called ctx (listImagesRequest d (Some ""))]))).
Proof.
  intros Hid Hsearch Hcompile. unfold CreateInstance, baseImageId. rewrite Hid.
  destruct (decide ("" ≠ "")) as [? | _]; [done |].
  rewrite bind_run. cbn [findBaseImage]. rewrite !bool_decide_eq_true_2 by done. cbn [andb].
  rewrite bind_run. unfold invoke. rewrite Hsearch, Hcompile.
  destruct (compute_ListImages _ _ _ _ _) as [[response | failure] s']; [| done].
  destruct (Items response) as [| first others]; cbn [length Nat.eqb andb].
  - destruct (OpcNextPage response) as [next |].
    + by rewrite (bool_decide_eq_false_2 (Some next = None)).
    + by rewrite bool_decide_eq_true_2.
  - done.
Qed.

(** X11.  [GetInstanceIP] asks for the VNIC attachments of the
    instance and then for the VNIC of the first attachment only.  An
    instance without attachment is an error, and no VNIC is asked
    for.  The error of the VNIC request is reported inside a new
    error.  The address is the private one when [UsePrivateIP] is
    set (a panic when the VNIC has none) and the public one
    otherwise (an error that names the instance when the VNIC has
    none). *)
Theorem GetInstanceIP_run (ctx : context) (id : string) (w : World St)
    (vnics : list core_VnicAttachment) (s1 : St) :
  let attachments := ListVnicAttachmentsRequest (Some id) (Some (CompartmentID (cfg d)))
                       requestMetadata in
  compute_ListVnicAttachments (computeClient d) ctx (clock w) attachments (service w)
  = (inl vnics, s1) ->
  GetInstanceIP d ctx id w
  = match vnics with
    | [] => (Failed (errors_New "instance has zero VNICs"),
             Build_World s1 (clock w) (memory w) (log w ++ [Called ctx attachments]))
    | first :: _ =>
        let details := GetVnicRequest (VnicId first) requestMetadata in
        let '(r, s2) := vcn_GetVnic (vcnClient d) ctx (clock w) details s1 in
        (match r with
         | inr err => Failed (fmt_Errorf "error getting VNIC details: %s" [AError err])
         | inl vnic =>
             if UsePrivateIP (cfg d) then
               match PrivateIp vnic with
               | Some ip => Returned ip
               | None => Panicked "invalid memory address or nil pointer dereference"
               end
             else
               match PublicIp vnic with
               | Some ip => Returned ip
               | None => Failed (fmt_Errorf "error getting VNIC Public Ip for: %s" [AString id])
               end
         end,
         Build_World s2 (clock w) (memory w)
           (log w ++ [Called ctx attachments; Called ctx details]))
    end.
Proof.
  intros attachments Hlist. unfold GetInstanceIP. fold attachments.
  rewrite bind_run. unfold invoke at 1. rewrite Hlist.
  destruct vnics as [| first others]; [done |].
  unfold invoke. cbn [service clock memory log].
  destruct (vcn_GetVnic _ _ _ _ _) as [[vnic | err] s2]; rewrite <- app_assoc; cbn [app].
  - destruct (UsePrivateIP (cfg d)).
    + by destruct (PrivateIp vnic).
    + by destruct (PublicIp vnic).
  - done.
Qed.

End Launch.

(** The launch from the image the configuration names. *)
Lemma CreateInstance_from_configured_image_witness :
  CreateInstance Fake.runtime Variants.by_id 0 Fake.build "ssh-rsa AAAA"
    (Fake.world (Fake.region [] true []))
  = (Returned "ocid1.instance.oc1..launched",
     Build_World (Fake.region [] true []) 0 ∅
       [Called TODO
          (LaunchInstanceRequest
             (launchInstanceDetails Variants.by_id "ssh-rsa AAAA" (Some "ocid1.image.oc1..chosen"))
             requestMetadata)]).
Proof.
  exact (CreateInstance_from_configured_image Fake.runtime Variants.by_id 0 Fake.build
           "ssh-rsa AAAA" (Fake.world (Fake.region [] true [])) ltac:(discriminate)).
Defined.

(** A listing whose first page is empty: the first image of the second
    page is taken. *)
Lemma base_image_is_the_first_listed_witness :
  fst (baseImageId Fake.runtime Variants.most_recent 2 Fake.build
         (Fake.world Variants.empty_first_page))
  = Returned (Some "ocid1.image.oc1..ol79").
Proof.
  assert (listing Variants.most_recent Fake.build 0 (Some "") Variants.empty_first_page
            (snd <$> Fake.image_pages Variants.empty_first_page)) as Hlisting.
  { eapply listing_page; [reflexivity |]. eapply listing_page; [reflexivity |].
    apply listing_done. }
  assert (∀ image, image ∈ listed (snd <$> Fake.image_pages Variants.empty_first_page) ->
                   Image_Id image ≠ None) as Hwf.
  { intros image Hin. cbn in Hin.
    repeat (apply elem_of_cons in Hin as [-> | Hin]; [done |]).
    by apply elem_of_nil in Hin. }
  exact (base_image_is_the_first_listed Fake.runtime Variants.most_recent Fake.build
           (Fake.world Variants.empty_first_page)
           (snd <$> Fake.image_pages Variants.empty_first_page) 2
           eq_refl eq_refl Hlisting Hwf (le_n 2)).
Defined.



(** An expression with an open parenthesis, on a runtime that refuses
    it. *)
Lemma CreateInstance_expression_does_not_compile_witness :
  CreateInstance Variants.strict_runtime Variants.unbalanced 1 Fake.build "ssh-rsa AAAA"
    (Fake.world (Fake.region [] true []))
  = (Failed Variants.missing_parenthesis,
     Build_World (Fake.region [] true []) 0 ∅
       [Called Fake.build (listImagesRequest Variants.unbalanced (Some ""))]).
Proof.
  exact (CreateInstance_expression_does_not_compile Variants.strict_runtime Variants.unbalanced
           0 Fake.build "ssh-rsa AAAA" "Oracle-Linux-(" Variants.missing_parenthesis
           (Fake.world (Fake.region [] true [])) eq_refl eq_refl eq_refl).
Defined.

(** The private address of the first VNIC. *)
Lemma GetInstanceIP_run_witness :
  GetInstanceIP Variants.by_id Fake.build "ocid1.instance.oc1..launched"
    (Fake.world (Fake.region [] true []))
  = (Returned "10.0.0.2",
     Build_World (Fake.region [] true []) 0 ∅
       [Called Fake.build
          (ListVnicAttachmentsRequest (Some "ocid1.instance.oc1..launched")
             (Some "ocid1.compartment.oc1..build") requestMetadata);
        Called Fake.build (GetVnicRequest (Some "ocid1.vnic.oc1..first") requestMetadata)]).
Proof.
  exact (GetInstanceIP_run Variants.by_id Fake.build "ocid1.instance.oc1..launched"
           (Fake.world (Fake.region [] true []))
           [{| VnicId := Some "ocid1.vnic.oc1..first" |}] (Fake.region [] true []) eq_refl).
Defined.

(** ** The creation path of the reconciliation *)

(** X12.  The copy of the global schema does not depend on the order in
    which the loop visits the keys: two orders give new schema data that
    are the same on the wire.  And the loop writes to no array of the
    global schema, which reads after the copy as it did before. *)
Theorem copy_does_not_depend_on_the_order (SchemaData : gmap string descriptor)
    (order order' : list (string * descriptor)) (h : heap) :
  order ≡ₚ map_to_list SchemaData ->
  order' ≡ₚ map_to_list SchemaData ->
  map_Forall (λ _ val, live_descriptor h val) SchemaData ->
  marshal_schema (copySchemaData_in order h).2 (copySchemaData_in order h).1
  = marshal_schema (copySchemaData_in order' h).2 (copySchemaData_in order' h).1
  ∧ marshal_schema (copySchemaData_in order h).2 SchemaData = marshal_schema h SchemaData.
Proof.
  intros Horder Horder' Hlive.
  destruct (copySchemaData_in_lookup SchemaData order h _ _ Horder Hlive (surjective_pairing _))
    as (Hsub & _ & ->).
  destruct (copySchemaData_in_lookup SchemaData order' h _ _ Horder' Hlive (surjective_pairing _))
    as (_ & _ & ->).
  split; [done |]. by apply marshal_schema_extends.
Qed.

Section CreationPath.

Context {St : Type}.
Variable rt : Runtime St.
Variable d : driverOCI St.

(** X13.  When the image has no schema and the service lists no global
    schema, the reconciliation returns the error [unable to find any
    global schemas] after these two listings: it asks for no version,
    creates nothing and sends no update. *)
Theorem reconciliation_without_global_schema (ctx : context) (imageId : string) (w : World St)
    (s1 s2 : St) :
  compute_ListComputeImageCapabilitySchemas (computeClient d) Background (clock w)
    (listSchemasRequest imageId) (service w) = (inl [], s1) ->
  compute_ListComputeGlobalImageCapabilitySchemas (computeClient d) Background (clock w)
    (ListComputeGlobalImageCapabilitySchemasRequest zero_RequestMetadata) s1
  = (inl [], s2) ->
  UpdateImageCapabilitySchema rt d ctx imageId w
  = (Failed (errors_New "unable to find any global schemas"),
     Build_World s2 (clock w) (memory w)
       (log w ++ [Called Background (listSchemasRequest imageId);
                  Called Background
                    (ListComputeGlobalImageCapabilitySchemasRequest zero_RequestMetadata)])).
Proof.
  intros Hlist Hglobal.
  unfold UpdateImageCapabilitySchema. rewrite bind_run, listSchemas_run, Hlist.
  cbn [unmarshal_summaries fst snd length Nat.ltb Nat.leb].
  rewrite bind_run. unfold createFromGlobalSchema. rewrite bind_run.
  unfold invoke. cbn [service clock memory log]. rewrite Hglobal.
  cbn [length Nat.ltb Nat.leb fail]. by rewrite <- app_assoc.
Qed.

(** The creation path up to the creation request. *)
Lemma createFromGlobalSchema_run imageId (w : World St) first others s2 version s3 token s4 :
  compute_ListComputeGlobalImageCapabilitySchemas (computeClient d) Background (clock w)
    (ListComputeGlobalImageCapabilitySchemasRequest zero_RequestMetadata) (service w)
  = (inl (first :: others), s2) ->
  compute_GetComputeGlobalImageCapabilitySchemaVersion (computeClient d) Background (clock w)
    (GetComputeGlobalImageCapabilitySchemaVersionRequest
       (Global_Id first) (CurrentVersionName first) zero_RequestMetadata) s2
  = (inl version, s3) ->
  uuid_TimeOrderedUUID rt s3 = (token, s4) ->
  ∃ h2,
    createFromGlobalSchema rt d imageId w
    = (do _ <- invoke (compute_CreateComputeImageCapabilitySchema (computeClient d)) Background
                 (createRequest d imageId
                    (omap image_copy (default ∅ (Version_SchemaData version)))
                    (Version_Name version) token);
       listSchemas d Background imageId)
        (Build_World s4 (clock w) h2
           (log w
            ++ [Called Background
                  (ListComputeGlobalImageCapabilitySchemasRequest zero_RequestMetadata);
                Called Background
                  (GetComputeGlobalImageCapabilitySchemaVersionRequest
                     (Global_Id first) (CurrentVersionName first) zero_RequestMetadata)])).
Proof.
  intros Hglobal Hversion Huuid. unfold createFromGlobalSchema.
  rewrite bind_run. unfold invoke at 1. rewrite Hglobal.
  cbn [length Nat.ltb Nat.leb index0]. rewrite bind_run. cbn [ret].
  rewrite bind_run. unfold invoke at 1. cbn [service clock memory log]. rewrite Hversion.
  rewrite bind_run. unfold with_memory at 1. cbn [service clock memory log].
  destruct (unmarshal_version (memory w) version) as [globalSchema h1] eqn:Hdec.
  rewrite bind_run. unfold with_memory at 1. cbn [service clock memory log].
  destruct (copySchemaData (Version_SchemaData globalSchema) h1) as [newSchemaData h2] eqn:Hcopy.
  destruct (copy_of_decoded_version _ _ _ _ _ _ Hdec Hcopy) as [-> Hdata].
  rewrite bind_run. unfold TimeOrderedUUID at 1. cbn [service clock memory log].
  rewrite Huuid.
  rewrite bind_run. unfold read_memory at 1. cbn [service clock memory log fst]. rewrite Hdata.
  exists h2. by rewrite <- app_assoc.
Qed.

(** The run on an image without schema, up to the creation request. *)
Lemma creation_path ctx imageId (w : World St) s1 first others s2 version s3 token s4 :
  compute_ListComputeImageCapabilitySchemas (computeClient d) Background (clock w)
    (listSchemasRequest imageId) (service w) = (inl [], s1) ->
  compute_ListComputeGlobalImageCapabilitySchemas (computeClient d) Background (clock w)
    (ListComputeGlobalImageCapabilitySchemasRequest zero_RequestMetadata) s1
  = (inl (first :: others), s2) ->
  compute_GetComputeGlobalImageCapabilitySchemaVersion (computeClient d) Background (clock w)
    (GetComputeGlobalImageCapabilitySchemaVersionRequest
       (Global_Id first) (CurrentVersionName first) zero_RequestMetadata) s2
  = (inl version, s3) ->
  uuid_TimeOrderedUUID rt s3 = (token, s4) ->
  ∃ h2,
    UpdateImageCapabilitySchema rt d ctx imageId w
    = (do Items <-
         (do _ <- invoke (compute_CreateComputeImageCapabilitySchema (computeClient d))
                    Background
                    (createRequest d imageId
                       (omap image_copy (default ∅ (Version_SchemaData version)))
                       (Version_Name version) token);
          listSchemas d Background imageId);
       do Items <- addCustomFields d Items;
       updateFirstSchema d ctx Items)
        (Build_World s4 (clock w) h2
           (log w
            ++ [Called Background (listSchemasRequest imageId);
                Called Background
                  (ListComputeGlobalImageCapabilitySchemasRequest zero_RequestMetadata);
                Called Background
                  (GetComputeGlobalImageCapabilitySchemaVersionRequest
                     (Global_Id first) (CurrentVersionName first) zero_RequestMetadata)])).
Proof.
  intros Hlist Hglobal Hversion Huuid.
  unfold UpdateImageCapabilitySchema. rewrite bind_run, listSchemas_run, Hlist.
  cbn [unmarshal_summaries fst snd length Nat.ltb Nat.leb].
  set (w1 := Build_World s1 _ _ _).
  destruct (createFromGlobalSchema_run imageId w1 first others s2 version s3 token s4
              Hglobal Hversion Huuid) as (h2 & Hrun).
  exists h2. rewrite (bind_run (createFromGlobalSchema rt d imageId)), Hrun.
  subst w1. cbn [service clock memory log]. rewrite <- app_assoc. cbn [app].
  by rewrite <- bind_run.
Qed.

(** The run on a list that is listed with a schema is the update of
    this schema. *)
Lemma listed_then_updated ctx imageId (w : World St) item rest s1 :
  compute_ListComputeImageCapabilitySchemas (computeClient d) Background (clock w)
    (listSchemasRequest imageId) (service w) = (inl (item :: rest), s1) ->
  (do Items <- listSchemas d Background imageId;
   do Items <- addCustomFields d Items;
   updateFirstSchema d ctx Items) w
  = UpdateImageCapabilitySchema rt d ctx imageId w.
Proof.
  intros Hlist. unfold UpdateImageCapabilitySchema.
  rewrite !(bind_run (listSchemas d Background imageId)), listSchemas_run, Hlist.
  destruct (unmarshal_summaries (memory w) (item :: rest)) as [Items h1] eqn:Hdec.
  apply unmarshal_summaries_length in Hdec. cbn [fst snd].
  destruct Items as [| decoded Items]; [done |].
  cbn [length Nat.ltb Nat.leb]. by rewrite (bind_run (ret _)).
Qed.

(** X14.  The whole run on an image without schema, on a service that
    lists the schema once it is created: six requests, that is the
    listing, the global listing, the version, the creation (all four
    under [context.Background]), the listing again, and the update
    under the context of the caller, with the custom fields laid over
    the data of the schema listed.  (When that schema has a nil map
    and a custom field is configured, the run panics before the
    update.) *)
Theorem reconciliation_of_an_image_without_schema (ctx : context) (imageId : string)
    (w : World St) (s1 s2 s3 s4 s5 s6 : St)
    (first : core_ComputeGlobalImageCapabilitySchemaSummary)
    (others : list core_ComputeGlobalImageCapabilitySchemaSummary)
    (version : core_ComputeGlobalImageCapabilitySchemaVersion wire_descriptor)
    (token : string)
    (item : core_ComputeImageCapabilitySchemaSummary wire_descriptor)
    (rest : list (core_ComputeImageCapabilitySchemaSummary wire_descriptor)) :
  let creation := createRequest d imageId
                    (omap image_copy (default ∅ (Version_SchemaData version)))
                    (Version_Name version) token in
  let update := updateRequest d (Schema_Id item)
                  (customFields (cfg d) <$> Schema_SchemaData item) in
  let calls := [Called Background (listSchemasRequest imageId);
                Called Background
                  (ListComputeGlobalImageCapabilitySchemasRequest zero_RequestMetadata);
                Called Background
                  (GetComputeGlobalImageCapabilitySchemaVersionRequest
                     (Global_Id first) (CurrentVersionName first) zero_RequestMetadata);
                Called Background creation;
                Called Background (listSchemasRequest imageId)] in
  compute_ListComputeImageCapabilitySchemas (computeClient d) Background (clock w)
    (listSchemasRequest imageId) (service w) = (inl [], s1) ->
  compute_ListComputeGlobalImageCapabilitySchemas (computeClient d) Background (clock w)
    (ListComputeGlobalImageCapabilitySchemasRequest zero_RequestMetadata) s1
  = (inl (first :: others), s2) ->
  compute_GetComputeGlobalImageCapabilitySchemaVersion (computeClient d) Background (clock w)
    (GetComputeGlobalImageCapabilitySchemaVersionRequest
       (Global_Id first) (CurrentVersionName first) zero_RequestMetadata) s2
  = (inl version, s3) ->
  uuid_TimeOrderedUUID rt s3 = (token, s4) ->
  compute_CreateComputeImageCapabilitySchema (computeClient d) Background (clock w)
    creation s4 = (inl tt, s5) ->
  compute_ListComputeImageCapabilitySchemas (computeClient d) Background (clock w)
    (listSchemasRequest imageId) s5 = (inl (item :: rest), s6) ->
  (∃ h',
      UpdateImageCapabilitySchema rt d ctx imageId w
      = (let '(r, s') := compute_UpdateComputeImageCapabilitySchema (computeClient d) ctx
                           (clock w) update s6 in
         (match r with inl a => Returned a | inr e => Failed e end,
          Build_World s' (clock w) h' (log w ++ calls ++ [Called ctx update]))))
  ∨ (Schema_SchemaData item = None
     ∧ (LaunchMode (cfg d) ≠ "" ∨ NicAttachmentType (cfg d) ≠ "")
     ∧ ∃ h', UpdateImageCapabilitySchema rt d ctx imageId w
             = (Panicked "assignment to entry in nil map",
                Build_World s6 (clock w) h' (log w ++ calls))).
Proof.
  intros creation update calls Hlist Hglobal Hversion Huuid Hcreate Hrelist.
  destruct (creation_path ctx imageId w s1 first others s2 version s3 token s4
              Hlist Hglobal Hversion Huuid) as (h2 & Hpath).
  set (w5 := Build_World s5 (clock w) h2
               (log w ++ [Called Background (listSchemasRequest imageId);
                          Called Background
                            (ListComputeGlobalImageCapabilitySchemasRequest zero_RequestMetadata);
                          Called Background
                            (GetComputeGlobalImageCapabilitySchemaVersionRequest
                               (Global_Id first) (CurrentVersionName first) zero_RequestMetadata);
                          Called Background creation])).
  assert (UpdateImageCapabilitySchema rt d ctx imageId w
          = UpdateImageCapabilitySchema rt d ctx imageId w5) as ->.
  { rewrite Hpath, <- (listed_then_updated ctx imageId w5 item rest s6 Hrelist).
    rewrite bind_run, bind_run. unfold invoke at 1. cbn [service clock memory log].
    fold creation. rewrite Hcreate. rewrite <- app_assoc. by rewrite <- bind_run. }
  destruct (UpdateImageCapabilitySchema_existing rt d ctx imageId w5 item rest s6 Hrelist)
    as [(h' & ->) | (Hnone & Hcustom & h' & ->)].
  - left. exists h'. subst w5. cbn [service clock memory log]. fold update.
    destruct (compute_UpdateComputeImageCapabilitySchema _ _ _ _ _) as [r s'].
    by rewrite <- !app_assoc.
  - right. split_and!; [done | done |]. exists h'. subst w5. cbn [service clock memory log].
    by rewrite <- !app_assoc.
Qed.

Lemma nothing_to_update ctx (w : World St) :
  ∃ h', (do Items <- addCustomFields d []; updateFirstSchema d ctx Items) w
        = (Panicked "index out of range [0] with length 0",
           Build_World (service w) (clock w) h' (log w)).
Proof.
  destruct w as [s c h lg]. cbn [service clock memory log].
  unfold addCustomFields, assignItem0, updateFirstSchema, bind, with_memory, index0, panic, ret.
  cbn [memory service clock log].
  destruct (decide (LaunchMode (cfg d) ≠ "")); cbn [memory service clock log].
  - destruct (strings_literal h _) as [V1 h1]. by exists h1.
  - destruct (decide (NicAttachmentType (cfg d) ≠ "")); cbn [memory service clock log].
    + destruct (strings_literal h _) as [V1 h1]. by exists h1.
    + by exists h.
Qed.

(** X15.  The list of schemas that is listed after the creation is
    indexed as it comes: whenever this second listing is empty, the
    reconciliation panics on the index 0, after five requests and
    without an update, whatever the custom fields are. *)
Theorem reconciliation_panics_on_an_empty_second_listing (ctx : context) (imageId : string)
    (w : World St) (s1 s2 s3 s4 s5 s6 : St)
    (first : core_ComputeGlobalImageCapabilitySchemaSummary)
    (others : list core_ComputeGlobalImageCapabilitySchemaSummary)
    (version : core_ComputeGlobalImageCapabilitySchemaVersion wire_descriptor)
    (token : string) :
  let creation := createRequest d imageId
                    (omap image_copy (default ∅ (Version_SchemaData version)))
                    (Version_Name version) token in
  compute_ListComputeImageCapabilitySchemas (computeClient d) Background (clock w)
    (listSchemasRequest imageId) (service w) = (inl [], s1) ->
  compute_ListComputeGlobalImageCapabilitySchemas (computeClient d) Background (clock w)
    (ListComputeGlobalImageCapabilitySchemasRequest zero_RequestMetadata) s1
  = (inl (first :: others), s2) ->
  compute_GetComputeGlobalImageCapabilitySchemaVersion (computeClient d) Background (clock w)
    (GetComputeGlobalImageCapabilitySchemaVersionRequest
       (Global_Id first) (CurrentVersionName first) zero_RequestMetadata) s2
  = (inl version, s3) ->
  uuid_TimeOrderedUUID rt s3 = (token, s4) ->
  compute_CreateComputeImageCapabilitySchema (computeClient d) Background (clock w)
    creation s4 = (inl tt, s5) ->
  compute_ListComputeImageCapabilitySchemas (computeClient d) Background (clock w)
    (listSchemasRequest imageId) s5 = (inl [], s6) ->
  ∃ h',
    UpdateImageCapabilitySchema rt d ctx imageId w
    = (Panicked "index out of range [0] with length 0",
       Build_World s6 (clock w) h'
         (log w ++ [Called Background (listSchemasRequest imageId);
                    Called Background
                      (ListComputeGlobalImageCapabilitySchemasRequest zero_RequestMetadata);
                    Called Background
                      (GetComputeGlobalImageCapabilitySchemaVersionRequest
                         (Global_Id first) (CurrentVersionName first) zero_RequestMetadata);
                    Called Background creation;
                    Called Background (listSchemasRequest imageId)])).
Proof.
  intros creation Hlist Hglobal Hversion Huuid Hcreate Hrelist.
  destruct (creation_path ctx imageId w s1 first others s2 version s3 token s4
              Hlist Hglobal Hversion Huuid) as (h2 & Hpath).
  set (w6 := Build_World s6 (clock w) h2
               (log w ++ [Called Background (listSchemasRequest imageId);
                          Called Background
                            (ListComputeGlobalImageCapabilitySchemasRequest zero_RequestMetadata);
                          Called Background
                            (GetComputeGlobalImageCapabilitySchemaVersionRequest
                               (Global_Id first) (CurrentVersionName first) zero_RequestMetadata);
                          Called Background creation;
                          Called Background (listSchemasRequest imageId)])).
  assert (UpdateImageCapabilitySchema rt d ctx imageId w
          = (do Items <- addCustomFields d []; updateFirstSchema d ctx Items) w6) as ->.
  { rewrite Hpath.
    rewrite bind_run, bind_run. unfold invoke at 1. cbn [service clock memory log].
    fold creation. rewrite Hcreate, listSchemas_run. cbn [service clock memory log].
    rewrite Hrelist. cbn [unmarshal_summaries fst snd]. by rewrite <- !app_assoc. }
  apply nothing_to_update.
Qed.

(** X16.  When the creation of the schema fails, its error is what
    the reconciliation returns: the schemas are not listed again and
    no update is sent. *)
Theorem reconciliation_returns_the_error_of_the_creation (ctx : context) (imageId : string)
    (w : World St) (s1 s2 s3 s4 s5 : St)
    (first : core_ComputeGlobalImageCapabilitySchemaSummary)
    (others : list core_ComputeGlobalImageCapabilitySchemaSummary)
    (version : core_ComputeGlobalImageCapabilitySchemaVersion wire_descriptor)
    (token : string) (err : error) :
  let creation := createRequest d imageId
                    (omap image_copy (default ∅ (Version_SchemaData version)))
                    (Version_Name version) token in
  compute_ListComputeImageCapabilitySchemas (computeClient d) Background (clock w)
    (listSchemasRequest imageId) (service w) = (inl [], s1) ->
  compute_ListComputeGlobalImageCapabilitySchemas (computeClient d) Background (clock w)
    (ListComputeGlobalImageCapabilitySchemasRequest zero_RequestMetadata) s1
  = (inl (first :: others), s2) ->
  compute_GetComputeGlobalImageCapabilitySchemaVersion (computeClient d) Background (clock w)
    (GetComputeGlobalImageCapabilitySchemaVersionRequest
       (Global_Id first) (CurrentVersionName first) zero_RequestMetadata) s2
  = (inl version, s3) ->
  uuid_TimeOrderedUUID rt s3 = (token, s4) ->
  compute_CreateComputeImageCapabilitySchema (computeClient d) Background (clock w)
    creation s4 = (inr err, s5) ->
  ∃ h',
    UpdateImageCapabilitySchema rt d ctx imageId w
    = (Failed err,
       Build_World s5 (clock w) h'
         (log w ++ [Called Background (listSchemasRequest imageId);
                    Called Background
                      (ListComputeGlobalImageCapabilitySchemasRequest zero_RequestMetadata);
                    Called Background
                      (GetComputeGlobalImageCapabilitySchemaVersionRequest
                         (Global_Id first) (CurrentVersionName first) zero_RequestMetadata);
                    Called Background creation])).
Proof.
  intros creation Hlist Hglobal Hversion Huuid Hcreate.
  destruct (creation_path ctx imageId w s1 first others s2 version s3 token s4
              Hlist Hglobal Hversion Huuid) as (h2 & Hpath).
  exists h2. rewrite Hpath.
  rewrite bind_run, bind_run. unfold invoke at 1. cbn [service clock memory log].
  fold creation. rewrite Hcreate. by rewrite <- !app_assoc.
Qed.

End CreationPath.

(** The two orders of a global schema of two descriptors. *)
Lemma copy_does_not_depend_on_the_order_witness :
  let flag := BooleanImageCapabilitySchemaDescriptor "GLOBAL" (Some true) in
  let queues := EnumIntegerImageCapabilityDescriptor "GLOBAL" (Some 1) (Slice 0 3) in
  let order := [("Storage.Iscsi.MultipathDeviceSupported", flag); ("Network.Queues", queues)] in
  let order' := [("Network.Queues", queues); ("Storage.Iscsi.MultipathDeviceSupported", flag)] in
  marshal_schema (copySchemaData_in order Fake.decoded_heap).2
    (copySchemaData_in order Fake.decoded_heap).1
  = marshal_schema (copySchemaData_in order' Fake.decoded_heap).2
      (copySchemaData_in order' Fake.decoded_heap).1
  ∧ marshal_schema (copySchemaData_in order Fake.decoded_heap).2 Variants.two_descriptors
    = marshal_schema Fake.decoded_heap Variants.two_descriptors.
Proof.
  intros flag queues order order'.
  assert (order ≡ₚ map_to_list Variants.two_descriptors) as Horder.
  { unfold Variants.two_descriptors, Fake.decoded_data.
    rewrite map_to_list_insert by (by apply lookup_singleton_ne).
    by rewrite map_to_list_singleton. }
  assert (order' ≡ₚ map_to_list Variants.two_descriptors) as Horder'.
  { rewrite <- Horder. apply Permutation_swap. }
  apply (copy_does_not_depend_on_the_order Variants.two_descriptors order order'
           Fake.decoded_heap Horder Horder').
  apply map_Forall_insert_2; [done |].
  apply map_Forall_singleton. cbn. exists [1; 2; 4]. split; [reflexivity | cbn; lia].
Defined.

(** A region without global schema. *)
Lemma reconciliation_without_global_schema_witness :
  UpdateImageCapabilitySchema Fake.runtime Fake.driver Fake.build "ocid1.image.oc1..built"
    (Fake.world Variants.without_global_schema)
  = (Failed (errors_New "unable to find any global schemas"),
     Build_World Variants.without_global_schema 0 ∅
       [Called Background (listSchemasRequest "ocid1.image.oc1..built");
        Called Background (ListComputeGlobalImageCapabilitySchemasRequest zero_RequestMetadata)]).
Proof.
  exact (reconciliation_without_global_schema Fake.runtime Fake.driver Fake.build
           "ocid1.image.oc1..built" (Fake.world Variants.without_global_schema)
           Variants.without_global_schema Variants.without_global_schema eq_refl eq_refl).
Defined.

(** The six requests on a region that lists the schema once it is
    created. *)
Lemma reconciliation_of_an_image_without_schema_witness :
  let created := omap image_copy Fake.global_data in
  log (snd (UpdateImageCapabilitySchema Fake.runtime Fake.driver Fake.build
              "ocid1.image.oc1..built" (Fake.world (Fake.region [] true []))))
  = [Called Background (listSchemasRequest "ocid1.image.oc1..built");
     Called Background (ListComputeGlobalImageCapabilitySchemasRequest zero_RequestMetadata);
     Called Background (GetComputeGlobalImageCapabilitySchemaVersionRequest
                          (Some "ocid1.computeglobalimgcapschema.oc1..one") (Some "v1")
                          zero_RequestMetadata);
     Called Background
       (createRequest Fake.driver "ocid1.image.oc1..built" created (Some "v1")
          "5f3c1e0a-0000-0000-0000-000000000001");
     Called Background (listSchemasRequest "ocid1.image.oc1..built");
     Called Fake.build
       (updateRequest Fake.driver (Some "ocid1.computeimgcapschema.oc1..created")
          (Some (customFields Fake.config created)))].
Proof.
  intros created.
  destruct (reconciliation_of_an_image_without_schema Fake.runtime Fake.driver Fake.build
              "ocid1.image.oc1..built" (Fake.world (Fake.region [] true []))
              (Fake.region [] true []) (Fake.region [] true []) (Fake.region [] true [])
              (Fake.region [] true [])
              (Fake.region [{| Schema_Id := Some "ocid1.computeimgcapschema.oc1..created";
                               Schema_SchemaData := Some created |}] true [])
              (Fake.region [{| Schema_Id := Some "ocid1.computeimgcapschema.oc1..created";
                               Schema_SchemaData := Some created |}] true [])
              {| Global_Id := Some "ocid1.computeglobalimgcapschema.oc1..one";
                 CurrentVersionName := Some "v1" |} []
              {| Version_Name := Some "v1"; Version_SchemaData := Some Fake.global_data |}
              "5f3c1e0a-0000-0000-0000-000000000001"
              {| Schema_Id := Some "ocid1.computeimgcapschema.oc1..created";
                 Schema_SchemaData := Some created |} []
              eq_refl eq_refl eq_refl eq_refl eq_refl eq_refl)
    as [(h' & Hrun) | (Hnone & _)]; [| discriminate Hnone].
  rewrite Hrun. reflexivity.
Defined.

(** A region that does not list the created schema yet. *)
Lemma reconciliation_panics_on_an_empty_second_listing_witness :
  ∃ h',
    UpdateImageCapabilitySchema Fake.runtime Fake.driver Fake.build "ocid1.image.oc1..built"
      (Fake.world (Fake.region [] false []))
    = (Panicked "index out of range [0] with length 0",
       Build_World (Fake.region [] false []) 0 h'
         [Called Background (listSchemasRequest "ocid1.image.oc1..built");
          Called Background (ListComputeGlobalImageCapabilitySchemasRequest zero_RequestMetadata);
          Called Background (GetComputeGlobalImageCapabilitySchemaVersionRequest
                               (Some "ocid1.computeglobalimgcapschema.oc1..one") (Some "v1")
                               zero_RequestMetadata);
          Called Background
            (createRequest Fake.driver "ocid1.image.oc1..built"
               (omap image_copy Fake.global_data) (Some "v1")
               "5f3c1e0a-0000-0000-0000-000000000001");
          Called Background (listSchemasRequest "ocid1.image.oc1..built")]).
Proof.
  exact (reconciliation_panics_on_an_empty_second_listing Fake.runtime Fake.driver Fake.build
           "ocid1.image.oc1..built" (Fake.world (Fake.region [] false []))
           (Fake.region [] false []) (Fake.region [] false []) (Fake.region [] false [])
           (Fake.region [] false []) (Fake.region [] false []) (Fake.region [] false [])
           {| Global_Id := Some "ocid1.computeglobalimgcapschema.oc1..one";
              CurrentVersionName := Some "v1" |} []
           {| Version_Name := Some "v1"; Version_SchemaData := Some Fake.global_data |}
           "5f3c1e0a-0000-0000-0000-000000000001"
           eq_refl eq_refl eq_refl eq_refl eq_refl eq_refl).
Defined.

(** A compute client that answers the creation with a conflict. *)
Lemma reconciliation_returns_the_error_of_the_creation_witness :
  ∃ h',
    UpdateImageCapabilitySchema Fake.runtime Variants.refuses_creation Fake.build
      "ocid1.image.oc1..built" (Fake.world (Fake.region [] true []))
    = (Failed Variants.conflict,
       Build_World (Fake.region [] true []) 0 h'
         [Called Background (listSchemasRequest "ocid1.image.oc1..built");
          Called Background (ListComputeGlobalImageCapabilitySchemasRequest zero_RequestMetadata);
          Called Background (GetComputeGlobalImageCapabilitySchemaVersionRequest
                               (Some "ocid1.computeglobalimgcapschema.oc1..one") (Some "v1")
                               zero_RequestMetadata);
          Called Background
            (createRequest Variants.refuses_creation "ocid1.image.oc1..built"
               (omap image_copy Fake.global_data) (Some "v1")
               "5f3c1e0a-0000-0000-0000-000000000001")]).
Proof.
  exact (reconciliation_returns_the_error_of_the_creation Fake.runtime Variants.refuses_creation
           Fake.build "ocid1.image.oc1..built" (Fake.world (Fake.region [] true []))
           (Fake.region [] true []) (Fake.region [] true []) (Fake.region [] true [])
           (Fake.region [] true []) (Fake.region [] true [])
           {| Global_Id := Some "ocid1.computeglobalimgcapschema.oc1..one";
              CurrentVersionName := Some "v1" |} []
           {| Version_Name := Some "v1"; Version_SchemaData := Some Fake.global_data |}
           "5f3c1e0a-0000-0000-0000-000000000001" Variants.conflict
           eq_refl eq_refl eq_refl eq_refl eq_refl).
Defined.

(** ** The time a wait takes *)

Section InstanceState.

Context {St : Type}.
Variable d : driverOCI St.
Variables (ctx : context) (id : string) (waitStates : list string).



End InstanceState.

